(** * ATM PIN generator: a shallow embedding of [atm_pin_generator.cpp]

    The development follows the source file top to bottom: the pattern
    detector ([isSequential], [hasTooManyRepeats]), the PIN generator, the
    XOR obfuscation codec, the record codec of [User], the file-backed
    [UserDB], and the authentication / PIN-change logic.

    Conventions of the embedding.
    - [std::string] is [string]; a [char] is an [ascii] (eight bits).
    - [int] is a [Z] kept inside the 32-bit two's-complement range by
      [wrap_int] wherever the source does arithmetic that can leave it.
    - [double] is an IEEE 754 binary64 value, [spec_float].
    - [std::unordered_map<string, User>] is a [gmap string User].
    - [cin] is the list of whitespace-delimited tokens still to be read,
      [cout] the list of items printed so far, the database file an
      optional byte string. *)

From Stdlib Require Import ZArith Lia Bool List String Ascii.
From Stdlib Require Import Floats.SpecFloat.
From stdpp Require Import gmap strings.

Local Open Scope string_scope.
Local Open Scope Z_scope.

(** ** Characters and machine integers *)

Module Char.

(** Value of a [char] after integral promotion to [int].  GCC's x86-64
    target has a signed [char]; on the decimal digits both signednesses
    agree. *)
Definition to_int (c : ascii) : Z :=
  let n := Z.of_N (N_of_ascii c) in
  if n <? 128 then n else n - 256.

(** [a ^ b] on two [char]s, converted back to [char]: bit by bit. *)
Definition xor (a b : ascii) : ascii :=
  match a, b with
  | Ascii a0 a1 a2 a3 a4 a5 a6 a7, Ascii b0 b1 b2 b3 b4 b5 b6 b7 =>
      Ascii (xorb a0 b0) (xorb a1 b1) (xorb a2 b2) (xorb a3 b3)
            (xorb a4 b4) (xorb a5 b5) (xorb a6 b6) (xorb a7 b7)
  end.

(** [char('0' + d)] for a value [d]: the low eight bits. *)
Definition of_int (d : Z) : ascii := ascii_of_N (Z.to_N (d mod 256)).

Definition is_digit (c : ascii) : bool :=
  (48 <=? to_int c) && (to_int c <=? 57).

(** The digit value [c - '0'] the detector computes. *)
Definition digit_val (c : ascii) : Z := to_int c - to_int "0"%char.

End Char.

Module Int.

Definition MIN : Z := -2147483648.
Definition MAX : Z := 2147483647.

Definition in_range (z : Z) : Prop := MIN <= z <= MAX.

(** Two's-complement reduction to 32 bits: the conversion of a [size_t] to
    [int], and what the x86-64 target computes when a signed sum leaves the
    range (undefined behaviour in C++; the statements about such a sum take
    it to stay in range). *)
Definition wrap_int (z : Z) : Z := (z + 2147483648) mod 4294967296 - 2147483648.

End Int.

(** ** Strings *)

Fixpoint all_digits (s : string) : bool :=
  match s with
  | "" => true
  | String c r => Char.is_digit c && all_digits r
  end.

(** [s.size()] as a [size_t] value. *)
Definition string_size (s : string) : Z := Z.of_nat (String.length s).

(** ** Config *)

Definition DEFAULT_PIN_LENGTH : Z := 4.
Definition MAX_WRONG_ATTEMPTS : Z := 3.

(** ** Pattern detector *)

(** Body of the [for] loop of [isSequential], from index [i] on: [prev] is
    [pin[i-1]], [rest] the characters [pin[i..]]; returns the final
    [(asc, desc)]. *)
Fixpoint isSequential_loop (prev : ascii) (rest : string) (asc desc : bool)
  : bool * bool :=
  match rest with
  | "" => (asc, desc)
  | String c rest' =>
      let p := Char.digit_val prev in
      let cur := Char.digit_val c in
      let asc' := if negb (cur =? p + 1) then false else asc in
      let desc' := if negb (cur =? p - 1) then false else desc in
      isSequential_loop c rest' asc' desc'
  end.

Definition isSequential (pin : string) : bool :=
  match pin with
  | "" => true || true
  | String c0 rest =>
      let '(asc, desc) := isSequential_loop c0 rest true true in
      asc || desc
  end.

(** First loop of [hasTooManyRepeats] from index [i] on; [true] when the
    loop leaves the function through [return true]. *)
Fixpoint repeats_loop (prev : ascii) (rest : string) (sameCount : Z) : bool :=
  match rest with
  | "" => false
  | String c rest' =>
      if Ascii.eqb c prev then
        let sameCount' := sameCount + 1 in
        if sameCount' >=? 3 then true else repeats_loop c rest' sameCount'
      else repeats_loop c rest' 1
  end.

(** Second loop: [for (char c : pin) if (c != pin[0]) { allSame = false; break; }]. *)
Fixpoint allSame_loop (first : ascii) (s : string) : bool :=
  match s with
  | "" => true
  | String c r => if negb (Ascii.eqb c first) then false else allSame_loop first r
  end.

Definition hasTooManyRepeats (pin : string) : bool :=
  match pin with
  | "" => true
  | String c0 rest =>
      if repeats_loop c0 rest 1 then true else allSame_loop c0 pin
  end.

(** ** PIN generator *)

(** [banned]: the static set of well-known weak PINs. *)
Definition banned : gset string :=
  {[ "1234"; "0000"; "1111"; "1212"; "7777"; "1004"; "2000"; "4321"; "2580" ]}.

Section Generator.

(** The random source: [digitDist(rng)] returns one draw and advances the
    engine's state.  [uniform_int_distribution<int>(0, 9)] promises a
    value between 0 and 9; the theorems take that as a hypothesis. *)
Variable Rng : Type.
Variable digitDist : Rng -> Z * Rng.

(** [for (int i = 0; i < length; ++i) pin.push_back(char('0' + digitDist(rng)))],
    with [n] iterations left. *)
Fixpoint draw_digits (n : nat) (rng : Rng) (pin : string) : string * Rng :=
  match n with
  | O => (pin, rng)
  | S n' =>
      let '(d, rng') := digitDist rng in
      draw_digits n' rng' (pin ++ String (Char.of_int (Char.to_int "0"%char + d)) "")
  end.

(** The [for (;;)] loop, cut after [fuel] iterations: [None] when no
    candidate was accepted within [fuel] draws of a whole PIN. *)
Fixpoint generatePin (fuel : nat) (length : Z) (rng : Rng) : option (string * Rng) :=
  match fuel with
  | O => None
  | S fuel' =>
      let '(pin, rng') := draw_digits (Z.to_nat length) rng "" in
      if isSequential pin then generatePin fuel' length rng'
      else if hasTooManyRepeats pin then generatePin fuel' length rng'
      else if bool_decide (pin ∈ banned) then generatePin fuel' length rng'
      else Some (pin, rng')
  end.

End Generator.

(** ** Obfuscation codec *)

Definition key : string := "sachin_key_v1".

(** [key[i % key.size()]]. *)
Definition key_at (i : nat) : ascii :=
  match String.get (i mod String.length key)%nat key with
  | Some k => k
  | None => zero
  end.

(** The loop of [obfuscate] from index [i] on. *)
Fixpoint obfuscate_from (i : nat) (s : string) : string :=
  match s with
  | "" => ""
  | String c r => String (Char.xor c (key_at i)) (obfuscate_from (S i) r)
  end.

Definition obfuscate (s : string) : string := obfuscate_from 0 s.

Definition deobfuscate (s : string) : string := obfuscate s.

(** ** Text conversions of the standard library

    [operator<<] on [int] and [double], [std::stoi] and [std::stod] are
    library code; they are modelled from the C and C++ standards as
    implemented by libstdc++ over glibc (the source includes
    [bits/stdc++.h]), in the default "C" locale and rounding mode. *)

Inductive exception := invalid_argument | out_of_range.

(** A call either returns a value or leaves by an exception. *)
Inductive outcome (A : Type) :=
| Returned (a : A)
| Thrown (e : exception).
Arguments Returned {A} a.
Arguments Thrown {A} e.

Definition bind_outcome {A B} (m : outcome A) (k : A -> outcome B) : outcome B :=
  match m with
  | Returned a => k a
  | Thrown e => Thrown e
  end.

Definition returns {A} (m : outcome A) : bool :=
  match m with Returned _ => true | Thrown _ => false end.

Definition digit_char (d : Z) : ascii := Char.of_int (48 + d).

(** Decimal digits of [n >= 0], most significant first, in front of [acc]. *)
Fixpoint digits_of (fuel : nat) (n : Z) (acc : string) : string :=
  match fuel with
  | O => acc
  | S fuel' =>
      let acc' := String (digit_char (n mod 10)) acc in
      if n <? 10 then acc' else digits_of fuel' (n / 10) acc'
  end.

Definition print_nat (n : Z) : string :=
  digits_of (S (Z.to_nat (Z.log2 n))) n "".

(** [os << n] for an [int]. *)
Definition print_int (n : Z) : string :=
  if n <? 0 then String "-" (print_nat (- n)) else print_nat n.

(** Nearest integer to [num / den] ([den > 0]), ties to even. *)
Definition div_nearest_even (num den : Z) : Z :=
  let k := num / den in
  let r := num mod den in
  if 2 * r <? den then k
  else if den <? 2 * r then k + 1
  else if Z.even k then k else k + 1.

Definition sign_prefix (neg : bool) (s : string) : string :=
  if neg then String "-" s else s.

(** [os << fixed << setprecision(2) << x]: the exact value of [x] rounded
    to a whole number of hundredths, as [printf("%.2f")] does.  A NaN is
    written without a sign: [spec_float] does not record the sign of a
    NaN, which the program would print. *)
Definition print_fixed2 (x : spec_float) : string :=
  match x with
  | S754_nan => "nan"
  | S754_infinity neg => sign_prefix neg "inf"
  | S754_zero neg => sign_prefix neg "0.00"
  | S754_finite neg m e =>
      let cents :=
        if 0 <=? e then Z.pos m * 2 ^ e * 100
        else div_nearest_even (Z.pos m * 100) (2 ^ (- e)) in
      sign_prefix neg
        (print_nat (cents / 100) ++
         String "." (String (digit_char (cents mod 100 / 10))
                    (String (digit_char (cents mod 10)) "")))
  end.

(** [isspace] in the "C" locale. *)
Definition isspace (c : ascii) : bool :=
  let n := Char.to_int c in (n =? 32) || ((9 <=? n) && (n <=? 13)).

Fixpoint skip_space (s : string) : string :=
  match s with
  | String c r => if isspace c then skip_space r else s
  | "" => ""
  end.

(** Optional sign: [(negative, rest)]. *)
Definition take_sign (s : string) : bool * string :=
  match s with
  | String "-" r => (true, r)
  | String "+" r => (false, r)
  | _ => (false, s)
  end.

(** Value of a digit of the given base, if [c] is one. *)
Definition digit_of (base : Z) (c : ascii) : option Z :=
  let n := Char.to_int c in
  let v :=
    if (48 <=? n) && (n <=? 57) then n - 48
    else if (97 <=? n) && (n <=? 102) then n - 87
    else if (65 <=? n) && (n <=? 70) then n - 55
    else 16 in
  if v <? base then Some v else None.

(** Longest run of digits at the head of [s]: the value accumulated on top
    of [acc], the number of digits read on top of [cnt], and the rest. *)
Fixpoint scan_digits (base : Z) (s : string) (acc cnt : Z) : Z * Z * string :=
  match s with
  | String c r =>
      match digit_of base c with
      | Some d => scan_digits base r (acc * base + d) (cnt + 1)
      | None => (acc, cnt, s)
      end
  | "" => (acc, cnt, "")
  end.

(** [std::stoi(str)]: [strtol] in base 10 on the longest valid prefix. *)
Definition stoi (str : string) : outcome Z :=
  let '(neg, s) := take_sign (skip_space str) in
  let '(v, cnt, _) := scan_digits 10 s 0 0 in
  if cnt =? 0 then Thrown invalid_argument
  else
    let r := if neg then - v else v in
    if (Int.MIN <=? r) && (r <=? Int.MAX) then Returned r
    else Thrown out_of_range.

(** Binary64 parameters. *)
Definition prec : Z := 53.
Definition emax : Z := 1024.
Definition emin : Z := -1074.

(** [p / (q * 2^e)] as a fraction of integers. *)
Definition scaled (p q e : Z) : Z * Z :=
  if e <? 0 then (p * 2 ^ (- e), q) else (p, q * 2 ^ e).

(** The exponent [e] for which [p / (q * 2^e)] lies in [2^52, 2^53), for
    [p, q > 0]: the exponent of the unit in the last place of [p / q]. *)
Definition ulp_exponent (p q : Z) : Z :=
  let e1 := Z.log2 p - Z.log2 q - 52 in
  let '(n1, d1) := scaled p q e1 in
  if n1 / d1 <? 2 ^ 52 then e1 - 1 else e1.

(** The binary64 value nearest to [p / q] ([p, q > 0]), ties to even, and
    whether rounding changed the value. *)
Definition round_binary64 (neg : bool) (p q : Z) : spec_float * bool :=
  let e := Z.max (ulp_exponent p q) emin in
  let '(num, den) := scaled p q e in
  let m := div_nearest_even num den in
  let inexact := negb (num mod den =? 0) in
  let '(m', e') := if m =? 2 ^ 53 then (2 ^ 52, e + 1) else (m, e) in
  if m' =? 0 then (S754_zero neg, inexact)
  else if emax - prec <? e' then (S754_infinity neg, true)
  else (S754_finite neg (Z.to_pos m') e', inexact).

(** Is [p / q] ([p, q > 0]) tiny?  [strtod] tests it after rounding: the
    value, rounded to 53 bits with no bound on the exponent, is still below
    the smallest normal number [2^-1022]. *)
Definition tiny (p q : Z) : bool :=
  let e0 := ulp_exponent p q in
  let '(num, den) := scaled p q e0 in
  (e0 <? emin) &&
  negb ((e0 =? emin - 1) && (div_nearest_even num den =? 2 ^ 53)).

(** [mant * 2^e2 * 10^e10] as a double; [ERANGE] (hence [out_of_range]) on
    overflow and on an inexact result that is tiny or zero. *)
Definition make_double (neg : bool) (mant e2 e10 : Z) : outcome spec_float :=
  if mant =? 0 then Returned (S754_zero neg)
  else
    let p := mant * 2 ^ (Z.max e2 0) * 10 ^ (Z.max e10 0) in
    let q := 2 ^ (Z.max (- e2) 0) * 10 ^ (Z.max (- e10) 0) in
    match round_binary64 neg p q with
    | (S754_infinity _, _) => Thrown out_of_range
    | (S754_finite s m e, inexact) =>
        if inexact && tiny p q then Thrown out_of_range
        else Returned (S754_finite s m e)
    | (x, inexact) => if inexact then Thrown out_of_range else Returned x
    end.

Definition tolower (c : ascii) : ascii :=
  let n := Char.to_int c in
  if (65 <=? n) && (n <=? 90) then Char.of_int (n + 32) else c.

(** Does [s] start with [word], ignoring case? ([word] is in lower case.) *)
Fixpoint starts_with_nocase (word s : string) : bool :=
  match word, s with
  | "", _ => true
  | String w word', String c s' => Ascii.eqb (tolower c) w && starts_with_nocase word' s'
  | String _ _, "" => false
  end.

(** Optional exponent part [mark [sign] digits] of a floating literal: its
    value, 0 when absent or without digits. *)
Definition scan_exponent (mark : ascii) (s : string) : Z :=
  match s with
  | String c r =>
      if Ascii.eqb (tolower c) mark then
        let '(eneg, r') := take_sign r in
        let '(v, cnt, _) := scan_digits 10 r' 0 0 in
        if cnt =? 0 then 0 else if eneg then - v else v
      else 0
  | "" => 0
  end.

(** Mantissa [digits [. digits]] in the given base: the digits read as one
    integer, how many there are, how many follow the point, and the rest. *)
Definition scan_mantissa (base : Z) (s : string) : Z * Z * Z * string :=
  let '(ip, ni, r1) := scan_digits base s 0 0 in
  match r1 with
  | String "." r =>
      let '(m, nf, r2) := scan_digits base r ip 0 in
      if ni + nf =? 0 then (0, 0, 0, s) else (m, ni + nf, nf, r2)
  | _ => (ip, ni, 0, r1)
  end.

Definition string_drop2 (s : string) : string :=
  match s with
  | String _ (String _ r) => r
  | _ => ""
  end.

(** [std::stod(str)]: [strtod] on the longest valid prefix. *)
Definition stod (str : string) : outcome spec_float :=
  let '(neg, s) := take_sign (skip_space str) in
  if starts_with_nocase "inf" s then Returned (S754_infinity neg)
  else if starts_with_nocase "nan" s then Returned S754_nan
  else
    let decimal :=
      let '(m, n, nf, r) := scan_mantissa 10 s in
      if n =? 0 then Thrown invalid_argument
      else make_double neg m 0 (scan_exponent "e" r - nf) in
    if starts_with_nocase "0x" s then
      let '(m, n, nf, r) := scan_mantissa 16 (string_drop2 s) in
      if n =? 0 then decimal
      else make_double neg m (scan_exponent "p" r - 4 * nf) 0
    else decimal.

(** ** Input streams

    The part of [std::istream] that [std::getline] uses: the characters not
    yet read and the [eofbit] and [failbit] state flags. *)

Record istream := mk_istream {
  buf : string;
  eofbit : bool;
  failbit : bool
}.

Definition open_stream (s : string) : istream := mk_istream s false false.

(** Characters of [s] up to the first [delim] (which is consumed but not
    stored): [Some (line, rest)], or [None] when [s] has no [delim]. *)
Fixpoint split_at (delim : ascii) (s : string) : option (string * string) :=
  match s with
  | "" => None
  | String c r =>
      if Ascii.eqb c delim then Some ("", r)
      else
        match split_at delim r with
        | Some (line, rest) => Some (String c line, rest)
        | None => None
        end
  end.

(** [std::getline(strm, str, delim)]: the new stream state and the new value
    of [str].  When the stream is not [good()] the sentry fails: [failbit]
    is set and [str] is left as it was.  Otherwise [str] is erased and
    filled up to the delimiter or the end of the input; reaching the end
    sets [eofbit], and [failbit] too when nothing was extracted. *)
Definition getline (strm : istream) (str : string) (delim : ascii) : istream * string :=
  if eofbit strm || failbit strm then (mk_istream (buf strm) (eofbit strm) true, str)
  else
    match split_at delim (buf strm) with
    | Some (line, rest) => (mk_istream rest false false, line)
    | None => (mk_istream "" true (String.eqb (buf strm) ""), buf strm)
    end.

(** ** User record *)

Record User := mk_User {
  username : string;
  pin : string;
  balance : spec_float;
  wrongAttempts : Z;
  locked : bool
}.

Definition set_pin (u : User) (p : string) : User :=
  mk_User (username u) p (balance u) (wrongAttempts u) (locked u).
Definition set_wrongAttempts (u : User) (n : Z) : User :=
  mk_User (username u) (pin u) (balance u) n (locked u).
Definition set_locked (u : User) (b : bool) : User :=
  mk_User (username u) (pin u) (balance u) (wrongAttempts u) b.

(** The plain text line of [User::serialize], before obfuscation. *)
Definition record_line (u : User) : string :=
  username u ++ String "|" (pin u ++ String "|" (print_fixed2 (balance u) ++
  String "|" (print_int (wrongAttempts u) ++ String "|" (if locked u then "1" else "0")))).

(** [User::serialize]: [username|pin|balance|wrongAttempts|locked], obfuscated. *)
Definition serialize (u : User) : string := obfuscate (record_line u).

(** [User::deserialize].  [token] is one variable reused by the last three
    [getline] calls, so a call on a stream that is no longer good leaves
    the previous field in it. *)
Definition deserialize (obf : string) : outcome User :=
  let s := deobfuscate obf in
  let ss := open_stream s in
  let token := "" in
  let '(ss, u_username) := getline ss "" "|" in
  let '(ss, u_pin) := getline ss "" "|" in
  let '(ss, token) := getline ss token "|" in
  bind_outcome (stod token) (fun u_balance =>
  let '(ss, token) := getline ss token "|" in
  bind_outcome (stoi token) (fun u_wrongAttempts =>
  let '(ss, token) := getline ss token "|" in
  Returned (mk_User u_username u_pin u_balance u_wrongAttempts (String.eqb token "1")))).

(** ** The program state

    [UserDB::users], the contents of the file [atm_users.db] ([None] when
    it does not exist), the tokens waiting on [cin] and what was written to
    [cout].  Opening the file for writing is taken to succeed. *)

Record World := mk_World {
  users : gmap string User;
  disk : option string;
  cin : list string;
  cout : list string
}.

Definition ST (A : Type) : Type := World -> A * World.

Definition ret {A} (a : A) : ST A := fun w => (a, w).
Definition bind {A B} (m : ST A) (k : A -> ST B) : ST B :=
  fun w => let '(a, w') := m w in k a w'.

Notation "x <~ m ;; k" := (bind m (fun x => k))
  (at level 200, m at level 99, k at level 200, right associativity).
Notation "m ;;; k" := (bind m (fun _ => k))
  (at level 200, k at level 200, right associativity).

Definition nl : string := String "010" "".

(** [cout << s]. *)
Definition print (s : string) : ST unit :=
  fun w => (tt, mk_World (users w) (disk w) (cin w) (cout w ++ [s])).

(** [cin >> str]: the next token, or the empty string when there is none. *)
Definition read_token : ST string :=
  fun w =>
    match cin w with
    | [] => ("", w)
    | t :: rest => (t, mk_World (users w) (disk w) rest (cout w))
    end.

(** ** UserDB *)

(** The [while (getline(ifs, line))] loop of [UserDB::load], cut after
    [fuel] iterations. *)
Fixpoint load_loop (fuel : nat) (ifs : istream) (line : string)
    (m : gmap string User) : gmap string User :=
  match fuel with
  | O => m
  | S fuel' =>
      let '(ifs', line') := getline ifs line "010" in
      if failbit ifs' then m
      else if String.eqb line' "" then load_loop fuel' ifs' line' m
      else
        match deserialize line' with
        | Returned u => load_loop fuel' ifs' line' (<[username u := u]> m)
        | Thrown _ => load_loop fuel' ifs' line' m
        end
  end.

(** The users read from a file with the given contents: every [getline]
    that succeeds consumes a character or reaches the end of the file, so
    the loop stops within [length bytes + 2] iterations. *)
Definition load_file (bytes : string) : gmap string User :=
  load_loop (S (S (String.length bytes))) (open_stream bytes) "" ∅.

Definition load : ST unit :=
  fun w =>
    match disk w with
    | None => (tt, mk_World ∅ (disk w) (cin w) (cout w))
    | Some bytes => (tt, mk_World (load_file bytes) (disk w) (cin w) (cout w))
    end.

(** What [save] writes: one serialized record and a newline per user.  The
    iteration order of the [unordered_map] is unspecified; the model takes
    the order of [map_to_list]. *)
Definition file_image (m : gmap string User) : string :=
  foldr (fun p acc => serialize (snd p) ++ nl ++ acc) "" (map_to_list m).

Definition save : ST unit :=
  fun w => (tt, mk_World (users w) (Some (file_image (users w))) (cin w) (cout w)).

Definition exists_ (name : string) : ST bool :=
  fun w => (bool_decide (is_Some (users w !! name)), w).

(** [users[u.username] = u]. *)
Definition store (u : User) : ST unit :=
  fun w => (tt, mk_World (<[username u := u]> (users w)) (disk w) (cin w) (cout w)).

Definition addUser (u : User) : ST bool :=
  found <~ exists_ (username u) ;;
  if found then ret false
  else store u ;;; save ;;; ret true.

Definition updateUser (u : User) : ST bool :=
  found <~ exists_ (username u) ;;
  if negb found then ret false
  else store u ;;; save ;;; ret true.

Definition getUser (name : string) : ST (option User) :=
  fun w => (users w !! name, w).

(** ** Application logic *)

Definition MSG_LOCKED : string :=
  "Account is locked due to too many wrong attempts." ++ nl.
Definition MSG_CHANGED : string := "PIN changed successfully." ++ nl.

(** [authenticate(db, user)]: the result and the new value of [user]. *)
Definition authenticate (user : User) : ST (bool * User) :=
  if locked user then
    print MSG_LOCKED ;;;
    ret (false, user)
  else
    print "Enter PIN for " ;;; print (username user) ;;; print ": " ;;;
    entered <~ read_token ;;
    if String.eqb entered (pin user) then
      let user := set_wrongAttempts user 0 in
      updateUser user ;;;
      print ("Authentication successful." ++ nl) ;;;
      ret (true, user)
    else
      let user := set_wrongAttempts user (Int.wrap_int (wrongAttempts user + 1)) in
      print "Wrong PIN. Attempts: " ;;; print (print_int (wrongAttempts user)) ;;;
      print "/" ;;; print (print_int MAX_WRONG_ATTEMPTS) ;;; print nl ;;;
      user <~ (if wrongAttempts user >=? MAX_WRONG_ATTEMPTS then
                 print ("Account locked due to too many wrong attempts." ++ nl) ;;;
                 ret (set_locked user true)
               else ret user) ;;
      updateUser user ;;;
      ret (false, user).

(** [changePin(db, user)]: the new value of [user]. *)
Definition changePin (user : User) : ST User :=
  print (nl ++ "--- Change PIN ---" ++ nl) ;;;
  r <~ authenticate user ;;
  let '(ok, user) := r in
  if negb ok then ret user
  else
    let length := Int.wrap_int (string_size (pin user)) in
    print "Enter new PIN (length " ;;; print (print_int length) ;;; print "): " ;;;
    newPin <~ read_token ;;
    if negb (Int.wrap_int (string_size newPin) =? length) then
      print ("Invalid length." ++ nl) ;;; ret user
    else if isSequential newPin || hasTooManyRepeats newPin then
      print ("New PIN is weak; choose a less trivial PIN." ++ nl) ;;; ret user
    else
      let user := set_wrongAttempts (set_pin user newPin) 0 in
      updateUser user ;;;
      print MSG_CHANGED ;;;
      ret user.

(** ** Vocabulary of the statements

    The properties the pattern detector is specified by, written over the
    positions of the string as the specification states them. *)

(** Every adjacent pair of [pin] steps by exactly [d]. *)
Definition steps_everywhere (d : Z) (pin : string) : Prop :=
  forall (i : nat) (a b : ascii),
    String.get i pin = Some a ->
    String.get (S i) pin = Some b ->
    Char.digit_val b = Char.digit_val a + d.

Definition ascending (pin : string) : Prop := steps_everywhere 1 pin.
Definition descending (pin : string) : Prop := steps_everywhere (-1) pin.

(** Some three consecutive positions of [pin] hold the same character. *)
Definition has_run3 (pin : string) : Prop :=
  exists (i : nat) (c : ascii),
    String.get i pin = Some c /\
    String.get (S i) pin = Some c /\
    String.get (S (S i)) pin = Some c.

(** All characters of [pin] are the same. *)
Definition all_identical (pin : string) : Prop :=
  forall (i j : nat) (a b : ascii),
    String.get i pin = Some a -> String.get j pin = Some b -> a = b.

(** The digit string [first, first + step, first + 2 step, ...] of [n] digits. *)
Fixpoint arith_run (first step : Z) (n : nat) : string :=
  match n with
  | O => ""
  | S n' => String (digit_char first) (arith_run (first + step) step n')
  end.

(** Boolean companions used in the proofs. *)
Fixpoint steps_by (d : Z) (prev : ascii) (rest : string) : bool :=
  match rest with
  | "" => true
  | String c r => (Char.digit_val c =? Char.digit_val prev + d) && steps_by d c r
  end.

Definition head_is (a : ascii) (s : string) : bool :=
  match s with
  | String c _ => Ascii.eqb c a
  | "" => false
  end.

Fixpoint run3b (s : string) : bool :=
  match s with
  | "" => false
  | String a t =>
      match t with
      | String b (String c _) => Ascii.eqb b a && Ascii.eqb c b
      | _ => false
      end || run3b t
  end.

(** The token the next [cin >> str] reads. *)
Definition next_token (w : World) : string :=
  match cin w with
  | [] => ""
  | t :: _ => t
  end.

(** The [User] after the wrong-PIN branch of [authenticate]. *)
Definition failed_attempt (u : User) : User :=
  let u1 := set_wrongAttempts u (Int.wrap_int (wrongAttempts u + 1)) in
  if wrongAttempts u1 >=? MAX_WRONG_ATTEMPTS then set_locked u1 true else u1.

(** The map and the file after [updateUser(u)]. *)
Definition updated (u : User) (m : gmap string User) (d : option string)
  : gmap string User * option string :=
  match m !! username u with
  | Some _ => (<[username u := u]> m, Some (file_image (<[username u := u]> m)))
  | None => (m, d)
  end.

(** What [authenticate] prints on its wrong-PIN and correct-PIN paths. *)
Definition wrong_pin_output (u : User) : list string :=
  ["Enter PIN for "; username u; ": "; "Wrong PIN. Attempts: ";
   print_int (Int.wrap_int (wrongAttempts u + 1)); "/";
   print_int MAX_WRONG_ATTEMPTS; nl] ++
  (if Int.wrap_int (wrongAttempts u + 1) >=? MAX_WRONG_ATTEMPTS
   then ["Account locked due to too many wrong attempts." ++ nl] else []).

Definition correct_pin_output (u : User) : list string :=
  ["Enter PIN for "; username u; ": "; "Authentication successful." ++ nl].

(** The token read by the second [cin >> str] from now. *)
Definition second_token (w : World) : string :=
  match cin w with
  | _ :: t :: _ => t
  | _ => ""
  end.

(** [changePin] reported success: the last thing printed is its final message. *)
Definition pin_change_reported (w : World) : Prop :=
  last (cout w) = Some MSG_CHANGED.

(** ** Vocabulary of the record codec statements *)

(** Does [c] occur in [s]? *)
Fixpoint has_char (c : ascii) (s : string) : bool :=
  match s with
  | "" => false
  | String a r => Ascii.eqb a c || has_char c r
  end.

(** [x >= 0] on doubles (false on NaN). *)
Definition nonnegative (x : spec_float) : bool :=
  match x with
  | S754_zero _ => true
  | S754_infinity neg => negb neg
  | S754_finite neg _ _ => negb neg
  | S754_nan => false
  end.

(** A valid Account in the sense of the data model: non-empty username
    without the delimiter, digit-string PIN, non-negative balance (a
    [double], that is a binary64 value) and non-negative attempt counter
    (an [int]). *)
Definition valid_account (u : User) : Prop :=
  username u <> "" /\
  has_char "|" (username u) = false /\
  all_digits (pin u) = true /\
  SpecFloat.valid_binary prec emax (balance u) = true /\
  nonnegative (balance u) = true /\
  0 <= wrongAttempts u <= Int.MAX.

Definition set_balance (u : User) (b : spec_float) : User :=
  mk_User (username u) (pin u) b (wrongAttempts u) (locked u).

(** A file made of the given lines, each ended by a newline, as [save]
    writes them. *)
Definition join_lines (lines : list string) : string :=
  foldr (fun l acc => l ++ nl ++ acc) "" lines.

(** What one iteration of the loop of [load] does with one line. *)
Definition load_step (m : gmap string User) (line : string) : gmap string User :=
  if String.eqb line "" then m
  else
    match deserialize line with
    | Returned u => <[username u := u]> m
    | Thrown _ => m
    end.

(** [users[u.username] = u] on the map alone. *)
Definition put_user (m : gmap string User) (u : User) : gmap string User :=
  <[username u := u]> m.

(** The store holds exactly the given accounts. *)
Definition holds_exactly (m : gmap string User) (accounts : list User) : Prop :=
  (forall u : User, In u accounts -> m !! username u = Some u) /\
  (forall (name : string) (u : User), m !! name = Some u -> In u accounts) /\
  size m = List.length accounts.

(** ** Sample data for the worked examples *)

(** The double 1000.00, the starting balance [createAccount] gives. *)
Definition balance_1000 : spec_float := S754_finite false 8796093022208000 (-43).

Definition bob : User := mk_User "bob" "4927" balance_1000 0 false.

(** A store holding [bob] only, no file yet, and the given tokens on [cin]. *)
Definition bob_world (tokens : list string) : World :=
  mk_World {[ "bob" := bob ]} None tokens [].

(** A scripted random source for the examples: the draws are read off a
    list (reduced to a digit), 0 once it is used up. *)
Definition scripted_digits (l : list Z) : Z * list Z :=
  match l with
  | [] => (0, [])
  | d :: r => (d mod 10, r)
  end.

(** The double nearest to [n / 100]: a balance of [n] cents. *)
Definition cents_to_double (n : Z) : spec_float :=
  if n =? 0 then S754_zero false else fst (round_binary64 false n 100).

(** The double 999.875, the balance after withdrawing 0.125 from 1000.00. *)
Definition balance_999_875 : spec_float := S754_finite false 8794993510580224 (-43).

(** The double nearest to 999.88. *)
Definition balance_999_88 : spec_float := S754_finite false 8795037491045335 (-43).

(** The double 10.00. *)
Definition balance_10 : spec_float := S754_finite false 5629499534213120 (-49).

Definition carol : User := mk_User "carol" "5839" balance_1000 2 false.
Definition dave : User := mk_User "dave" "7306" balance_10 3 true.
Definition frank : User := mk_User "frank" "9473" balance_1000 0 false.

Definition alice : User := mk_User "alice" "4927" balance_1000 0 false.

(** A record whose balance field is not a number. *)
Definition bad_line : string := obfuscate "mallory|1357|lots|0|0".

(** Number of ['|']-separated fields of a line. *)
Fixpoint count_fields (s : string) : nat :=
  match s with
  | "" => 1
  | String c r => if Ascii.eqb c "|" then S (count_fields r) else count_fields r
  end.

(** ** Account creation, login and the admin listing

    The callers of the store and of [authenticate].  [main] and
    [atmSession] read numbers with [cin >> int] and [cin >> double], which
    leave [cin] failed and the variable unset on bad input; they are not
    part of the embedding. *)

Definition tab : string := String "009" "".

Section AccountCreation.

Variable Rng : Type.
Variable digitDist : Rng -> Z * Rng.

(** [createAccount(db)], with the loop of [generatePin] cut after [fuel]
    candidates: [None] when no PIN was generated within them, else the new
    state of the random engine and of the program. *)
Definition createAccount (fuel : nat) (rng : Rng) (w : World) : option (Rng * World) :=
  let '(username, w) :=
    (print (nl ++ "--- Create Account ---" ++ nl ++ "Username (no spaces): ") ;;;
     read_token) w in
  let '(found, w) := exists_ username w in
  if found then
    Some (rng, snd (print ("User already exists." ++ nl) w))
  else
    let length := DEFAULT_PIN_LENGTH in
    let '(choice, w) :=
      (print "Choose PIN length (4 or 6) [default 4]: " ;;; read_token) w in
    let length := if String.eqb choice "6" then 6 else length in
    match generatePin Rng digitDist fuel length rng with
    | None => None
    | Some (pin, rng') =>
        let u := mk_User username pin balance_1000 0 false in
        let '(added, w) :=
          (print "Generated PIN for user '" ;;; print username ;;; print "': " ;;;
           print pin ;;; print nl ;;;
           print ("(This would be printed on receipt in a real system; store it securely.)"
                  ++ nl) ;;;
           addUser u) w in
        Some (rng',
              snd (print (if negb added then "Failed to add user." ++ nl
                          else "Account created and saved." ++ nl) w))
    end.

End AccountCreation.

Section Login.

(** [atmSession(db, user)], the menu loop entered after a successful login. *)
Variable atmSession : User -> ST unit.

(** [loginAndRun(db)]. *)
Definition loginAndRun : ST unit :=
  print (nl ++ "--- Login ---" ++ nl ++ "Username: ") ;;;
  username <~ read_token ;;
  opt <~ getUser username ;;
  match opt with
  | None => print ("No such user." ++ nl)
  | Some user =>
      if locked user then print ("Account locked. Contact admin." ++ nl)
      else
        r <~ authenticate user ;;
        let '(ok, user) := r in
        if ok then
          refreshed <~ getUser username ;;
          let user := match refreshed with Some u => u | None => user end in
          atmSession user
        else ret tt
  end.

End Login.

(** One row of the admin listing. *)
Definition user_row (u : User) : list string :=
  [username u; tab ++ "Rs "; print_fixed2 (balance u); tab;
   if locked u then "Yes" else "No"; nl].

(** The [while (getline(ifs, line))] loop of [adminListUsers], cut after
    [fuel] iterations; [out] is what [cout] holds. *)
Fixpoint admin_loop (fuel : nat) (ifs : istream) (line : string)
    (out : list string) : list string :=
  match fuel with
  | O => out
  | S fuel' =>
      let '(ifs', line') := getline ifs line "010" in
      if failbit ifs' then out
      else if String.eqb line' "" then admin_loop fuel' ifs' line' out
      else
        match deserialize line' with
        | Returned u => admin_loop fuel' ifs' line' (out ++ user_row u)
        | Thrown _ => admin_loop fuel' ifs' line' out
        end
  end.

(** [adminListUsers(db)]: it reads the file again, not the map. *)
Definition adminListUsers : ST unit :=
  print (nl ++ "--- Users (admin view; obfuscated on disk) ---" ++ nl) ;;;
  print ("Username" ++ tab ++ "Balance" ++ tab ++ "Locked" ++ nl) ;;;
  fun w =>
    match disk w with
    | None => print ("(no DB file)" ++ nl) w
    | Some bytes =>
        (tt, mk_World (users w) (disk w) (cin w)
               (admin_loop (S (S (String.length bytes))) (open_stream bytes) "" (cout w)))
    end.

(** ** Vocabulary of the store statements *)

(** Every record sits under its own username. *)
Definition keyed_by_username (m : gmap string User) : Prop :=
  forall (k : string) (u : User), m !! k = Some u -> username u = k.

(** A record that [save] and [load] carry over unchanged: text fields
    without the delimiter, a balance that its two-decimal rendering gives
    back, and no newline byte in the obfuscated line. *)
Definition storable (u : User) : Prop :=
  has_char "|" (username u) = false /\
  has_char "|" (pin u) = false /\
  Int.in_range (wrongAttempts u) /\
  stod (print_fixed2 (balance u)) = Returned (balance u) /\
  has_char "010" (serialize u) = false.

(** The records of the lines that deserialize, in the order of the lines. *)
Definition decoded_users (lines : list string) : list User :=
  flat_map (fun l => match deserialize l with Returned u => [u] | Thrown _ => [] end) lines.

(** The header of the admin listing. *)
Definition admin_header : list string :=
  [nl ++ "--- Users (admin view; obfuscated on disk) ---" ++ nl;
   "Username" ++ tab ++ "Balance" ++ tab ++ "Locked" ++ nl].

(** What [loginAndRun] prints first. *)
Definition login_prompt : string := nl ++ "--- Login ---" ++ nl ++ "Username: ".

(** What [createAccount] prints up to the outcome of [addUser]. *)
Definition create_output (name choice_prompt pin : string) : list string :=
  [nl ++ "--- Create Account ---" ++ nl ++ "Username (no spaces): "; choice_prompt;
   "Generated PIN for user '"; name; "': "; pin; nl;
   "(This would be printed on receipt in a real system; store it securely.)" ++ nl].

(** * Properties *)

Example isSequential_1234 : isSequential "1234" = true.
Proof. reflexivity. Qed.
Example isSequential_9876 : isSequential "9876" = true.
Proof. reflexivity. Qed.
Example isSequential_1357 : isSequential "1357" = false.
Proof. reflexivity. Qed.
Example hasTooManyRepeats_1112 : hasTooManyRepeats "1112" = true.
Proof. reflexivity. Qed.
Example hasTooManyRepeats_1122 : hasTooManyRepeats "1122" = false.
Proof. reflexivity. Qed.
Example hasTooManyRepeats_77 : hasTooManyRepeats "77" = true.
Proof. reflexivity. Qed.

(** ** Obfuscation codec *)

Lemma xor_involutive (c k : ascii) : Char.xor (Char.xor c k) k = c.
Proof.
  destruct c, k; simpl.
  repeat (rewrite xorb_assoc, xorb_nilpotent, xorb_false_r). reflexivity.
Qed.

Lemma obfuscate_from_involutive (s : string) :
  forall i, obfuscate_from i (obfuscate_from i s) = s.
Proof.
  induction s as [|c r IH]; intros i; simpl.
  - reflexivity.
  - rewrite xor_involutive, IH. reflexivity.
Qed.

Lemma obfuscate_from_length (s : string) :
  forall i, String.length (obfuscate_from i s) = String.length s.
Proof.
  induction s as [|c r IH]; intros i; simpl; [reflexivity | now rewrite IH].
Qed.

Lemma obfuscate_from_get (s : string) :
  forall i j c,
    String.get j s = Some c ->
    String.get j (obfuscate_from i s) = Some (Char.xor c (key_at (i + j))).
Proof.
  induction s as [|a r IH]; intros i j c H; simpl in *.
  - discriminate.
  - destruct j as [|j].
    + injection H as <-. now rewrite Nat.add_0_r.
    + rewrite (IH (S i) j c H). now rewrite Nat.add_succ_r.
Qed.

Lemma key_at_in_key (i : nat) :
  String.get (i mod String.length key)%nat key = Some (key_at i).
Proof.
  unfold key_at.
  assert (Hlt : (i mod String.length key < 13)%nat)
    by (apply Nat.mod_upper_bound; discriminate).
  destruct (i mod String.length key)%nat as [|r]; [reflexivity|].
  do 12 (destruct r as [|r]; [reflexivity|]). lia.
Qed.

(** C6.  The codec is its own inverse on every byte string, the empty one
    included; it keeps the length, and byte [i] of the output is byte [i]
    of the input XOR [key[i mod key.size()]]. *)
Theorem obfuscate_self_inverse :
  forall x : string,
    deobfuscate (obfuscate x) = x /\
    String.length (obfuscate x) = String.length x /\
    forall (i : nat) (c : ascii),
      String.get i x = Some c ->
      exists k : ascii,
        String.get (i mod String.length key)%nat key = Some k /\
        String.get i (obfuscate x) = Some (Char.xor c k).
Proof.
  intros x. unfold deobfuscate, obfuscate. split; [|split].
  - apply obfuscate_from_involutive.
  - apply obfuscate_from_length.
  - intros i c H. exists (key_at i). split.
    + apply key_at_in_key.
    + now rewrite (obfuscate_from_get x 0 i c H).
Qed.

Example obfuscate_empty : deobfuscate (obfuscate "") = "".
Proof. reflexivity. Qed.

(** ** Pattern detector: [isSequential] *)

Lemma isSequential_loop_spec (rest : string) :
  forall prev asc desc,
    isSequential_loop prev rest asc desc =
    (asc && steps_by 1 prev rest, desc && steps_by (-1) prev rest).
Proof.
  induction rest as [|c r IH]; intros prev asc desc; simpl.
  - now rewrite !andb_true_r.
  - rewrite IH. change (Char.digit_val prev + -1) with (Char.digit_val prev - 1).
    destruct (Char.digit_val c =? Char.digit_val prev + 1);
      destruct (Char.digit_val c =? Char.digit_val prev - 1);
      simpl; rewrite ?andb_false_r; reflexivity.
Qed.

Lemma steps_by_everywhere (d : Z) (rest : string) :
  forall prev, steps_by d prev rest = true <-> steps_everywhere d (String prev rest).
Proof.
  induction rest as [|c r IH]; intros prev; simpl.
  - split; [|reflexivity]. intros _ i a b Ha Hb.
    destruct i; simpl in Hb; discriminate.
  - rewrite andb_true_iff, Z.eqb_eq, IH. split.
    + intros [H0 Hr] i a b Ha Hb. destruct i as [|i].
      * simpl in Ha, Hb. injection Ha as <-. injection Hb as <-. exact H0.
      * exact (Hr i a b Ha Hb).
    + intros H. split.
      * exact (H 0%nat prev c eq_refl eq_refl).
      * intros i a b Ha Hb. exact (H (S i) a b Ha Hb).
Qed.

Lemma steps_everywhere_empty (d : Z) : steps_everywhere d "".
Proof. intros i a b Ha _. destruct i; discriminate. Qed.

Lemma isSequential_iff (pin : string) :
  isSequential pin = true <-> ascending pin \/ descending pin.
Proof.
  destruct pin as [|c0 rest]; simpl.
  - split; [|reflexivity]. intros _. left. apply steps_everywhere_empty.
  - rewrite isSequential_loop_spec. simpl.
    rewrite orb_true_iff, !steps_by_everywhere. reflexivity.
Qed.

Lemma digit_val_digit_char (d : Z) :
  0 <= d <= 9 -> Char.digit_val (digit_char d) = d.
Proof.
  intros H.
  assert (E : d = 0 \/ d = 1 \/ d = 2 \/ d = 3 \/ d = 4 \/
              d = 5 \/ d = 6 \/ d = 7 \/ d = 8 \/ d = 9) by lia.
  repeat (destruct E as [-> | E]; [reflexivity|]). now subst.
Qed.

Lemma is_digit_digit_char (d : Z) :
  0 <= d <= 9 -> Char.is_digit (digit_char d) = true.
Proof.
  intros H.
  assert (E : d = 0 \/ d = 1 \/ d = 2 \/ d = 3 \/ d = 4 \/
              d = 5 \/ d = 6 \/ d = 7 \/ d = 8 \/ d = 9) by lia.
  repeat (destruct E as [-> | E]; [reflexivity|]). now subst.
Qed.

Lemma arith_run_steps (step : Z) (n : nat) :
  step = 1 \/ step = -1 ->
  forall first,
    0 <= first <= 9 -> 0 <= first + step * Z.of_nat n <= 9 ->
    steps_by step (digit_char first) (arith_run (first + step) step n) = true.
Proof.
  intros Hstep. induction n as [|n IH]; intros first H0 Hn; simpl.
  - reflexivity.
  - assert (H1 : 0 <= first + step <= 9) by lia.
    rewrite !digit_val_digit_char by assumption.
    rewrite Z.eqb_refl. simpl. apply IH; [assumption | lia].
Qed.

Lemma isSequential_arith_run (step first : Z) (n : nat) :
  step = 1 \/ step = -1 ->
  0 <= first <= 9 -> 0 <= first + step * (Z.of_nat n - 1) <= 9 ->
  isSequential (arith_run first step n) = true.
Proof.
  intros Hstep H0 Hn. destruct n as [|n]; [reflexivity|].
  simpl. rewrite isSequential_loop_spec. simpl.
  rewrite orb_true_iff.
  destruct Hstep as [-> | ->]; [left | right];
    apply arith_run_steps; auto; lia.
Qed.

Lemma isSequential_two (a b : ascii) :
  isSequential (String a (String b "")) = true <->
  Char.digit_val b = Char.digit_val a + 1 \/
  Char.digit_val b = Char.digit_val a - 1.
Proof.
  simpl.
  destruct (Z.eqb_spec (Char.digit_val b) (Char.digit_val a + 1));
    destruct (Z.eqb_spec (Char.digit_val b) (Char.digit_val a - 1));
    simpl; split; auto; intros H; try discriminate; destruct H; contradiction.
Qed.

(** C8 (as amended).  [isSequential] returns true exactly when every
    adjacent pair ascends by 1 or every adjacent pair descends by 1; it
    returns true on every run of digits with common difference +1 or -1,
    whatever its length, and on every single character; on two characters
    it returns true exactly when they differ by 1. *)
Theorem isSequential_spec :
  (forall pin : string,
      isSequential pin = true <-> ascending pin \/ descending pin) /\
  (forall (first : Z) (n : nat),
      0 <= first -> first + Z.of_nat n - 1 <= 9 -> (1 <= n)%nat ->
      isSequential (arith_run first 1 n) = true) /\
  (forall (first : Z) (n : nat),
      first <= 9 -> 0 <= first - (Z.of_nat n - 1) -> (1 <= n)%nat ->
      isSequential (arith_run first (-1) n) = true) /\
  (forall c : ascii, isSequential (String c "") = true) /\
  (forall a b : ascii,
      isSequential (String a (String b "")) = true <->
      Char.digit_val b = Char.digit_val a + 1 \/
      Char.digit_val b = Char.digit_val a - 1).
Proof.
  split; [exact isSequential_iff|].
  split; [|split; [|split]].
  - intros first n H0 Hn H1. apply isSequential_arith_run; [auto | lia | lia].
  - intros first n H0 Hn H1. apply isSequential_arith_run; [auto | lia | lia].
  - reflexivity.
  - exact isSequential_two.
Qed.

(** C8, the claim as stated fails: ["13"] is a two-character digit string
    on which neither direction holds, and [isSequential] returns false. *)
Lemma isSequential_two_chars_not_trivial :
  all_digits "13" = true /\ String.length "13" = 2%nat /\
  isSequential "13" = false /\
  ~ (ascending "13" \/ descending "13").
Proof.
  split; [reflexivity|]. split; [reflexivity|]. split; [reflexivity|].
  rewrite <- isSequential_iff. discriminate.
Qed.

(** The runs and short inputs of C8 at concrete inputs. *)
Lemma isSequential_spec_witness :
  isSequential "3456" = true /\ isSequential "765" = true /\
  (isSequential "12" = true <->
   Char.digit_val "2" = Char.digit_val "1" + 1 \/
   Char.digit_val "2" = Char.digit_val "1" - 1).
Proof.
  destruct isSequential_spec as (_ & Hup & Hdown & _ & Htwo).
  split; [|split].
  - apply (Hup 3 4%nat); lia.
  - apply (Hdown 7 3%nat); lia.
  - apply (Htwo "1"%char "2"%char).
Defined.

(** ** Pattern detector: [hasTooManyRepeats] *)

Lemma repeats_loop_spec (rest : string) :
  forall prev,
    repeats_loop prev rest 1 = run3b (String prev rest) /\
    repeats_loop prev rest 2 = head_is prev rest || run3b (String prev rest).
Proof.
  induction rest as [|c r IH]; intros prev.
  - split; reflexivity.
  - destruct (IH c) as [IH1 IH2]. split.
    + cbn [repeats_loop]. destruct (Ascii.eqb c prev) eqn:E.
      * change (1 + 1 >=? 3) with false. cbv iota. change (1 + 1) with 2.
        rewrite IH2. cbn [run3b head_is]. rewrite E.
        destruct r as [|c' r']; reflexivity.
      * rewrite IH1. cbn [run3b]. rewrite E. destruct r as [|c' r']; reflexivity.
    + cbn [repeats_loop]. destruct (Ascii.eqb c prev) eqn:E.
      * cbn [head_is]. rewrite E. reflexivity.
      * rewrite IH1. cbn [run3b head_is]. rewrite E.
        destruct r as [|c' r']; reflexivity.
Qed.

Lemma has_run3_cons (a : ascii) (t : string) :
  has_run3 (String a t) <->
  (exists r, t = String a (String a r)) \/ has_run3 t.
Proof.
  split.
  - intros (i & c & H0 & H1 & H2). destruct i as [|i].
    + left. simpl in H0, H1, H2. injection H0 as <-.
      destruct t as [|b t]; [discriminate|]. simpl in H1, H2.
      injection H1 as ->.
      destruct t as [|b' t]; [discriminate|]. simpl in H2.
      injection H2 as ->. eauto.
    + right. exists i, c. simpl in H0, H1, H2. auto.
  - intros [[r ->] | (i & c & H0 & H1 & H2)].
    + exists 0%nat, a. simpl. auto.
    + exists (S i), c. simpl. auto.
Qed.

Lemma run3b_has_run3 (s : string) : run3b s = true <-> has_run3 s.
Proof.
  induction s as [|a t IH].
  - split; [discriminate|]. intros (i & c & H & _). destruct i; discriminate.
  - rewrite has_run3_cons, <- IH. cbn [run3b]. rewrite orb_true_iff.
    apply or_iff_compat_r. split.
    + destruct t as [|b [|c r]]; try discriminate.
      rewrite andb_true_iff, !Ascii.eqb_eq. intros [-> ->]. eauto.
    + intros [r ->]. now rewrite !Ascii.eqb_refl.
Qed.

Lemma allSame_loop_spec (first : ascii) (s : string) :
  allSame_loop first s = true <->
  forall (i : nat) (a : ascii), String.get i s = Some a -> a = first.
Proof.
  induction s as [|c r IH]; simpl.
  - split; [|reflexivity]. intros _ i a H. destruct i; discriminate.
  - destruct (Ascii.eqb_spec c first) as [->|Hne]; simpl.
    + rewrite IH. split.
      * intros H i a Ha. destruct i as [|i]; [now injection Ha as <- | eauto].
      * intros H i a Ha. exact (H (S i) a Ha).
    + split; [discriminate|]. intros H. destruct Hne. exact (H 0%nat c eq_refl).
Qed.

Lemma all_identical_first (c0 : ascii) (rest : string) :
  all_identical (String c0 rest) <->
  forall (i : nat) (a : ascii), String.get i (String c0 rest) = Some a -> a = c0.
Proof.
  split.
  - intros H i a Ha. exact (H i 0%nat a c0 Ha eq_refl).
  - intros H i j a b Ha Hb. rewrite (H i a Ha), (H j b Hb). reflexivity.
Qed.

Lemma hasTooManyRepeats_iff (pin : string) :
  hasTooManyRepeats pin = true <-> has_run3 pin \/ all_identical pin.
Proof.
  destruct pin as [|c0 rest].
  - split; [|reflexivity]. intros _. right. intros i j a b Ha. destruct i; discriminate.
  - unfold hasTooManyRepeats.
    destruct (repeats_loop_spec rest c0) as [-> _].
    rewrite <- run3b_has_run3, all_identical_first, <- allSame_loop_spec.
    destruct (run3b (String c0 rest)); [tauto|].
    split; [auto | intros [H|H]; [discriminate | exact H]].
Qed.

(** C9.  [hasTooManyRepeats] returns true exactly when the string holds
    three identical characters in a row or all its characters are the
    same; this covers every string, so every non-empty digit string. *)
Theorem hasTooManyRepeats_spec :
  forall pin : string,
    hasTooManyRepeats pin = true <-> has_run3 pin \/ all_identical pin.
Proof. exact hasTooManyRepeats_iff. Qed.

Example hasTooManyRepeats_pair : hasTooManyRepeats "55" = true.
Proof. reflexivity. Qed.

(** ** Authentication and lockout *)

Lemma triple_eta {A B C : Type} (p : A * B * C) :
  p = (fst (fst p), snd (fst p), snd p).
Proof. destruct p as [[a b] c]. reflexivity. Qed.

Lemma wrap_int_in_range (z : Z) : Int.in_range z -> Int.wrap_int z = z.
Proof.
  unfold Int.in_range, Int.MIN, Int.MAX, Int.wrap_int. intros H.
  rewrite Z.mod_small; lia.
Qed.

Lemma updateUser_spec (u : User) (w : World) :
  updateUser u w =
  (bool_decide (is_Some (users w !! username u)),
   mk_World (fst (updated u (users w) (disk w))) (snd (updated u (users w) (disk w)))
            (cin w) (cout w)).
Proof.
  unfold updateUser, updated, bind, exists_, store, save, ret. simpl.
  destruct (users w !! username u) as [u0|] eqn:E.
  - rewrite bool_decide_eq_true_2 by eauto. reflexivity.
  - rewrite bool_decide_eq_false_2 by (intros [x Hx]; discriminate).
    simpl. now destruct w.
Qed.

Lemma bind_print {A : Type} (s : string) (k : unit -> ST A) m d c o :
  bind (print s) k (mk_World m d c o) = k tt (mk_World m d c (o ++ [s])).
Proof. reflexivity. Qed.

Lemma bind_ret {A B : Type} (a : A) (k : A -> ST B) (w : World) :
  bind (ret a) k w = k a w.
Proof. reflexivity. Qed.

Lemma bind_read_token {A : Type} (k : string -> ST A) m d c o :
  bind read_token k (mk_World m d c o) =
  k (next_token (mk_World m d c o)) (mk_World m d (tl c) o).
Proof. unfold bind, read_token, next_token. destruct c as [|t r]; reflexivity. Qed.

Lemma bind_updateUser {A : Type} (u : User) (k : bool -> ST A) m d c o :
  bind (updateUser u) k (mk_World m d c o) =
  k (bool_decide (is_Some (m !! username u)))
    (mk_World (fst (updated u m d)) (snd (updated u m d)) c o).
Proof. unfold bind at 1. now rewrite updateUser_spec. Qed.

Lemma bind_bind {A B C : Type} (m : ST A) (f : A -> ST B) (k : B -> ST C) (w : World) :
  bind (bind m f) k w = bind m (fun a => bind (f a) k) w.
Proof. unfold bind. destruct (m w) as [a w']. reflexivity. Qed.

Ltac run_io :=
  repeat first
    [ rewrite bind_bind | rewrite bind_print | rewrite bind_read_token
    | rewrite bind_updateUser | rewrite bind_ret ].

Lemma authenticate_locked (user : User) (w : World) :
  locked user = true ->
  authenticate user w =
  (false, user, mk_World (users w) (disk w) (cin w) (cout w ++ [MSG_LOCKED])).
Proof. intros H. unfold authenticate. rewrite H. reflexivity. Qed.

Lemma authenticate_correct (user : User) (w : World) :
  locked user = false -> next_token w = pin user ->
  authenticate user w =
  (true, set_wrongAttempts user 0,
   mk_World (fst (updated (set_wrongAttempts user 0) (users w) (disk w)))
            (snd (updated (set_wrongAttempts user 0) (users w) (disk w)))
            (tl (cin w)) (cout w ++ correct_pin_output user)).
Proof.
  intros Hl Ht. destruct w as [m d c o]. unfold authenticate. rewrite Hl.
  rewrite !bind_print, bind_read_token.
  change (next_token _) with (next_token (mk_World m d c o)).
  rewrite Ht, String.eqb_refl.
  cbv zeta. run_io. unfold ret, correct_pin_output. cbn [users disk cin cout].
  now rewrite <- !app_assoc.
Qed.

Lemma authenticate_wrong (user : User) (w : World) :
  locked user = false -> next_token w <> pin user ->
  authenticate user w =
  (false, failed_attempt user,
   mk_World (fst (updated (failed_attempt user) (users w) (disk w)))
            (snd (updated (failed_attempt user) (users w) (disk w)))
            (tl (cin w)) (cout w ++ wrong_pin_output user)).
Proof.
  intros Hl Ht. destruct w as [m d c o]. unfold authenticate. rewrite Hl.
  rewrite !bind_print, bind_read_token.
  change (next_token _) with (next_token (mk_World m d c o)).
  apply String.eqb_neq in Ht. rewrite Ht.
  cbv zeta. unfold failed_attempt, wrong_pin_output. cbv zeta.
  cbn [wrongAttempts set_wrongAttempts].
  destruct (Int.wrap_int (wrongAttempts user + 1) >=? MAX_WRONG_ATTEMPTS);
    run_io; unfold ret; cbn [users disk cin cout];
    now rewrite <- !app_assoc.
Qed.

Lemma updated_other (u : User) (m : gmap string User) (d : option string) (name : string) :
  name <> username u -> fst (updated u m d) !! name = m !! name.
Proof.
  intros Hne. unfold updated. destruct (m !! username u); simpl; [|reflexivity].
  apply lookup_insert_ne. congruence.
Qed.

Lemma failed_attempt_fields (u : User) :
  username (failed_attempt u) = username u /\
  pin (failed_attempt u) = pin u /\
  balance (failed_attempt u) = balance u /\
  wrongAttempts (failed_attempt u) = Int.wrap_int (wrongAttempts u + 1) /\
  locked (failed_attempt u) =
    (Int.wrap_int (wrongAttempts u + 1) >=? MAX_WRONG_ATTEMPTS) || locked u.
Proof.
  unfold failed_attempt. cbn [wrongAttempts set_wrongAttempts].
  destruct (Int.wrap_int (wrongAttempts u + 1) >=? MAX_WRONG_ATTEMPTS); cbn; auto.
Qed.

Lemma failed_attempt_count (u : User) :
  0 <= wrongAttempts u < Int.MAX ->
  wrongAttempts (failed_attempt u) = wrongAttempts u + 1.
Proof.
  intros H. destruct (failed_attempt_fields u) as (_ & _ & _ & -> & _).
  apply wrap_int_in_range. unfold Int.in_range, Int.MIN, Int.MAX in *. lia.
Qed.

(** C10.  [authenticate] never changes [username], [pin] or [balance]; a
    successful call sets [wrongAttempts] to 0 and leaves [locked]; a failed
    call on an unlocked account adds 1 to [wrongAttempts] and sets [locked]
    exactly when the new count reaches [MAX_WRONG_ATTEMPTS]; the stored
    records of all other users are left as they were. *)
Theorem authenticate_frame :
  forall (user : User) (w : World) (ok : bool) (user' : User) (w' : World),
    authenticate user w = (ok, user', w') ->
    username user' = username user /\
    pin user' = pin user /\
    balance user' = balance user /\
    (ok = true -> wrongAttempts user' = 0 /\ locked user' = locked user) /\
    (ok = false -> locked user = false ->
       wrongAttempts user' = Int.wrap_int (wrongAttempts user + 1) /\
       (Int.in_range (wrongAttempts user) -> wrongAttempts user < Int.MAX ->
        wrongAttempts user' = wrongAttempts user + 1) /\
       locked user' = (wrongAttempts user' >=? MAX_WRONG_ATTEMPTS)) /\
    (forall name : string,
       name <> username user -> users w' !! name = users w !! name).
Proof.
  intros user w ok user' w' H.
  destruct (locked user) eqn:Hl.
  - rewrite (authenticate_locked user w Hl) in H.
    injection H as <- <- <-. cbn [users].
    do 3 (split; [reflexivity|]).
    split; [discriminate|]. split; [discriminate|]. reflexivity.
  - destruct (String.eqb_spec (next_token w) (pin user)) as [Ht|Ht].
    + rewrite (authenticate_correct user w Hl Ht) in H. injection H as <- <- <-. cbn [users].
      do 3 (split; [reflexivity|]).
      split; [intros _; split; [reflexivity | exact Hl]|].
      split; [discriminate|].
      intros name Hne. now apply updated_other.
    + rewrite (authenticate_wrong user w Hl Ht) in H. injection H as <- <- <-. cbn [users].
      destruct (failed_attempt_fields user) as (Hu & Hp & Hb & Hw & Hk).
      rewrite Hl, orb_false_r in Hk.
      do 3 (split; [assumption|]).
      split; [discriminate|]. split.
      * intros _ _. split; [exact Hw|]. split.
        -- intros Hr Hlt. rewrite Hw. apply wrap_int_in_range.
           unfold Int.in_range, Int.MIN, Int.MAX in *. lia.
        -- now rewrite Hk, Hw.
      * intros name Hne. apply updated_other. now rewrite Hu.
Qed.

(** C10 on a wrong PIN for [bob]: only the counter moves. *)
Lemma authenticate_frame_witness :
  let s1 := authenticate bob (bob_world ["0000"]) in
  fst (fst s1) = false /\
  username (snd (fst s1)) = "bob" /\ pin (snd (fst s1)) = "4927" /\
  balance (snd (fst s1)) = balance_1000 /\
  wrongAttempts (snd (fst s1)) = 1 /\ locked (snd (fst s1)) = false.
Proof.
  intros s1.
  assert (Hfail : fst (fst s1) = false) by (vm_compute; reflexivity).
  destruct (authenticate_frame bob (bob_world ["0000"]) _ _ _ (triple_eta s1))
    as (Hu & Hp & Hb & _ & Hf & _).
  destruct (Hf Hfail eq_refl) as (_ & Hw & Hk).
  specialize (Hw ltac:(unfold Int.in_range, Int.MIN, Int.MAX; simpl; lia) eq_refl).
  split; [exact Hfail|]. do 3 (split; [assumption|]).
  split; [exact Hw|]. rewrite Hk, Hw. reflexivity.
Defined.

Lemma failed_attempt_unlocked (u : User) :
  locked u = false -> 0 <= wrongAttempts u < Int.MAX ->
  pin (failed_attempt u) = pin u /\
  wrongAttempts (failed_attempt u) = wrongAttempts u + 1 /\
  locked (failed_attempt u) = (wrongAttempts u + 1 >=? MAX_WRONG_ATTEMPTS).
Proof.
  intros Hl Hr.
  destruct (failed_attempt_fields u) as (_ & Hp & _ & Hw & Hk).
  pose proof (failed_attempt_count u Hr) as Hc.
  rewrite Hw in Hc. rewrite Hl, orb_false_r, Hc in Hk. rewrite Hw, Hc. auto.
Qed.

Lemma failed_attempt_below_limit (u : User) :
  locked u = false -> Int.MIN <= wrongAttempts u < MAX_WRONG_ATTEMPTS - 1 ->
  pin (failed_attempt u) = pin u /\
  wrongAttempts (failed_attempt u) = wrongAttempts u + 1 /\
  locked (failed_attempt u) = false.
Proof.
  intros Hl Hr. unfold MAX_WRONG_ATTEMPTS in Hr.
  destruct (failed_attempt_fields u) as (_ & Hp & _ & Hw & Hk).
  rewrite wrap_int_in_range in Hw, Hk
    by (unfold Int.in_range, Int.MIN, Int.MAX in *; lia).
  split; [exact Hp|]. split; [exact Hw|].
  rewrite Hk, Hl, orb_false_r. unfold MAX_WRONG_ATTEMPTS.
  rewrite Z.geb_leb. apply Z.leb_gt. lia.
Qed.

(** Three wrong PINs in a row on an unlocked account whose counter is
    negative: the counter goes up by three and the account stays open. *)
Lemma three_failures_negative_counter
    (user : User) (w : World) (e1 e2 e3 : string) (rest : list string)
    (r1 r2 r3 : bool) (u1 u2 u3 : User) (w1 w2 w3 : World) :
  locked user = false ->
  Int.MIN <= wrongAttempts user < 0 ->
  cin w = e1 :: e2 :: e3 :: rest ->
  e1 <> pin user -> e2 <> pin user -> e3 <> pin user ->
  authenticate user w = (r1, u1, w1) ->
  authenticate u1 w1 = (r2, u2, w2) ->
  authenticate u2 w2 = (r3, u3, w3) ->
  r1 = false /\ r2 = false /\ r3 = false /\
  locked u3 = false /\
  wrongAttempts u3 = wrongAttempts user + 3.
Proof.
  intros Hl Hrange Hcin He1 He2 He3 H1 H2 H3.
  destruct w as [m d c o]. cbn [cin] in Hcin. subst c.
  rewrite (authenticate_wrong user (mk_World m d (e1 :: e2 :: e3 :: rest) o) Hl He1) in H1.
  injection H1 as <- <- <-.
  cbn [users disk cin tl] in *.
  destruct (failed_attempt_below_limit user Hl) as (Hp1 & Hc1 & Hl1);
    [unfold MAX_WRONG_ATTEMPTS; lia|].
  set (uA := failed_attempt user) in *.
  assert (HeA : forall m1 d1 o1,
             next_token (mk_World m1 d1 (e2 :: e3 :: rest) o1) <> pin uA)
    by (intros; cbn [next_token cin]; now rewrite Hp1).
  rewrite (authenticate_wrong uA _ Hl1 (HeA _ _ _)) in H2. injection H2 as <- <- <-.
  cbn [users disk cin tl] in *.
  destruct (failed_attempt_below_limit uA Hl1) as (Hp2 & Hc2 & Hl2);
    [unfold MAX_WRONG_ATTEMPTS; lia|].
  set (uB := failed_attempt uA) in *.
  assert (HeB : forall m2 d2 o2,
             next_token (mk_World m2 d2 (e3 :: rest) o2) <> pin uB)
    by (intros; cbn [next_token cin]; now rewrite Hp2, Hp1).
  rewrite (authenticate_wrong uB _ Hl2 (HeB _ _ _)) in H3. injection H3 as <- <- <-.
  destruct (failed_attempt_below_limit uB Hl2) as (_ & Hc3 & Hl3);
    [unfold MAX_WRONG_ATTEMPTS; lia|].
  do 3 (split; [reflexivity|]). split; [exact Hl3 | lia].
Qed.

(** C1 (as amended).  From an unlocked account whose counter is not
    negative, three [authenticate] calls fed wrong PINs all fail and leave
    the account locked with [wrongAttempts] at [MAX_WRONG_ATTEMPTS]
    (exactly there when the counter started below it, and locked by the
    third call only when it started at 0).  On a locked account
    [authenticate] returns false whatever waits on [cin]: it prints the
    locked message and nothing else changes, no token is read, the record
    and the store stay as they were.  From an unlocked account whose
    counter is negative, which [deserialize] accepts from the file, the
    three failures move the counter up by three and leave the account
    unlocked. *)
Theorem lockout_after_three_failures :
  (forall (user : User) (w : World) (e1 e2 e3 : string) (rest : list string)
          (r1 r2 r3 : bool) (u1 u2 u3 : User) (w1 w2 w3 : World),
      locked user = false ->
      0 <= wrongAttempts user < Int.MAX ->
      cin w = e1 :: e2 :: e3 :: rest ->
      e1 <> pin user -> e2 <> pin user -> e3 <> pin user ->
      authenticate user w = (r1, u1, w1) ->
      authenticate u1 w1 = (r2, u2, w2) ->
      authenticate u2 w2 = (r3, u3, w3) ->
      r1 = false /\ r2 = false /\ r3 = false /\
      locked u3 = true /\
      MAX_WRONG_ATTEMPTS <= wrongAttempts u3 /\
      (wrongAttempts user < MAX_WRONG_ATTEMPTS ->
       wrongAttempts u3 = MAX_WRONG_ATTEMPTS) /\
      (wrongAttempts user = 0 -> locked u2 = false)) /\
  (forall (user : User) (w : World),
      locked user = true ->
      authenticate user w =
      (false, user, mk_World (users w) (disk w) (cin w) (cout w ++ [MSG_LOCKED]))) /\
  (forall (user : User) (w : World) (e1 e2 e3 : string) (rest : list string)
          (r1 r2 r3 : bool) (u1 u2 u3 : User) (w1 w2 w3 : World),
      locked user = false ->
      Int.MIN <= wrongAttempts user < 0 ->
      cin w = e1 :: e2 :: e3 :: rest ->
      e1 <> pin user -> e2 <> pin user -> e3 <> pin user ->
      authenticate user w = (r1, u1, w1) ->
      authenticate u1 w1 = (r2, u2, w2) ->
      authenticate u2 w2 = (r3, u3, w3) ->
      r1 = false /\ r2 = false /\ r3 = false /\
      locked u3 = false /\
      wrongAttempts u3 = wrongAttempts user + 3).
Proof.
  split; [|split; [exact authenticate_locked | exact three_failures_negative_counter]].
  intros user w e1 e2 e3 rest r1 r2 r3 u1 u2 u3 w1 w2 w3
         Hl Hrange Hcin He1 He2 He3 H1 H2 H3.
  destruct w as [m d c o]. cbn [cin] in Hcin. subst c.
  unfold MAX_WRONG_ATTEMPTS in *.
  (* first call: a wrong PIN on an unlocked account *)
  rewrite (authenticate_wrong user (mk_World m d (e1 :: e2 :: e3 :: rest) o) Hl He1) in H1. injection H1 as <- <- <-. cbn [users disk cin tl] in *.
  destruct (failed_attempt_unlocked user Hl Hrange) as (Hp1 & Hc1 & Hk1).
  unfold MAX_WRONG_ATTEMPTS in *.
  set (uA := failed_attempt user) in *.
  destruct (locked uA) eqn:Hl1.
  { (* locked at once: the next two calls are refused *)
    rewrite (authenticate_locked _ _ Hl1) in H2. injection H2 as <- <- <-.
    rewrite (authenticate_locked _ _ Hl1) in H3. injection H3 as <- <- <-.
    symmetry in Hk1. apply Z.geb_le in Hk1.
    do 3 (split; [reflexivity|]). split; [exact Hl1|]. split; [lia|].
    split; intros H0; lia. }
  symmetry in Hk1. rewrite Z.geb_leb, Z.leb_gt in Hk1.
  (* second call *)
  assert (HeA : forall o1, next_token (mk_World (fst (updated uA m d)) (snd (updated uA m d))
                                     (e2 :: e3 :: rest) o1) <> pin uA)
    by (intros o1; cbn [next_token cin]; now rewrite Hp1).
  rewrite (authenticate_wrong uA _ Hl1 (HeA _)) in H2. injection H2 as <- <- <-. cbn [users disk cin tl] in *.
  assert (HrA : 0 <= wrongAttempts uA < Int.MAX) by (unfold Int.MAX in *; lia).
  destruct (failed_attempt_unlocked uA Hl1 HrA) as (Hp2 & Hc2 & Hk2).
  set (uB := failed_attempt uA) in *.
  unfold MAX_WRONG_ATTEMPTS in *.
  destruct (locked uB) eqn:Hl2.
  { rewrite (authenticate_locked _ _ Hl2) in H3. injection H3 as <- <- <-.
    symmetry in Hk2. apply Z.geb_le in Hk2.
    do 3 (split; [reflexivity|]). split; [exact Hl2|]. split; [lia|].
    split; intros H0; lia. }
  symmetry in Hk2. rewrite Z.geb_leb, Z.leb_gt in Hk2.
  (* third call *)
  assert (HeB : forall o2, next_token
                  (mk_World (fst (updated uB (fst (updated uA m d)) (snd (updated uA m d))))
                            (snd (updated uB (fst (updated uA m d)) (snd (updated uA m d))))
                            (e3 :: rest) o2) <> pin uB)
    by (intros o2; cbn [next_token cin]; now rewrite Hp2, Hp1).
  rewrite (authenticate_wrong uB _ Hl2 (HeB _)) in H3. injection H3 as <- <- <-.
  assert (HrB : 0 <= wrongAttempts uB < Int.MAX) by (unfold Int.MAX in *; lia).
  destruct (failed_attempt_unlocked uB Hl2 HrB) as (_ & Hc3 & Hk3).
  unfold MAX_WRONG_ATTEMPTS in *.
  assert (Hge : (wrongAttempts uB + 1 >=? 3) = true) by (apply Z.geb_le; lia).
  rewrite Hge in Hk3.
  do 3 (split; [reflexivity|]). split; [exact Hk3|]. split; [lia|].
  split; intros H0; [lia | reflexivity].
Qed.

(** C1 on [bob]: three wrong PINs lock the account, and the true PIN,
    waiting next on [cin], is then refused without being read. *)
Lemma lockout_after_three_failures_witness :
  let s1 := authenticate bob (bob_world ["0000"; "1111"; "2222"; "4927"]) in
  let s2 := authenticate (snd (fst s1)) (snd s1) in
  let s3 := authenticate (snd (fst s2)) (snd s2) in
  let s4 := authenticate (snd (fst s3)) (snd s3) in
  locked (snd (fst s2)) = false /\
  locked (snd (fst s3)) = true /\ wrongAttempts (snd (fst s3)) = 3 /\
  next_token (snd s3) = pin (snd (fst s3)) /\
  fst s4 = (false, snd (fst s3)) /\ cin (snd s4) = ["4927"].
Proof.
  intros s1 s2 s3 s4.
  destruct lockout_after_three_failures as (Hthree & Hlocked & _).
  destruct (Hthree bob (bob_world ["0000"; "1111"; "2222"; "4927"])
              "0000" "1111" "2222" ["4927"] _ _ _ _ _ _ _ _ _
              eq_refl ltac:(unfold Int.MAX; simpl; lia) eq_refl
              ltac:(discriminate) ltac:(discriminate) ltac:(discriminate)
              (triple_eta s1) (triple_eta s2) (triple_eta s3))
    as (_ & _ & _ & Hk3 & _ & Hw3 & Hk2).
  specialize (Hw3 ltac:(unfold MAX_WRONG_ATTEMPTS; simpl; lia)).
  specialize (Hk2 eq_refl).
  split; [exact Hk2|]. split; [exact Hk3|]. split; [exact Hw3|].
  split; [vm_compute; reflexivity|].
  unfold s4. rewrite (Hlocked _ _ Hk3).
  split; [reflexivity | vm_compute; reflexivity].
Defined.

(** C1, the claim as stated fails: the line [bob|4927|1000.00|-5|0] is
    a record that [deserialize] accepts and [load] stores, of an account
    that is not locked; three wrong PINs in a row leave it unlocked with
    the counter at -2, and the fourth call, with the true PIN, succeeds. *)
Lemma negative_counter_escapes_lockout :
  let user := set_wrongAttempts bob (-5) in
  let w := mk_World {[ "bob" := user ]} None ["0000"; "1111"; "2222"; "4927"] [] in
  let s1 := authenticate user w in
  let s2 := authenticate (snd (fst s1)) (snd s1) in
  let s3 := authenticate (snd (fst s2)) (snd s2) in
  let s4 := authenticate (snd (fst s3)) (snd s3) in
  deserialize (obfuscate "bob|4927|1000.00|-5|0") = Returned user /\
  load_file (join_lines [obfuscate "bob|4927|1000.00|-5|0"]) = {[ "bob" := user ]} /\
  locked user = false /\
  fst (fst s1) = false /\ fst (fst s2) = false /\ fst (fst s3) = false /\
  locked (snd (fst s3)) = false /\ wrongAttempts (snd (fst s3)) = -2 /\
  fst (fst s4) = true.
Proof. cbv zeta. repeat split; vm_compute; reflexivity. Qed.

(** ** PIN change *)

Lemma wrong_pin_output_last (u : User) (o : list string) :
  last (o ++ wrong_pin_output u) <> Some MSG_CHANGED.
Proof.
  rewrite last_app. unfold wrong_pin_output.
  destruct (Int.wrap_int (wrongAttempts u + 1) >=? MAX_WRONG_ATTEMPTS);
    cbn [app last]; discriminate.
Qed.

Lemma wrap_int_size_inj (a b : string) :
  string_size a <= Int.MAX -> string_size b <= Int.MAX ->
  Int.wrap_int (string_size a) = Int.wrap_int (string_size b) ->
  String.length a = String.length b.
Proof.
  unfold string_size. intros Ha Hb H.
  rewrite !wrap_int_in_range in H
    by (unfold Int.in_range, Int.MIN, Int.MAX in *; lia).
  lia.
Qed.

Lemma updated_twice (u1 u2 : User) (m : gmap string User) (d : option string) :
  username u2 = username u1 -> is_Some (m !! username u1) ->
  fst (updated u2 (fst (updated u1 m d)) (snd (updated u1 m d))) = <[username u1 := u2]> m /\
  snd (updated u2 (fst (updated u1 m d)) (snd (updated u1 m d))) =
    Some (file_image (<[username u1 := u2]> m)).
Proof.
  intros Hn [x Hx]. unfold updated. rewrite Hx. cbn [fst snd].
  rewrite Hn, lookup_insert_eq. cbn [fst snd].
  now rewrite insert_insert_eq.
Qed.

(** C5.  [changePin] reports success exactly when the account is not
    locked, the PIN typed first is the stored one, the new PIN has the
    stored PIN's length and is neither sequential nor repeat-heavy; the
    banned set plays no part.  On success the record holds the new PIN
    with [wrongAttempts] 0 and nothing else altered, and for an account
    present in the store the map holds that record and the file has been
    rewritten from the map. *)
Theorem changePin_spec :
  forall (user user' : User) (w w' : World),
    changePin user w = (user', w') ->
    (pin_change_reported w' <->
       locked user = false /\
       next_token w = pin user /\
       Int.wrap_int (string_size (second_token w)) = Int.wrap_int (string_size (pin user)) /\
       isSequential (second_token w) = false /\
       hasTooManyRepeats (second_token w) = false) /\
    (pin_change_reported w' ->
       user' = mk_User (username user) (second_token w) (balance user) 0 false /\
       (string_size (second_token w) <= Int.MAX -> string_size (pin user) <= Int.MAX ->
        String.length (second_token w) = String.length (pin user)) /\
       (is_Some (users w !! username user) ->
        users w' = <[username user := user']> (users w) /\
        disk w' = Some (file_image (users w')))).
Proof.
  intros user user' w w' H.
  destruct w as [m d c o]. unfold changePin in H. rewrite bind_print in H.
  unfold bind at 1 in H.
  destruct (locked user) eqn:Hl.
  { (* locked: authentication refuses *)
    rewrite (authenticate_locked user _ Hl) in H. cbn [negb users disk cin cout] in H.
    injection H as <- <-.
    assert (Hno : ~ pin_change_reported
                    (mk_World m d c ((o ++ [nl ++ "--- Change PIN ---" ++ nl]) ++ [MSG_LOCKED]))).
    { unfold pin_change_reported. cbn [cout]. rewrite last_snoc. discriminate. }
    cbn [users disk cin cout] in *.
    split; [split|]; [tauto | intros (Hf & _); discriminate | tauto]. }
  destruct (String.eqb_spec (next_token (mk_World m d c o)) (pin user)) as [Ht|Ht].
  2:{ (* wrong PIN *)
    match type of H with context [authenticate user ?W] =>
      rewrite (authenticate_wrong user W Hl Ht) in H end.
    cbn [negb] in H. injection H as <- <-.
    assert (Hno : ~ pin_change_reported
                    (mk_World (fst (updated (failed_attempt user) m d))
                              (snd (updated (failed_attempt user) m d)) (tl c)
                              ((o ++ [nl ++ "--- Change PIN ---" ++ nl]) ++ wrong_pin_output user))).
    { unfold pin_change_reported. cbn [cout]. apply wrong_pin_output_last. }
    cbn [users disk cin cout] in *.
    split; [split|]; [tauto | intros (_ & Hp & _); contradiction | tauto]. }
  (* correct PIN *)
  match type of H with context [authenticate user ?W] =>
    rewrite (authenticate_correct user W Hl Ht) in H end.
  cbn [negb] in H. cbn [users disk cin cout] in H. run_io.
  rewrite !bind_print, bind_read_token in H.
  assert (Hsec : forall m' d' o', next_token (mk_World m' d' (tl c) o') = second_token (mk_World m d c o)).
  { intros. unfold next_token, second_token. cbn [cin]. destruct c as [|t1 [|t2 r]]; reflexivity. }
  rewrite !Hsec in H.
  set (newPin := second_token (mk_World m d c o)) in *.
  set (u1 := set_wrongAttempts user 0) in *.
  change (pin u1) with (pin user) in H.
  destruct (Z.eqb_spec (Int.wrap_int (string_size newPin)) (Int.wrap_int (string_size (pin user)))) as [Hlen|Hlen].
  2:{ cbn [negb] in H. rewrite bind_print in H. injection H as <- <-.
      unfold pin_change_reported. cbn [cout]. rewrite last_snoc.
      split; [split|]; [discriminate | intros (_ & _ & Hp & _); contradiction | discriminate]. }
  cbn [negb] in H.
  destruct (isSequential newPin) eqn:Hseq.
  { cbn [orb] in H. rewrite bind_print in H. injection H as <- <-.
    unfold pin_change_reported. cbn [cout]. rewrite last_snoc.
    split; [split|]; [discriminate | intros (_ & _ & _ & Hp & _); discriminate | discriminate]. }
  destruct (hasTooManyRepeats newPin) eqn:Hrep.
  { cbn [orb] in H. rewrite bind_print in H. injection H as <- <-.
    unfold pin_change_reported. cbn [cout]. rewrite last_snoc.
    split; [split|]; [discriminate | intros (_ & _ & _ & _ & Hp); discriminate | discriminate]. }
  cbn [orb] in H. rewrite bind_updateUser, bind_print in H. injection H as <- <-.
  unfold pin_change_reported. cbn [cout users disk]. rewrite last_snoc.
  split; [split; [auto | reflexivity]|].
  intros _. split; [unfold set_wrongAttempts, set_pin, u1; cbn; now rewrite Hl|]. split.
  - intros Ha Hb. now apply wrap_int_size_inj.
  - intros Hin.
    destruct (updated_twice u1 (set_wrongAttempts (set_pin u1 newPin) 0) m d eq_refl Hin)
      as [-> ->].
    split; reflexivity.
Qed.

(** C5 on [bob]: after the true PIN, the banned but otherwise acceptable
    PIN ["2580"] is taken, stored and persisted. *)
Lemma changePin_spec_witness :
  let s := changePin bob (bob_world ["4927"; "2580"]) in
  pin_change_reported (snd s) /\
  fst s = mk_User "bob" "2580" balance_1000 0 false /\
  bool_decide ("2580" ∈ banned) = true /\
  String.length "2580" = String.length (pin bob) /\
  users (snd s) = <["bob" := fst s]> (users (bob_world ["4927"; "2580"])) /\
  disk (snd s) = Some (file_image (users (snd s))).
Proof.
  intros s.
  destruct (changePin_spec bob (fst s) (bob_world ["4927"; "2580"]) (snd s)
              (surjective_pairing s)) as [Hiff Hsucc].
  assert (Hrep : pin_change_reported (snd s)).
  { apply Hiff. repeat split; vm_compute; reflexivity. }
  destruct (Hsucc Hrep) as (Hu & Hlen & Hstore).
  destruct Hstore as [Hm Hd]; [exists bob; vm_compute; reflexivity|].
  split; [exact Hrep|]. split; [exact Hu|]. split; [vm_compute; reflexivity|].
  split; [apply Hlen; vm_compute; discriminate|].
  split; [exact Hm | exact Hd].
Defined.

(** ** PIN generator *)

Lemma length_snoc (s : string) (c : ascii) :
  String.length (s ++ String c "") = S (String.length s).
Proof. induction s as [|a r IH]; simpl; [reflexivity | now rewrite IH]. Qed.

Lemma all_digits_snoc (s : string) (c : ascii) :
  all_digits (s ++ String c "") = all_digits s && Char.is_digit c.
Proof.
  induction s as [|a r IH]; simpl.
  - now rewrite andb_true_r.
  - now rewrite IH, andb_assoc.
Qed.

Section GeneratorFacts.

Variable Rng : Type.
Variable digitDist : Rng -> Z * Rng.
Hypothesis digitDist_range : forall rng : Rng, 0 <= fst (digitDist rng) <= 9.

Lemma draw_digits_spec (n : nat) :
  forall (rng rng' : Rng) (pin0 pin : string),
    draw_digits Rng digitDist n rng pin0 = (pin, rng') ->
    String.length pin = (String.length pin0 + n)%nat /\
    (all_digits pin0 = true -> all_digits pin = true).
Proof.
  induction n as [|n IH]; intros rng rng' pin0 pin H; simpl in H.
  - injection H as <- <-. split; [lia | auto].
  - pose proof (digitDist_range rng) as Hd.
    destruct (digitDist rng) as [d rng1]. simpl in Hd.
    apply IH in H. destruct H as [Hlen Hdig].
    rewrite length_snoc in Hlen. split; [lia|].
    intros H0. apply Hdig. rewrite all_digits_snoc, H0. simpl.
    apply (is_digit_digit_char d Hd).
Qed.

Lemma generatePin_sound (fuel : nat) :
  forall (length : Z) (rng rng' : Rng) (pin : string),
    generatePin Rng digitDist fuel length rng = Some (pin, rng') ->
    String.length pin = Z.to_nat length /\
    all_digits pin = true /\
    isSequential pin = false /\
    hasTooManyRepeats pin = false /\
    pin ∉ banned.
Proof.
  induction fuel as [|fuel IH]; intros length rng rng' pin H; simpl in H.
  - discriminate.
  - destruct (draw_digits Rng digitDist (Z.to_nat length) rng "") as [cand rng1] eqn:Hdraw.
    destruct (isSequential cand) eqn:Hseq; [now apply IH in H|].
    destruct (hasTooManyRepeats cand) eqn:Hrep; [now apply IH in H|].
    destruct (bool_decide (cand ∈ banned)) eqn:Hban; [now apply IH in H|].
    injection H as <- <-.
    apply draw_digits_spec in Hdraw. destruct Hdraw as [Hlen Hdig].
    split; [exact Hlen|]. split; [now apply Hdig|].
    split; [exact Hseq|]. split; [exact Hrep|].
    now apply bool_decide_eq_false in Hban.
Qed.

(** More fuel never changes a PIN already returned. *)
Lemma generatePin_fuel_mono (fuel : nat) :
  forall (length : Z) (rng : Rng) (r : string * Rng),
    generatePin Rng digitDist fuel length rng = Some r ->
    generatePin Rng digitDist (S fuel) length rng = Some r.
Proof.
  induction fuel as [|fuel IH]; intros length rng r H; [discriminate|].
  change (generatePin Rng digitDist (S fuel) length rng) with
    (let '(pin, rng') := draw_digits Rng digitDist (Z.to_nat length) rng "" in
     if isSequential pin then generatePin Rng digitDist fuel length rng'
     else if hasTooManyRepeats pin then generatePin Rng digitDist fuel length rng'
     else if bool_decide (pin ∈ banned) then generatePin Rng digitDist fuel length rng'
     else Some (pin, rng')) in H.
  change (generatePin Rng digitDist (S (S fuel)) length rng) with
    (let '(pin, rng') := draw_digits Rng digitDist (Z.to_nat length) rng "" in
     if isSequential pin then generatePin Rng digitDist (S fuel) length rng'
     else if hasTooManyRepeats pin then generatePin Rng digitDist (S fuel) length rng'
     else if bool_decide (pin ∈ banned) then generatePin Rng digitDist (S fuel) length rng'
     else Some (pin, rng')).
  destruct (draw_digits Rng digitDist (Z.to_nat length) rng "") as [cand rng1].
  destruct (isSequential cand); [now apply IH|].
  destruct (hasTooManyRepeats cand); [now apply IH|].
  destruct (bool_decide (cand ∈ banned)); [now apply IH | exact H].
Qed.

End GeneratorFacts.

(** C4.  Whatever the random source (its draws lying between 0 and 9, as
    the distribution promises) and whatever the target length, in
    particular 4 or 6, a PIN that [generatePin] returns is a digit string
    of exactly that length, is not sequential, is not repeat-heavy and is
    not in the banned set. *)
Theorem generatePin_spec :
  forall (Rng : Type) (digitDist : Rng -> Z * Rng),
    (forall rng : Rng, 0 <= fst (digitDist rng) <= 9) ->
    forall (fuel : nat) (length : Z) (rng rng' : Rng) (pin : string),
      generatePin Rng digitDist fuel length rng = Some (pin, rng') ->
      String.length pin = Z.to_nat length /\
      all_digits pin = true /\
      isSequential pin = false /\
      hasTooManyRepeats pin = false /\
      pin ∉ banned.
Proof.
  intros Rng digitDist Hrange fuel. apply generatePin_sound. exact Hrange.
Qed.

(** C4 on a scripted source: the candidates 1234 (sequential), 0000
    (repeats) and 2580 (banned) are rejected, 4927 is returned. *)
Lemma scripted_digits_range (l : list Z) : 0 <= fst (scripted_digits l) <= 9.
Proof.
  destruct l as [|d r]; simpl; [lia|].
  pose proof (Z.mod_pos_bound d 10). lia.
Qed.

Lemma generatePin_spec_witness :
  generatePin (list Z) scripted_digits 10 4 [1;2;3;4; 0;0;0;0; 2;5;8;0; 4;9;2;7; 1]
    = Some ("4927", [1]) /\
  String.length "4927" = 4%nat /\ all_digits "4927" = true /\
  isSequential "4927" = false /\ hasTooManyRepeats "4927" = false /\
  "4927" ∉ banned.
Proof.
  assert (Hrun : generatePin (list Z) scripted_digits 10 4
                   [1;2;3;4; 0;0;0;0; 2;5;8;0; 4;9;2;7; 1] = Some ("4927", [1]))
    by (vm_compute; reflexivity).
  split; [exact Hrun|].
  apply (generatePin_spec (list Z) scripted_digits scripted_digits_range
           10%nat 4 _ _ _ Hrun).
Defined.

Lemma only_char_snoc (k : ascii) (s : string) :
  (forall i a, String.get i s = Some a -> a = k) ->
  forall i a, String.get i (s ++ String k "") = Some a -> a = k.
Proof.
  induction s as [|c r IH]; intros H i a Ha.
  - destruct i; simpl in Ha; [congruence | discriminate].
  - destruct i as [|i]; simpl in Ha.
    + exact (H 0%nat a Ha).
    + apply (IH (fun j b Hb => H (S j) b Hb) i a Ha).
Qed.

Lemma draw_digits_stuck (n : nat) :
  forall (pin0 : string),
    (forall i a, String.get i pin0 = Some a -> a = "7"%char) ->
    forall i a,
      String.get i (fst (draw_digits unit (fun _ => (7, tt)) n tt pin0)) = Some a ->
      a = "7"%char.
Proof.
  induction n as [|n IH]; intros pin0 H; simpl; [exact H|].
  apply IH. apply (only_char_snoc "7"%char). exact H.
Qed.

(** A source stuck on one digit only produces repeat-heavy candidates: the
    loop of [generatePin] then never returns, whatever the fuel. *)
Lemma generatePin_stuck_source (fuel : nat) (length : Z) :
  generatePin unit (fun _ => (7, tt)) fuel length tt = None.
Proof.
  induction fuel as [|fuel IH]; [reflexivity|]. simpl.
  assert (Hempty : forall i a, String.get i "" = Some a -> a = "7"%char)
    by (intros i a Ha; destruct i; discriminate).
  pose proof (draw_digits_stuck (Z.to_nat length) "" Hempty) as Hall.
  destruct (draw_digits unit (fun _ => (7, tt)) (Z.to_nat length) tt "") as [cand []].
  simpl in Hall.
  assert (Hrep : hasTooManyRepeats cand = true).
  { apply hasTooManyRepeats_iff. right. intros i j a b Ha Hb.
    now rewrite (Hall i a Ha), (Hall j b Hb). }
  rewrite Hrep. destruct (isSequential cand); exact IH.
Qed.


(** ** Text conversions *)

Lemma digit_char_not_delim (d : Z) (c : ascii) :
  0 <= d <= 9 -> Char.is_digit c = false -> Ascii.eqb (digit_char d) c = false.
Proof.
  intros Hd Hc. apply Ascii.eqb_neq. intros <-.
  rewrite is_digit_digit_char in Hc by assumption. discriminate.
Qed.

Lemma digits_of_has_char (c : ascii) (fuel : nat) :
  Char.is_digit c = false ->
  forall (n : Z) (acc : string),
    has_char c (digits_of fuel n acc) = has_char c acc.
Proof.
  intros Hc. induction fuel as [|fuel IH]; intros n acc; simpl; [reflexivity|].
  assert (Hd : Ascii.eqb (digit_char (n mod 10)) c = false).
  { apply digit_char_not_delim; [|assumption].
    pose proof (Z.mod_pos_bound n 10). lia. }
  destruct (n <? 10).
  - simpl. now rewrite Hd.
  - rewrite IH. simpl. now rewrite Hd.
Qed.

Lemma print_nat_has_char (c : ascii) (n : Z) :
  Char.is_digit c = false -> has_char c (print_nat n) = false.
Proof. intros Hc. unfold print_nat. now rewrite digits_of_has_char. Qed.

Lemma print_int_no_delim (n : Z) : has_char "|" (print_int n) = false.
Proof.
  unfold print_int. destruct (n <? 0); simpl; now rewrite print_nat_has_char.
Qed.

Lemma has_char_app (c : ascii) (s t : string) :
  has_char c (s ++ t) = has_char c s || has_char c t.
Proof.
  induction s as [|a r IH]; simpl; [reflexivity|].
  now rewrite IH, orb_assoc.
Qed.

Lemma print_fixed2_no_delim (x : spec_float) : has_char "|" (print_fixed2 x) = false.
Proof.
  destruct x as [neg|neg| |neg m e]; try (destruct neg; reflexivity); [reflexivity|].
  unfold print_fixed2.
  set (cents := if 0 <=? e then _ else _).
  assert (H : has_char "|"
                (print_nat (cents / 100) ++
                 String "." (String (digit_char (cents mod 100 / 10))
                            (String (digit_char (cents mod 10)) ""))) = false).
  { rewrite has_char_app, print_nat_has_char by reflexivity.
    cbn [has_char orb].
    rewrite !digit_char_not_delim; try reflexivity.
    - pose proof (Z.mod_pos_bound cents 10). lia.
    - pose proof (Z.mod_pos_bound cents 100).
      assert (0 <= cents mod 100 / 10 < 10)
        by (split; [apply Z.div_pos; lia | apply Z.div_lt_upper_bound; lia]).
      lia. }
  destruct neg; simpl; exact H.
Qed.

Lemma digit_of_digit_char (d : Z) :
  0 <= d <= 9 -> digit_of 10 (digit_char d) = Some d.
Proof.
  intros H.
  assert (E : d = 0 \/ d = 1 \/ d = 2 \/ d = 3 \/ d = 4 \/
              d = 5 \/ d = 6 \/ d = 7 \/ d = 8 \/ d = 9) by lia.
  repeat (destruct E as [-> | E]; [reflexivity|]). now subst.
Qed.

Lemma scan_digits_digit (d : Z) (r : string) (acc cnt : Z) :
  0 <= d <= 9 ->
  scan_digits 10 (String (digit_char d) r) acc cnt =
  scan_digits 10 r (acc * 10 + d) (cnt + 1).
Proof. intros H. simpl. now rewrite digit_of_digit_char. Qed.

(** Reading back what [digits_of] wrote: the digits of [n] extend the
    number read so far. *)
Lemma scan_digits_digits_of (f : nat) :
  forall (n : Z) (rest : string),
    0 <= n < 10 ^ Z.of_nat (S f) ->
    exists k : Z,
      0 < k /\
      forall acc cnt : Z,
        scan_digits 10 (digits_of (S f) n rest) acc cnt =
        scan_digits 10 rest (acc * 10 ^ k + n) (cnt + k).
Proof.
  induction f as [|f IH]; intros n rest Hn.
  - exists 1. split; [lia|]. intros acc cnt.
    change (10 ^ Z.of_nat 1) with 10 in Hn.
    cbn [digits_of]. rewrite Z.mod_small by lia.
    destruct (n <? 10); rewrite scan_digits_digit by lia; f_equal; lia.
  - cbn [digits_of]. destruct (Z.ltb_spec n 10) as [Hlt|Hge].
    + exists 1. split; [lia|]. intros acc cnt.
      rewrite Z.mod_small by lia. rewrite scan_digits_digit by lia. f_equal; lia.
    + assert (Hq : 0 <= n / 10 < 10 ^ Z.of_nat (S f)).
      { split; [apply Z.div_pos; lia|].
        apply Z.div_lt_upper_bound; [lia|].
        rewrite <- Z.pow_succ_r by lia.
        replace (Z.succ (Z.of_nat (S f))) with (Z.of_nat (S (S f))) by lia.
        lia. }
      destruct (IH (n / 10) (String (digit_char (n mod 10)) rest) Hq) as (k & Hk & Hscan).
      exists (k + 1). split; [lia|]. intros acc cnt.
      rewrite Hscan.
      pose proof (Z.mod_pos_bound n 10 ltac:(lia)) as Hm.
      rewrite scan_digits_digit by lia.
      rewrite Z.pow_add_r by lia. change (10 ^ 1) with 10.
      pose proof (Z.div_mod n 10 ltac:(lia)) as Hdm.
      f_equal; [rewrite Hdm at 3; ring | lia].
Qed.

Lemma print_nat_fuel (n : Z) :
  0 <= n -> n < 10 ^ Z.of_nat (S (Z.to_nat (Z.log2 n))).
Proof.
  intros Hn. rewrite Nat2Z.inj_succ, Z2Nat.id by apply Z.log2_nonneg.
  destruct (Z.eq_dec n 0) as [->|Hne]; [reflexivity|].
  pose proof (Z.log2_spec n ltac:(lia)) as [_ Hup].
  apply Z.lt_le_trans with (1 := Hup).
  apply Z.pow_le_mono_l. pose proof (Z.log2_nonneg n). lia.
Qed.

Lemma scan_digits_print_nat (n : Z) :
  0 <= n ->
  exists k : Z, 0 < k /\ scan_digits 10 (print_nat n) 0 0 = (n, k, "").
Proof.
  intros Hn. unfold print_nat.
  destruct (scan_digits_digits_of (Z.to_nat (Z.log2 n)) n "" (conj Hn (print_nat_fuel n Hn)))
    as (k & Hk & Hscan).
  exists k. split; [exact Hk|]. rewrite Hscan. cbn [scan_digits].
  now rewrite Z.mul_0_l, !Z.add_0_l.
Qed.

Lemma print_nat_head (n : Z) :
  exists (d : Z) (r : string), 0 <= d <= 9 /\ print_nat n = String (digit_char d) r.
Proof.
  unfold print_nat. generalize (Z.to_nat (Z.log2 n)) as f. generalize "" as acc.
  intros acc f. revert n acc.
  induction f as [|f IH]; intros n acc; cbn [digits_of].
  - exists (n mod 10). pose proof (Z.mod_pos_bound n 10 ltac:(lia)).
    destruct (n <? 10); eexists; (split; [lia | reflexivity]).
  - pose proof (Z.mod_pos_bound n 10 ltac:(lia)).
    destruct (n <? 10).
    + exists (n mod 10). eexists. split; [lia | reflexivity].
    + apply IH.
Qed.

Lemma take_sign_other (c : ascii) (r : string) :
  c <> "-"%char -> c <> "+"%char -> take_sign (String c r) = (false, String c r).
Proof.
  intros Hm Hp.
  destruct c as [[] [] [] [] [] [] [] []]; try reflexivity; congruence.
Qed.

Lemma digit_char_plain (d : Z) :
  0 <= d <= 9 ->
  isspace (digit_char d) = false /\
  digit_char d <> "-"%char /\ digit_char d <> "+"%char.
Proof.
  intros H.
  assert (E : d = 0 \/ d = 1 \/ d = 2 \/ d = 3 \/ d = 4 \/
              d = 5 \/ d = 6 \/ d = 7 \/ d = 8 \/ d = 9) by lia.
  repeat (destruct E as [-> | E]; [repeat split; discriminate|]).
  subst. repeat split; discriminate.
Qed.

(** [stoi] reads back what [operator<<] printed for an [int]. *)
Lemma stoi_print_int (n : Z) : Int.in_range n -> stoi (print_int n) = Returned n.
Proof.
  intros Hr. unfold Int.in_range in Hr. unfold stoi, print_int.
  destruct (Z.ltb_spec n 0) as [Hneg|Hpos].
  - change (skip_space (String "-" (print_nat (- n)))) with (String "-" (print_nat (- n))).
    cbn [take_sign].
    destruct (scan_digits_print_nat (- n) ltac:(lia)) as (k & Hk & ->).
    rewrite (proj2 (Z.eqb_neq k 0)) by lia.
    rewrite Z.opp_involutive.
    rewrite (proj2 (Z.leb_le Int.MIN n)), (proj2 (Z.leb_le n Int.MAX)) by lia.
    reflexivity.
  - destruct (print_nat_head n) as (d & r & Hd & Hhead).
    destruct (digit_char_plain d Hd) as (Hsp & Hm & Hp).
    destruct (scan_digits_print_nat n Hpos) as (k & Hk & Hscan).
    rewrite Hhead in *. cbn [skip_space]. rewrite Hsp.
    rewrite take_sign_other by assumption. rewrite Hscan.
    rewrite (proj2 (Z.eqb_neq k 0)) by lia.
    rewrite (proj2 (Z.leb_le Int.MIN n)), (proj2 (Z.leb_le n Int.MAX)) by lia.
    reflexivity.
Qed.

(** ** Cent amounts survive the two-decimal rendering *)

Lemma div_nearest_even_unique (num den k : Z) :
  0 < den -> 2 * Z.abs (num - k * den) < den ->
  div_nearest_even num den = k.
Proof.
  intros Hden Hnear. unfold div_nearest_even.
  destruct (Z_le_gt_dec (k * den) num) as [Hge|Hlt].
  - assert (Hq : num / den = k) by (symmetry; apply (Z.div_unique num den k (num - k * den)); lia).
    assert (Hr : num mod den = num - k * den)
      by (symmetry; apply (Z.mod_unique num den k (num - k * den)); lia).
    rewrite Hq, Hr.
    destruct (Z.ltb_spec (2 * (num - k * den)) den); [reflexivity | lia].
  - assert (Hq : num / den = k - 1)
      by (symmetry; apply (Z.div_unique num den (k - 1) (num - (k - 1) * den)); lia).
    assert (Hr : num mod den = num - (k - 1) * den)
      by (symmetry; apply (Z.mod_unique num den (k - 1) (num - (k - 1) * den)); lia).
    rewrite Hq, Hr.
    destruct (Z.ltb_spec (2 * (num - (k - 1) * den)) den); [lia|].
    destruct (Z.ltb_spec den (2 * (num - (k - 1) * den))); lia.
Qed.

Lemma div_nearest_even_error (num den : Z) :
  0 < den -> 2 * Z.abs (den * div_nearest_even num den - num) <= den.
Proof.
  intros Hden. unfold div_nearest_even.
  pose proof (Z.div_mod num den ltac:(lia)) as Hdm.
  pose proof (Z.mod_pos_bound num den Hden) as Hr.
  destruct (Z.ltb_spec (2 * (num mod den)) den); [lia|].
  destruct (Z.ltb_spec den (2 * (num mod den))); [lia|].
  destruct (Z.even (num / den)); lia.
Qed.

Lemma pow2_split (a b : Z) : 0 <= a -> 0 <= b -> 2 ^ (a + b) = 2 ^ a * 2 ^ b.
Proof. intros. now rewrite Z.pow_add_r. Qed.

(** The unit in the last place of [n / 100] for [n] below [2^50]. *)
Lemma ulp_exponent_cents (n : Z) :
  0 < n < 2 ^ 50 ->
  let e := ulp_exponent n 100 in
  -60 <= e <= -9 /\
  100 * 2 ^ 52 <= n * 2 ^ (- e) < 100 * 2 ^ 53.
Proof.
  intros Hn. unfold ulp_exponent.
  change (Z.log2 100) with 6.
  pose proof (Z.log2_spec n ltac:(lia)) as [Hlo Hhi].
  pose proof (Z.log2_nonneg n) as H0.
  assert (HL : Z.log2 n < 50).
  { apply Z.log2_lt_pow2; lia. }
  set (L := Z.log2 n) in *.
  unfold scaled.
  destruct (Z.ltb_spec (L - 6 - 52) 0) as [_|]; [|lia].
  replace (- (L - 6 - 52)) with (58 - L) by lia.
  assert (Hpow : 2 ^ L * 2 ^ (58 - L) = 2 ^ 58)
    by (rewrite <- pow2_split by lia; f_equal; lia).
  assert (Hpos : 0 < 2 ^ (58 - L)) by (apply Z.pow_pos_nonneg; lia).
  assert (Hsucc : 2 ^ Z.succ L = 2 * 2 ^ L) by (apply Z.pow_succ_r; lia).
  assert (Hb : 2 ^ 58 <= n * 2 ^ (58 - L) < 2 ^ 59).
  { change (2 ^ 59) with (2 * 2 ^ 58). nia. }
  destruct (Z.ltb_spec (n * 2 ^ (58 - L) / 100) (2 ^ 52)) as [Hlt|Hge].
  - cbv zeta. split; [lia|].
    replace (- (L - 6 - 52 - 1)) with (1 + (58 - L)) by lia.
    rewrite pow2_split by lia. change (2 ^ 1) with 2.
    assert (n * 2 ^ (58 - L) < 100 * 2 ^ 52).
    { pose proof (Z.div_mod (n * 2 ^ (58 - L)) 100 ltac:(lia)).
      pose proof (Z.mod_pos_bound (n * 2 ^ (58 - L)) 100 ltac:(lia)). lia. }
    change (2 ^ 53) with (2 * 2 ^ 52). change (2 ^ 58) with (64 * 2 ^ 52) in Hb.
    lia.
  - cbv zeta. split; [lia|].
    replace (- (L - 6 - 52)) with (58 - L) by lia.
    assert (100 * 2 ^ 52 <= n * 2 ^ (58 - L)).
    { pose proof (Z.div_mod (n * 2 ^ (58 - L)) 100 ltac:(lia)).
      pose proof (Z.mod_pos_bound (n * 2 ^ (58 - L)) 100 ltac:(lia)). lia. }
    change (2 ^ 59) with (64 * 2 ^ 53) in Hb. lia.
Qed.

(** The double nearest to [n / 100]: a normal number whose unit in the
    last place is below 1/256, within half a unit of [n / 100]. *)
Lemma round_binary64_cents (n : Z) :
  0 < n < 2 ^ 50 ->
  exists (m e : Z) (inexact : bool),
    round_binary64 false n 100 = (S754_finite false (Z.to_pos m) e, inexact) /\
    2 ^ 52 <= m /\ -60 <= e <= -8 /\
    2 * Z.abs (100 * m - n * 2 ^ (- e)) <= 100.
Proof.
  intros Hn. unfold round_binary64.
  destruct (ulp_exponent_cents n Hn) as [He Hnum].
  set (e0 := ulp_exponent n 100) in *. cbv zeta in He, Hnum.
  unfold emin. rewrite Z.max_l by lia.
  unfold scaled. destruct (Z.ltb_spec e0 0) as [_|]; [|lia].
  pose proof (div_nearest_even_error (n * 2 ^ (- e0)) 100 ltac:(lia)) as Herr.
  set (m := div_nearest_even (n * 2 ^ (- e0)) 100) in *.
  set (ix := negb (_ =? 0)).
  assert (Hm : 2 ^ 52 <= m <= 2 ^ 53) by lia.
  destruct (Z.eqb_spec m (2 ^ 53)) as [E|NE].
  - exists (2 ^ 52), (e0 + 1), ix.
    change (2 ^ 52 =? 0) with false. cbv iota.
    unfold emax, prec. destruct (Z.ltb_spec (1024 - 53) (e0 + 1)); [lia|].
    split; [reflexivity|]. split; [lia|]. split; [lia|].
    replace (- e0) with (1 + - (e0 + 1)) in Herr by lia.
    rewrite pow2_split in Herr by lia. change (2 ^ 1) with 2 in Herr.
    rewrite E in Herr. change (2 ^ 53) with (2 * 2 ^ 52) in Herr. lia.
  - exists m, e0, ix.
    destruct (Z.eqb_spec m 0); [lia|].
    unfold emax, prec. destruct (Z.ltb_spec (1024 - 53) e0); [lia|].
    split; [reflexivity|]. split; [lia|]. split; [lia|]. exact Herr.
Qed.

(** Such a double is written as exactly [n] hundredths. *)
Lemma print_fixed2_cents (n m e : Z) :
  0 < m -> e <= -8 -> -60 <= e ->
  2 * Z.abs (100 * m - n * 2 ^ (- e)) <= 100 ->
  print_fixed2 (S754_finite false (Z.to_pos m) e) =
  print_nat (n / 100) ++
  String "." (String (digit_char (n mod 100 / 10)) (String (digit_char (n mod 10)) "")).
Proof.
  intros Hm He He' Hnear. unfold print_fixed2.
  destruct (Z.leb_spec 0 e); [lia|].
  rewrite Z2Pos.id by exact Hm.
  assert (Hpow : 2 ^ 8 <= 2 ^ (- e)) by (apply Z.pow_le_mono_r; lia).
  change (2 ^ 8) with 256 in Hpow.
  rewrite (div_nearest_even_unique (m * 100) (2 ^ (- e)) n) by lia.
  reflexivity.
Qed.

Lemma append_cons (c : ascii) (r t : string) :
  String c r ++ t = String c (r ++ t).
Proof. reflexivity. Qed.

Lemma append_nil_l (t : string) : "" ++ t = t.
Proof. reflexivity. Qed.

Lemma digits_of_app (f : nat) :
  forall (n : Z) (acc rest : string),
    digits_of f n acc ++ rest = digits_of f n (acc ++ rest).
Proof.
  induction f as [|f IH]; intros n acc rest; cbn [digits_of]; [reflexivity|].
  destruct (n <? 10); [reflexivity|]. now rewrite IH.
Qed.

Lemma all_digits_digits_of (f : nat) :
  forall (n : Z) (acc : string),
    all_digits acc = true -> all_digits (digits_of f n acc) = true.
Proof.
  induction f as [|f IH]; intros n acc H; cbn [digits_of]; [exact H|].
  assert (Hd : all_digits (String (digit_char (n mod 10)) acc) = true).
  { cbn [all_digits]. rewrite H, andb_true_r. apply is_digit_digit_char.
    pose proof (Z.mod_pos_bound n 10 ltac:(lia)). lia. }
  destruct (n <? 10); [exact Hd | now apply IH].
Qed.

Lemma digit_is_plain (c : ascii) :
  Char.is_digit c = true ->
  isspace c = false /\ c <> "-"%char /\ c <> "+"%char /\ tolower c = c /\
  c <> "i"%char /\ c <> "n"%char /\ c <> "x"%char.
Proof.
  destruct c as [[] [] [] [] [] [] [] []]; intros H; try discriminate H;
    repeat split; try reflexivity; discriminate.
Qed.

Lemma scan_digits_stop (base : Z) (c : ascii) (r : string) (acc cnt : Z) :
  digit_of base c = None ->
  scan_digits base (String c r) acc cnt = (acc, cnt, String c r).
Proof. intros H. cbn [scan_digits]. now rewrite H. Qed.

(** [stod] on a number printed with two decimals reads the hundredths. *)
Lemma stod_two_decimals (q d1 d0 : Z) :
  0 <= q -> 0 <= d1 <= 9 -> 0 <= d0 <= 9 ->
  stod (print_nat q ++
        String "." (String (digit_char d1) (String (digit_char d0) ""))) =
  make_double false (q * 100 + d1 * 10 + d0) 0 (-2).
Proof.
  intros Hq Hd1 Hd0.
  set (frac := String (digit_char d1) (String (digit_char d0) "")).
  (* the integer part read back *)
  assert (Hscan : exists k, 0 < k /\
            scan_digits 10 (print_nat q ++ String "." frac) 0 0 = (q, k, String "." frac)).
  { unfold print_nat. rewrite digits_of_app. rewrite append_nil_l.
    destruct (scan_digits_digits_of (Z.to_nat (Z.log2 q)) q (String "." frac)
                (conj Hq (print_nat_fuel q Hq))) as (k & Hk & Hs).
    exists k. split; [exact Hk|]. rewrite Hs.
    rewrite scan_digits_stop by reflexivity. now rewrite Z.mul_0_l, !Z.add_0_l. }
  destruct Hscan as (k & Hk & Hscan).
  (* the first two characters *)
  assert (Hall : all_digits (print_nat q) = true)
    by (apply all_digits_digits_of; reflexivity).
  destruct (print_nat_head q) as (d & r & Hd & Hhead).
  rewrite Hhead in Hall, Hscan |- *. rewrite append_cons in Hscan |- *.
  cbn [all_digits] in Hall. apply andb_true_iff in Hall as [Hc Hr].
  destruct (digit_is_plain _ Hc) as (Hsp & Hm & Hp & Hlow & Hi & Hn & _).
  unfold stod. cbn [skip_space]. rewrite Hsp.
  rewrite take_sign_other by assumption.
  cbn [starts_with_nocase]. rewrite Hlow.
  rewrite (proj2 (Ascii.eqb_neq _ _) Hi), (proj2 (Ascii.eqb_neq _ _) Hn).
  cbn [andb].
  assert (Hx : Ascii.eqb (digit_char d) "0" &&
               match r ++ String "." frac with
               | "" => false
               | String c s' => Ascii.eqb (tolower c) "x" && true
               end = false).
  { apply andb_false_iff. right. destruct r as [|c2 r2]; [reflexivity|].
    rewrite append_cons. cbn [all_digits] in Hr. apply andb_true_iff in Hr as [Hc2 _].
    destruct (digit_is_plain _ Hc2) as (_ & _ & _ & Hlow2 & _ & _ & Hx2).
    rewrite Hlow2, (proj2 (Ascii.eqb_neq _ _) Hx2). reflexivity. }
  rewrite Hx.
  unfold scan_mantissa. rewrite Hscan.
  unfold frac at 1. rewrite !scan_digits_digit by assumption.
  cbn [scan_digits].
  assert (Hk2 : (k + (0 + 1 + 1) =? 0) = false) by (apply Z.eqb_neq; lia).
  rewrite Hk2. cbv iota beta. rewrite Hk2.
  cbn [scan_exponent]. f_equal; lia.
Qed.

Lemma make_double_cents (n : Z) :
  0 < n < 2 ^ 50 ->
  make_double false n 0 (-2) = Returned (fst (round_binary64 false n 100)).
Proof.
  intros Hn. unfold make_double.
  destruct (Z.eqb_spec n 0); [lia|].
  change (n * 2 ^ Z.max 0 0 * 10 ^ Z.max (-2) 0) with (n * 1 * 1).
  change (2 ^ Z.max (- 0) 0 * 10 ^ Z.max (- -2) 0) with 100.
  rewrite !Z.mul_1_r.
  destruct (round_binary64_cents n Hn) as (m & e & ix & -> & Hm & _ & _).
  cbn [fst].
  destruct (ulp_exponent_cents n Hn) as [He _]. cbv zeta in He.
  unfold tiny. destruct (scaled n 100 (ulp_exponent n 100)) as [num den].
  unfold emin. destruct (Z.ltb_spec (ulp_exponent n 100) (-1074)); [lia|].
  now rewrite andb_false_r.
Qed.

Lemma hundredths_digits (n : Z) :
  0 <= n ->
  n / 100 * 100 + n mod 100 / 10 * 10 + n mod 10 = n /\
  0 <= n / 100 /\ 0 <= n mod 100 / 10 <= 9 /\ 0 <= n mod 10 <= 9.
Proof.
  intros Hn.
  pose proof (Z.div_mod n 100 ltac:(lia)).
  pose proof (Z.mod_pos_bound n 100 ltac:(lia)).
  pose proof (Z.div_mod n 10 ltac:(lia)).
  pose proof (Z.mod_pos_bound n 10 ltac:(lia)).
  pose proof (Z.div_mod (n mod 100) 10 ltac:(lia)).
  pose proof (Z.mod_pos_bound (n mod 100) 10 ltac:(lia)).
  assert (0 <= n / 100) by (apply Z.div_pos; lia).
  assert (0 <= n mod 100 / 10) by (apply Z.div_pos; lia).
  lia.
Qed.

(** A balance of a whole number of cents, below [2^50] cents, is read back
    unchanged from its two-decimal rendering. *)
Lemma cents_round_trip (n : Z) :
  0 <= n < 2 ^ 50 ->
  stod (print_fixed2 (cents_to_double n)) = Returned (cents_to_double n).
Proof.
  intros Hn. unfold cents_to_double.
  destruct (Z.eqb_spec n 0) as [->|Hne]; [reflexivity|].
  assert (Hpos : 0 < n < 2 ^ 50) by lia.
  rewrite <- (make_double_cents n Hpos).
  destruct (round_binary64_cents n Hpos) as (m & e & ix & -> & Hm & He & Hnear).
  cbn [fst].
  rewrite (print_fixed2_cents n m e) by lia.
  destruct (hundredths_digits n ltac:(lia)) as (Hsum & Hq & Hd1 & Hd0).
  rewrite stod_two_decimals by assumption.
  now rewrite Hsum.
Qed.

(** ** Every balance is read back from its rendering *)

Lemma digits2_pos_bounds (m : positive) :
  2 ^ (Z.pos (digits2_pos m) - 1) <= Z.pos m < 2 ^ Z.pos (digits2_pos m).
Proof.
  induction m as [m IH|m IH|]; cbn [digits2_pos]; [| |cbn; lia];
    rewrite Pos2Z.inj_succ;
    [change (Z.pos m~1) with (2 * Z.pos m + 1) | change (Z.pos m~0) with (2 * Z.pos m)];
    set (D := Z.pos (digits2_pos m)) in *;
    assert (HD : 0 < D) by (unfold D; lia);
    replace (Z.succ D - 1) with (Z.succ (D - 1)) by lia;
    rewrite !Z.pow_succ_r by lia;
    generalize dependent (2 ^ (D - 1)); generalize dependent (2 ^ D); intros; lia.
Qed.

(** A binary64 value has a mantissa below [2^53], at least [2^52] unless
    the number is subnormal, and an exponent of at most 971. *)
Lemma valid_binary_bounds (s : bool) (m : positive) (e : Z) :
  SpecFloat.valid_binary prec emax (S754_finite s m e) = true ->
  Z.pos m < 2 ^ 53 /\ e <= 971 /\ (emin < e -> 2 ^ 52 <= Z.pos m).
Proof.
  unfold SpecFloat.valid_binary, bounded, canonical_mantissa, fexp, SpecFloat.emin,
         prec, emax, emin.
  intros H. apply andb_true_iff in H as [Hc He].
  apply Z.eqb_eq in Hc. apply Z.leb_le in He.
  pose proof (digits2_pos_bounds m) as [Hlo Hhi].
  set (D := Z.pos (digits2_pos m)) in *.
  assert (HD : D <= 53) by lia.
  split.
  - eapply Z.lt_le_trans; [exact Hhi|]. apply Z.pow_le_mono_r; lia.
  - split; [lia|]. intros Hn.
    assert (D = 53) by lia. subst D. rewrite H in Hlo. exact Hlo.
Qed.

(** [ulp_exponent p q] is the exponent that brings [p / q] into
    [2^52, 2^53). *)
Lemma ulp_exponent_spec (p q : Z) :
  0 < p -> 0 < q ->
  let e := ulp_exponent p q in
  (e < 0 -> 2 ^ 52 * q <= p * 2 ^ (- e) < 2 ^ 53 * q) /\
  (0 <= e -> 2 ^ 52 * (q * 2 ^ e) <= p < 2 ^ 53 * (q * 2 ^ e)).
Proof.
  intros Hp Hq. unfold ulp_exponent.
  pose proof (Z.log2_spec p Hp) as [HpL HpH].
  pose proof (Z.log2_spec q Hq) as [HqL HqH].
  pose proof (Z.log2_nonneg p) as HL0. pose proof (Z.log2_nonneg q) as HM0.
  set (L := Z.log2 p) in *. set (M := Z.log2 q) in *.
  rewrite Z.pow_succ_r in HpH, HqH by lia.
  set (A := 2 ^ L) in *. set (B := 2 ^ M) in *.
  assert (HA : 0 < A) by (apply Z.pow_pos_nonneg; lia).
  assert (HB : 0 < B) by (apply Z.pow_pos_nonneg; lia).
  unfold scaled.
  destruct (Z.ltb_spec (L - M - 52) 0) as [Hneg|Hpos].
  - (* the first guess is negative *)
    set (k := - (L - M - 52)).
    assert (Hk : 0 < k) by (unfold k; lia).
    assert (HK : 0 < 2 ^ k) by (apply Z.pow_pos_nonneg; lia).
    assert (HAB : A * 2 ^ k = 2 ^ 52 * B).
    { unfold A, B. rewrite <- !Z.pow_add_r by lia. f_equal. unfold k. lia. }
    assert (Hlow : 2 ^ 52 * B <= p * 2 ^ k) by nia.
    assert (Hhigh : p * 2 ^ k < 2 ^ 53 * B).
    { change (2 ^ 53) with (2 * 2 ^ 52). nia. }
    assert (Hk1 : 2 ^ (- (L - M - 52 - 1)) = 2 * 2 ^ k).
    { replace (- (L - M - 52 - 1)) with (Z.succ k) by (unfold k; lia).
      apply Z.pow_succ_r. lia. }
    destruct (Z.ltb_spec (p * 2 ^ k / q) (2 ^ 52)) as [Hlt|Hge]; cbv zeta.
    + assert (Hlt' : p * 2 ^ k < 2 ^ 52 * q).
      { pose proof (Z.div_mod (p * 2 ^ k) q ltac:(lia)).
        pose proof (Z.mod_pos_bound (p * 2 ^ k) q Hq). nia. }
      split; [|lia]. intros _. rewrite Hk1.
      change (2 ^ 53) with (2 * 2 ^ 52). nia.
    + assert (Hge' : 2 ^ 52 * q <= p * 2 ^ k).
      { pose proof (Z.div_mod (p * 2 ^ k) q ltac:(lia)).
        pose proof (Z.mod_pos_bound (p * 2 ^ k) q Hq). nia. }
      split; [|lia]. intros _. fold k. split; [exact Hge'|].
      change (2 ^ 53) with (2 * 2 ^ 52). nia.
  - (* the first guess is not negative *)
    set (k := L - M - 52) in *.
    assert (HK : 0 < 2 ^ k) by (apply Z.pow_pos_nonneg; lia).
    assert (HAB : A = 2 ^ 52 * (B * 2 ^ k)).
    { unfold A, B. rewrite <- !Z.pow_add_r by lia. f_equal. unfold k. lia. }
    assert (Hlow : 2 ^ 52 * (B * 2 ^ k) <= p) by lia.
    assert (Hhigh : p < 2 ^ 53 * (B * 2 ^ k)).
    { change (2 ^ 53) with (2 * 2 ^ 52). lia. }
    destruct (Z.ltb_spec (p / (q * 2 ^ k)) (2 ^ 52)) as [Hlt|Hge]; cbv zeta.
    + assert (Hlt' : p < 2 ^ 52 * (q * 2 ^ k)).
      { pose proof (Z.div_mod p (q * 2 ^ k) ltac:(nia)).
        pose proof (Z.mod_pos_bound p (q * 2 ^ k) ltac:(nia)). nia. }
      destruct (Z.eq_dec k 0) as [E|NE].
      * split; [|lia]. intros _. rewrite E in *.
        change (- (0 - 1)) with 1. change (2 ^ 1) with 2. change (2 ^ 0) with 1 in *.
        change (2 ^ 53) with (2 * 2 ^ 52). nia.
      * split; [lia|]. intros _.
        assert (Hk1 : 2 ^ k = 2 * 2 ^ (k - 1)).
        { replace k with (Z.succ (k - 1)) at 1 by lia. apply Z.pow_succ_r. lia. }
        assert (0 < 2 ^ (k - 1)) by (apply Z.pow_pos_nonneg; lia).
        rewrite Hk1 in *. change (2 ^ 53) with (2 * 2 ^ 52). nia.
    + assert (Hge' : 2 ^ 52 * (q * 2 ^ k) <= p).
      { pose proof (Z.div_mod p (q * 2 ^ k) ltac:(nia)).
        pose proof (Z.mod_pos_bound p (q * 2 ^ k) ltac:(nia)). nia. }
      split; [lia|]. intros _. split; [exact Hge'|].
      change (2 ^ 53) with (2 * 2 ^ 52). nia.
Qed.

(** Hundredths up to [2^52] units: the nearest double is a normal number,
    and [strtod] reports no range error. *)
Lemma make_double_small (n : Z) :
  0 <= n <= 100 * 2 ^ 52 ->
  exists b : spec_float, make_double false n 0 (-2) = Returned b.
Proof.
  intros Hn. unfold make_double.
  destruct (Z.eqb_spec n 0) as [E|NE]; [eauto|].
  change (n * 2 ^ Z.max 0 0 * 10 ^ Z.max (-2) 0) with (n * 1 * 1).
  change (2 ^ Z.max (- 0) 0 * 10 ^ Z.max (- -2) 0) with 100.
  rewrite !Z.mul_1_r.
  destruct (ulp_exponent_spec n 100 ltac:(lia) ltac:(lia)) as [Hneg Hpos].
  cbv zeta in Hneg, Hpos.
  assert (He : -60 <= ulp_exponent n 100 <= 0).
  { split.
    - destruct (Z_lt_le_dec (ulp_exponent n 100) (-60)) as [Hlt|]; [|lia]. exfalso.
      destruct (Hneg ltac:(lia)) as [_ Hhi].
      assert (2 ^ 61 <= 2 ^ (- ulp_exponent n 100)) by (apply Z.pow_le_mono_r; lia).
      change (2 ^ 61) with (256 * 2 ^ 53) in *. nia.
    - destruct (Z_lt_le_dec 0 (ulp_exponent n 100)) as [Hgt|]; [|lia]. exfalso.
      destruct (Hpos ltac:(lia)) as [Hlo _].
      assert (2 ^ 1 <= 2 ^ ulp_exponent n 100) by (apply Z.pow_le_mono_r; lia).
      change (2 ^ 1) with 2 in *. nia. }
  assert (Hnt : tiny n 100 = false).
  { unfold tiny. destruct (scaled n 100 (ulp_exponent n 100)) as [num den].
    unfold emin. destruct (Z.ltb_spec (ulp_exponent n 100) (-1074)); [lia | reflexivity]. }
  rewrite Hnt.
  unfold round_binary64, emin. rewrite Z.max_l by lia.
  set (e0 := ulp_exponent n 100) in *.
  assert (Hb : let '(num, den) := scaled n 100 e0 in
               0 < den /\ 2 ^ 52 * den <= num < 2 ^ 53 * den).
  { unfold scaled. destruct (Z.ltb_spec e0 0) as [H0|H0].
    - split; [lia|]. apply Hneg. exact H0.
    - assert (e0 = 0) by lia. split; [|apply Hpos; lia].
      assert (0 < 2 ^ e0) by (apply Z.pow_pos_nonneg; lia). lia. }
  destruct (scaled n 100 e0) as [num den]. destruct Hb as [Hden Hnum].
  pose proof (div_nearest_even_error num den Hden) as Herr.
  set (m := div_nearest_even num den) in *.
  assert (Hm : 2 ^ 52 <= m <= 2 ^ 53) by nia.
  destruct (Z.eqb_spec m (2 ^ 53)) as [E|NE'].
  - change (2 ^ 52 =? 0) with false. cbv iota.
    unfold emax, prec. destruct (Z.ltb_spec (1024 - 53) (e0 + 1)); [lia|].
    rewrite andb_false_r. eauto.
  - destruct (Z.eqb_spec m 0); [lia|].
    unfold emax, prec. destruct (Z.ltb_spec (1024 - 53) e0); [lia|].
    rewrite andb_false_r. eauto.
Qed.

(** An integer double of at least [2^52] is exactly the nearest double to
    its hundredths. *)
Lemma make_double_exact (M E : Z) :
  2 ^ 52 <= M < 2 ^ 53 -> 0 <= E <= 971 ->
  make_double false (M * 2 ^ E * 100) 0 (-2) = Returned (S754_finite false (Z.to_pos M) E).
Proof.
  intros HM HE. unfold make_double.
  assert (HP : 0 < 2 ^ E) by (apply Z.pow_pos_nonneg; lia).
  set (n := M * 2 ^ E * 100).
  assert (Hn : 2 ^ 52 * 100 <= n) by (unfold n; nia).
  destruct (Z.eqb_spec n 0) as [E0|NE]; [lia|].
  change (n * 2 ^ Z.max 0 0 * 10 ^ Z.max (-2) 0) with (n * 1 * 1).
  change (2 ^ Z.max (- 0) 0 * 10 ^ Z.max (- -2) 0) with 100.
  rewrite !Z.mul_1_r.
  destruct (ulp_exponent_spec n 100 ltac:(lia) ltac:(lia)) as [Hneg Hpos].
  cbv zeta in Hneg, Hpos.
  assert (He : ulp_exponent n 100 = E).
  { set (e0 := ulp_exponent n 100) in *.
    assert (H0 : 0 <= e0).
    { destruct (Z_lt_le_dec e0 0) as [Hlt|]; [|lia]. exfalso.
      destruct (Hneg Hlt) as [_ Hhi].
      assert (2 ^ 1 <= 2 ^ (- e0)) by (apply Z.pow_le_mono_r; lia).
      change (2 ^ 1) with 2 in *. change (2 ^ 53) with (2 * 2 ^ 52) in Hhi. nia. }
    destruct (Hpos H0) as [Hlo Hhi]. unfold n in Hlo, Hhi.
    assert (HP0 : 0 < 2 ^ e0) by (apply Z.pow_pos_nonneg; lia).
    destruct (Z.lt_trichotomy e0 E) as [Hlt|[Heq|Hgt]]; [exfalso | exact Heq | exfalso].
    - assert (Hs : 2 ^ E = 2 ^ (E - e0) * 2 ^ e0)
        by (rewrite <- Z.pow_add_r by lia; f_equal; lia).
      assert (2 ^ 1 <= 2 ^ (E - e0)) by (apply Z.pow_le_mono_r; lia).
      change (2 ^ 1) with 2 in *. change (2 ^ 53) with (2 * 2 ^ 52) in Hhi.
      rewrite Hs in Hhi. nia.
    - assert (Hs : 2 ^ e0 = 2 ^ (e0 - E) * 2 ^ E)
        by (rewrite <- Z.pow_add_r by lia; f_equal; lia).
      assert (2 ^ 1 <= 2 ^ (e0 - E)) by (apply Z.pow_le_mono_r; lia).
      change (2 ^ 1) with 2 in *. change (2 ^ 53) with (2 * 2 ^ 52) in HM.
      rewrite Hs in Hlo. nia. }
  unfold round_binary64, emin. rewrite He, Z.max_l by lia.
  unfold scaled. destruct (Z.ltb_spec E 0) as [|_]; [lia|].
  assert (Hdiv : div_nearest_even n (100 * 2 ^ E) = M).
  { apply div_nearest_even_unique; [lia|].
    replace (n - M * (100 * 2 ^ E)) with 0 by (unfold n; ring). cbn. lia. }
  assert (Hmod : n mod (100 * 2 ^ E) = 0).
  { replace n with (M * (100 * 2 ^ E)) by (unfold n; ring). apply Z.mod_mul. lia. }
  rewrite Hdiv, Hmod. cbn [Z.eqb negb].
  destruct (Z.eqb_spec M (2 ^ 53)); [lia|].
  destruct (Z.eqb_spec M 0); [lia|].
  unfold emax, prec. destruct (Z.ltb_spec (1024 - 53) E); [lia|].
  reflexivity.
Qed.

(** [stod] accepts the two-decimal rendering of every non-negative double:
    neither overflow nor underflow can occur on the way back. *)
Lemma stod_print_fixed2_returns (b : spec_float) :
  SpecFloat.valid_binary prec emax b = true ->
  nonnegative b = true ->
  exists b' : spec_float, stod (print_fixed2 b) = Returned b'.
Proof.
  intros Hv Hn. destruct b as [neg|neg| |neg m e].
  - destruct neg; eexists; vm_compute; reflexivity.
  - destruct neg; [discriminate|]. eexists; vm_compute; reflexivity.
  - discriminate.
  - destruct neg; [discriminate|].
    destruct (valid_binary_bounds false m e Hv) as (Hm & He & Hnorm).
    unfold print_fixed2, sign_prefix.
    set (cents := if 0 <=? e then Z.pos m * 2 ^ e * 100
                  else div_nearest_even (Z.pos m * 100) (2 ^ (- e))).
    assert (Hc : 0 <= cents /\
                 exists b', make_double false cents 0 (-2) = Returned b').
    { unfold cents. destruct (Z.leb_spec 0 e) as [H0|H0].
      - assert (0 < 2 ^ e) by (apply Z.pow_pos_nonneg; lia).
        split; [nia|]. eexists. apply make_double_exact; [|lia].
        split; [apply Hnorm; unfold emin; lia | exact Hm].
      - assert (Hp : 2 ^ 1 <= 2 ^ (- e)) by (apply Z.pow_le_mono_r; lia).
        change (2 ^ 1) with 2 in Hp.
        pose proof (div_nearest_even_error (Z.pos m * 100) (2 ^ (- e)) ltac:(lia)) as Herr.
        set (k := div_nearest_even (Z.pos m * 100) (2 ^ (- e))) in *.
        assert (Hk : 0 <= k <= 100 * 2 ^ 52).
        { change (2 ^ 53) with (2 * 2 ^ 52) in Hm. split; nia. }
        split; [lia|]. now apply make_double_small. }
    destruct Hc as (Hc0 & b' & Hb').
    destruct (hundredths_digits cents Hc0) as (Hsum & Hq & Hd1 & Hd0).
    exists b'. rewrite stod_two_decimals by assumption. now rewrite Hsum.
Qed.

(** The smallest normal double and the values just below it: [strtod]
    reports a range error when the value is still below [2^-1022] after
    rounding to 53 bits. *)
Example stod_near_smallest_normal :
  stod "2.2250738585072014e-308" = Returned (S754_finite false 4503599627370496 (-1074)) /\
  stod "2.2250738585072012e-308" = Thrown out_of_range /\
  stod "4.9e-324" = Thrown out_of_range /\
  stod "1.7976931348623157e308" = Returned (S754_finite false 9007199254740991 971) /\
  stod "1.8e308" = Thrown out_of_range.
Proof. repeat split; vm_compute; reflexivity. Qed.

Example balance_1000_is_cents : cents_to_double 100000 = balance_1000.
Proof. vm_compute. reflexivity. Qed.

(** ** Record codec *)

Lemma split_at_field (delim : ascii) (field rest : string) :
  has_char delim field = false ->
  split_at delim (field ++ String delim rest) = Some (field, rest).
Proof.
  induction field as [|c r IH]; intros H; simpl in *.
  - now rewrite Ascii.eqb_refl.
  - apply orb_false_iff in H as [Hc Hr]. rewrite Hc, (IH Hr). reflexivity.
Qed.

Lemma split_at_none (delim : ascii) (s : string) :
  has_char delim s = false -> split_at delim s = None.
Proof.
  induction s as [|c r IH]; intros H; simpl in *; [reflexivity|].
  apply orb_false_iff in H as [Hc Hr]. now rewrite Hc, (IH Hr).
Qed.

Lemma getline_field (delim : ascii) (field rest str : string) :
  has_char delim field = false ->
  getline (open_stream (field ++ String delim rest)) str delim =
  (open_stream rest, field).
Proof.
  intros H. unfold getline, open_stream. cbn [eofbit failbit buf orb].
  now rewrite split_at_field.
Qed.

Lemma getline_last (delim : ascii) (s str : string) :
  has_char delim s = false ->
  getline (open_stream s) str delim = (mk_istream "" true (String.eqb s ""), s).
Proof.
  intros H. unfold getline, open_stream. cbn [eofbit failbit buf orb].
  now rewrite split_at_none.
Qed.

Lemma all_digits_has_char (c : ascii) (s : string) :
  Char.is_digit c = false -> all_digits s = true -> has_char c s = false.
Proof.
  intros Hc. induction s as [|a r IH]; simpl; [reflexivity|].
  rewrite andb_true_iff. intros [Ha Hr]. rewrite (IH Hr), orb_false_r.
  apply Ascii.eqb_neq. intros ->. congruence.
Qed.

(** What [deserialize] makes of a serialized record whose text fields hold
    no delimiter: every field comes back as written, the balance after a
    pass through its two-decimal rendering. *)
Lemma deserialize_serialize_fields (u : User) :
  has_char "|" (username u) = false ->
  has_char "|" (pin u) = false ->
  Int.in_range (wrongAttempts u) ->
  deserialize (serialize u) =
  bind_outcome (stod (print_fixed2 (balance u)))
               (fun b => Returned (set_balance u b)).
Proof.
  intros Hname Hpin Hwa.
  unfold deserialize, serialize, deobfuscate, obfuscate.
  rewrite obfuscate_from_involutive. unfold record_line.
  rewrite (getline_field "|" _ _ "" Hname).
  rewrite (getline_field "|" _ _ "" Hpin).
  rewrite (getline_field "|" _ _ "" (print_fixed2_no_delim (balance u))).
  destruct (stod (print_fixed2 (balance u))) as [b|e]; [|reflexivity].
  cbn [bind_outcome].
  rewrite (getline_field "|" _ _ _ (print_int_no_delim (wrongAttempts u))).
  rewrite (stoi_print_int _ Hwa). cbn [bind_outcome].
  unfold set_balance. destruct (locked u); reflexivity.
Qed.

Lemma valid_account_fields (u : User) :
  valid_account u ->
  has_char "|" (username u) = false /\
  has_char "|" (pin u) = false /\
  Int.in_range (wrongAttempts u).
Proof.
  intros (_ & Hname & Hpin & _ & _ & Hwa).
  split; [exact Hname|]. split.
  - now apply all_digits_has_char.
  - unfold Int.in_range, Int.MIN, Int.MAX in *. lia.
Qed.

(** C2 (as amended).  For every valid Account, [deserialize] returns on
    the serialized record and restores [username], [pin], [wrongAttempts]
    and [locked]; the balance is the one that [stod] reads from the
    two-decimal rendering, which it always accepts.  The whole Account
    comes back field for field exactly when that rendering reads back as
    the balance itself, which it does for every balance of a whole number
    of cents below [2^50] cents. *)
Theorem deserialize_serialize :
  forall u : User,
    valid_account u ->
    (exists b : spec_float,
       stod (print_fixed2 (balance u)) = Returned b /\
       deserialize (serialize u) = Returned (set_balance u b)) /\
    (stod (print_fixed2 (balance u)) = Returned (balance u) <->
     deserialize (serialize u) = Returned u) /\
    (forall n : Z,
       0 <= n < 2 ^ 50 -> balance u = cents_to_double n ->
       deserialize (serialize u) = Returned u).
Proof.
  intros u Hvalid.
  destruct (valid_account_fields u Hvalid) as (Hname & Hpin & Hwa).
  pose proof (deserialize_serialize_fields u Hname Hpin Hwa) as E.
  destruct Hvalid as (_ & _ & _ & Hbin & Hnn & _).
  destruct (stod_print_fixed2_returns (balance u) Hbin Hnn) as (b & Hb).
  split.
  { exists b. split; [exact Hb|]. rewrite E, Hb. reflexivity. }
  rewrite E.
  assert (Hback : stod (print_fixed2 (balance u)) = Returned (balance u) ->
                  bind_outcome (stod (print_fixed2 (balance u)))
                               (fun b => Returned (set_balance u b)) = Returned u).
  { intros ->. cbn. now destruct u. }
  split; [split; [exact Hback|]|].
  - rewrite Hb. cbn. intros H. injection H as H.
    apply (f_equal balance) in H. cbn in H. now subst b.
  - intros n Hn Hbal. apply Hback. rewrite Hbal. now apply cents_round_trip.
Qed.

Lemma bob_valid : valid_account bob.
Proof.
  unfold valid_account, bob, Int.MAX. cbn.
  repeat split; try reflexivity; try lia. discriminate.
Qed.

(** C2 on [bob], whose balance 1000.00 is 100000 cents. *)
Lemma deserialize_serialize_witness :
  balance bob = cents_to_double 100000 /\
  deserialize (serialize bob) = Returned bob.
Proof.
  assert (H : balance bob = cents_to_double 100000) by (vm_compute; reflexivity).
  split; [exact H|].
  apply (proj2 (proj2 (deserialize_serialize bob bob_valid)) 100000);
    [split; [lia | reflexivity] | exact H].
Defined.

(** C2, the claim as stated fails: with the balance 999.875 (1000.00 less
    a withdrawal of 0.125) the record is valid, it is written as 999.88,
    and what comes back differs from it in the balance. *)
Lemma round_trip_loses_third_decimal :
  valid_account (set_balance bob balance_999_875) /\
  stod "999.875" = Returned balance_999_875 /\
  print_fixed2 balance_999_875 = "999.88" /\
  deserialize (serialize (set_balance bob balance_999_875)) =
    Returned (set_balance bob balance_999_88) /\
  SFeqb balance_999_88 balance_999_875 = false /\
  deserialize (serialize (set_balance bob balance_999_875)) <>
    Returned (set_balance bob balance_999_875).
Proof.
  split.
  { unfold valid_account, bob, Int.MAX. cbn.
    repeat split; try reflexivity; try lia. discriminate. }
  split; [vm_compute; reflexivity|].
  split; [vm_compute; reflexivity|].
  assert (E : deserialize (serialize (set_balance bob balance_999_875)) =
              Returned (set_balance bob balance_999_88))
    by (vm_compute; reflexivity).
  split; [exact E|]. split; [vm_compute; reflexivity|].
  rewrite E. discriminate.
Qed.

(** Cent amounts such as 0.10 do come back, although 0.10 is not exactly
    representable in binary. *)
Example stod_print_fixed2_ten_cents :
  stod "0.10" = Returned (S754_finite false 7205759403792794 (-56)) /\
  stod (print_fixed2 (S754_finite false 7205759403792794 (-56))) =
    Returned (S754_finite false 7205759403792794 (-56)).
Proof. split; vm_compute; reflexivity. Qed.

(** ** Malformed records *)

(** A line with at least five fields: [deserialize] succeeds exactly when
    [stod] accepts the third field and [stoi] the fourth. *)
Lemma deserialize_five_fields (f1 f2 f3 f4 rest : string) :
  has_char "|" f1 = false -> has_char "|" f2 = false ->
  has_char "|" f3 = false -> has_char "|" f4 = false ->
  returns (deserialize (obfuscate
    (f1 ++ String "|" (f2 ++ String "|" (f3 ++ String "|" (f4 ++ String "|" rest)))))) =
  returns (stod f3) && returns (stoi f4).
Proof.
  intros H1 H2 H3 H4.
  unfold deserialize, deobfuscate, obfuscate. rewrite obfuscate_from_involutive.
  rewrite (getline_field "|" _ _ "" H1), (getline_field "|" _ _ "" H2),
          (getline_field "|" _ _ "" H3).
  destruct (stod f3) as [b|e]; [|reflexivity]. cbn [bind_outcome returns andb].
  rewrite (getline_field "|" _ _ _ H4).
  destruct (stoi f4) as [n|e]; [|reflexivity]. cbn [bind_outcome].
  destruct (getline (open_stream rest) f4 "|"). reflexivity.
Qed.

(** A line with one or two fields always fails: the third [getline] finds
    nothing and [stod] is called on the empty string. *)
Lemma deserialize_two_fields (f1 f2 : string) :
  has_char "|" f1 = false -> has_char "|" f2 = false ->
  deserialize (obfuscate f1) = Thrown invalid_argument /\
  deserialize (obfuscate (f1 ++ String "|" f2)) = Thrown invalid_argument.
Proof.
  intros H1 H2.
  unfold deserialize, deobfuscate, obfuscate. rewrite !obfuscate_from_involutive.
  split.
  - rewrite (getline_last "|" f1 "" H1). reflexivity.
  - rewrite (getline_field "|" _ _ "" H1), (getline_last "|" f2 "" H2).
    reflexivity.
Qed.

(** A line with three fields: the fourth and fifth [getline] fail and leave
    the third field in [token], which [stoi] and the comparison with "1"
    then read. *)
Lemma deserialize_three_fields (f1 f2 f3 : string) :
  has_char "|" f1 = false -> has_char "|" f2 = false ->
  has_char "|" f3 = false ->
  deserialize (obfuscate (f1 ++ String "|" (f2 ++ String "|" f3))) =
  bind_outcome (stod f3) (fun b =>
  bind_outcome (stoi f3) (fun n =>
  Returned (mk_User f1 f2 b n (String.eqb f3 "1")))).
Proof.
  intros H1 H2 H3.
  unfold deserialize, deobfuscate, obfuscate. rewrite obfuscate_from_involutive.
  rewrite (getline_field "|" _ _ "" H1), (getline_field "|" _ _ "" H2),
          (getline_last "|" f3 "" H3).
  reflexivity.
Qed.

(** A line with four fields: the fifth [getline] fails and leaves the
    attempts field in [token], so [locked] is set when that field is "1". *)
Lemma deserialize_four_fields (f1 f2 f3 f4 : string) :
  has_char "|" f1 = false -> has_char "|" f2 = false ->
  has_char "|" f3 = false -> has_char "|" f4 = false ->
  deserialize (obfuscate (f1 ++ String "|" (f2 ++ String "|" (f3 ++ String "|" f4)))) =
  bind_outcome (stod f3) (fun b =>
  bind_outcome (stoi f4) (fun n =>
  Returned (mk_User f1 f2 b n (String.eqb f4 "1")))).
Proof.
  intros H1 H2 H3 H4.
  unfold deserialize, deobfuscate, obfuscate. rewrite obfuscate_from_involutive.
  rewrite (getline_field "|" _ _ "" H1), (getline_field "|" _ _ "" H2),
          (getline_field "|" _ _ "" H3).
  destruct (stod f3) as [b|e]; [|reflexivity]. cbn [bind_outcome].
  rewrite (getline_last "|" f4 f3 H4).
  destruct (stoi f4) as [n|e]; reflexivity.
Qed.

(** C3, the code at a record of four fields: no error is signalled; the
    record is accepted, and the missing [locked] field is read from the
    attempts field left in [token].  The line holds no newline byte, so
    [load] passes it to [deserialize] as it is and stores the result. *)
Theorem deserialize_accepts_four_fields :
  count_fields "bob|4927|10.00|1" = 4%nat /\
  has_char "010" (obfuscate "bob|4927|10.00|1") = false /\
  stod "10.00" = Returned balance_10 /\
  stoi "1" = Returned 1 /\
  deserialize (obfuscate "bob|4927|10.00|1") =
    Returned (mk_User "bob" "4927" balance_10 1 true) /\
  load_file (join_lines [obfuscate "bob|4927|10.00|1"]) !! "bob" =
    Some (mk_User "bob" "4927" balance_10 1 true).
Proof. repeat split; vm_compute; reflexivity. Qed.

Example deserialize_three_fields_accepted :
  deserialize (obfuscate "bob|4927|10.00") =
    Returned (mk_User "bob" "4927" balance_10 10 false).
Proof. vm_compute. reflexivity. Qed.

Example deserialize_bad_balance :
  deserialize (obfuscate "bob|4927|ten|0|0") = Thrown invalid_argument.
Proof. vm_compute. reflexivity. Qed.

Example deserialize_bad_attempts :
  deserialize (obfuscate "bob|4927|10.00|x|0") = Thrown invalid_argument.
Proof. vm_compute. reflexivity. Qed.

Example deserialize_attempts_out_of_range :
  deserialize (obfuscate "bob|4927|10.00|2147483648|0") = Thrown out_of_range.
Proof. vm_compute. reflexivity. Qed.

(** ** Bulk load *)

Lemma join_lines_cons (l : string) (ls : list string) :
  join_lines (l :: ls) = l ++ String "010" (join_lines ls).
Proof. reflexivity. Qed.

Lemma length_app_string (s t : string) :
  String.length (s ++ t) = (String.length s + String.length t)%nat.
Proof. induction s as [|c r IH]; simpl; [reflexivity | now rewrite IH]. Qed.

Lemma join_lines_length (lines : list string) :
  (List.length lines <= String.length (join_lines lines))%nat.
Proof.
  induction lines as [|l ls IH]; [simpl; lia|].
  rewrite join_lines_cons, length_app_string. simpl. lia.
Qed.

(** With fuel beyond the number of lines the loop of [load] takes the
    lines one by one and stops at the end of the file. *)
Lemma load_loop_lines (lines : list string) :
  Forall (fun l => has_char "010" l = false) lines ->
  forall (fuel : nat) (line0 : string) (m : gmap string User),
    (List.length lines < fuel)%nat ->
    load_loop fuel (open_stream (join_lines lines)) line0 m =
    fold_left load_step lines m.
Proof.
  induction 1 as [|l ls Hl Hls IH]; intros fuel line0 m Hfuel;
    (destruct fuel as [|fuel]; [simpl in Hfuel; lia|]).
  - reflexivity.
  - cbn [load_loop]. rewrite join_lines_cons.
    rewrite (getline_field "010" l (join_lines ls) line0 Hl).
    cbn [failbit open_stream fold_left].
    rewrite <- (IH fuel l (load_step m l)) by (simpl in Hfuel; lia).
    unfold load_step.
    destruct (String.eqb l ""); [reflexivity|].
    destruct (deserialize l); reflexivity.
Qed.

Lemma load_file_lines (lines : list string) :
  Forall (fun l => has_char "010" l = false) lines ->
  load_file (join_lines lines) = fold_left load_step lines ∅.
Proof.
  intros H. unfold load_file. apply load_loop_lines; [exact H|].
  pose proof (join_lines_length lines). lia.
Qed.

Lemma load_step_failing (m : gmap string User) (line : string) :
  returns (deserialize line) = false -> load_step m line = m.
Proof.
  unfold load_step. intros H.
  destruct (String.eqb line ""); [reflexivity|].
  destruct (deserialize line); [discriminate | reflexivity].
Qed.

Lemma load_step_good (m : gmap string User) (line : string) (u : User) :
  deserialize line = Returned u -> load_step m line = <[username u := u]> m.
Proof.
  unfold load_step. intros H.
  destruct (String.eqb_spec line "") as [->|_].
  - vm_compute in H. discriminate.
  - now rewrite H.
Qed.

Lemma fold_load_step_good (lines : list string) (accounts : list User) :
  Forall2 (fun l u => deserialize l = Returned u) lines accounts ->
  forall m : gmap string User,
    fold_left load_step lines m =
    fold_left put_user accounts m.
Proof.
  induction 1 as [|l u ls us Hlu _ IH]; intros m; [reflexivity|].
  cbn [fold_left]. rewrite (load_step_good m l u Hlu). apply IH.
Qed.

Section StoreContents.

Implicit Types (m : gmap string User) (accounts : list User).

Lemma fold_put_other accounts :
  forall m (name : string),
    ~ In name (List.map username accounts) ->
    fold_left put_user accounts m !! name = m !! name.
Proof.
  induction accounts as [|a rest IH]; intros m name Hnot; [reflexivity|].
  cbn [fold_left]. rewrite IH by (intros Hin; apply Hnot; now right).
  unfold put_user. apply lookup_insert_ne. intros E. apply Hnot. now left.
Qed.

Lemma fold_put_lookup accounts :
  List.NoDup (List.map username accounts) ->
  forall m (u : User),
    In u accounts -> fold_left put_user accounts m !! username u = Some u.
Proof.
  induction accounts as [|a rest IH]; intros Hnd m u Hin; [destruct Hin|].
  cbn [List.map] in Hnd; apply List.NoDup_cons_iff in Hnd as [Hfresh Hnd]. cbn [fold_left].
  destruct Hin as [->|Hin].
  - rewrite fold_put_other by exact Hfresh. unfold put_user. apply lookup_insert_eq.
  - now apply IH.
Qed.

Lemma fold_put_origin accounts :
  forall m (name : string) (u : User),
    fold_left put_user accounts m !! name = Some u ->
    In u accounts \/ m !! name = Some u.
Proof.
  induction accounts as [|a rest IH]; intros m name u H; [now right|].
  cbn [fold_left] in H. destruct (IH _ _ _ H) as [Hin|Hm]; [left; now right|].
  unfold put_user in Hm. destruct (decide (username a = name)) as [<-|Hne].
  - rewrite lookup_insert_eq in Hm. injection Hm as <-. left. now left.
  - rewrite lookup_insert_ne in Hm by exact Hne. now right.
Qed.

Lemma fold_put_size accounts :
  List.NoDup (List.map username accounts) ->
  forall m,
    (forall u, In u accounts -> m !! username u = None) ->
    size (fold_left put_user accounts m) = (size m + List.length accounts)%nat.
Proof.
  induction accounts as [|a rest IH]; intros Hnd m Hfresh; [simpl; lia|].
  cbn [List.map] in Hnd; apply List.NoDup_cons_iff in Hnd as [Ha Hnd]. cbn [fold_left List.length].
  rewrite IH; [|exact Hnd|].
  - unfold put_user. rewrite map_size_insert_None by (apply Hfresh; now left). lia.
  - intros u Hu. unfold put_user. rewrite lookup_insert_ne.
    + apply Hfresh. now right.
    + intros E. apply Ha. rewrite E. now apply in_map.
Qed.

Lemma fold_put_holds_exactly accounts :
  List.NoDup (List.map username accounts) ->
  holds_exactly (fold_left put_user accounts ∅) accounts.
Proof.
  intros Hnd. split; [|split].
  - intros u Hu. now apply fold_put_lookup.
  - intros name u H. destruct (fold_put_origin _ _ _ _ H) as [Hin|He]; [exact Hin|].
    rewrite lookup_empty in He. discriminate.
  - rewrite fold_put_size; [now rewrite map_size_empty | exact Hnd |].
    intros u _. apply lookup_empty.
Qed.

End StoreContents.

Lemma deserialize_empty : deserialize "" = Thrown invalid_argument.
Proof. vm_compute. reflexivity. Qed.

Lemma decoded_users_cons (l : string) (ls : list string) :
  decoded_users (l :: ls) =
  (match deserialize l with Returned u => [u] | Thrown _ => [] end ++ decoded_users ls)%list.
Proof. reflexivity. Qed.

Lemma fold_load_step_decoded (lines : list string) :
  forall m : gmap string User,
    fold_left load_step lines m = fold_left put_user (decoded_users lines) m.
Proof.
  induction lines as [|l ls IH]; intros m; [reflexivity|].
  cbn [fold_left]. rewrite IH, decoded_users_cons, fold_left_app. f_equal.
  unfold load_step. destruct (String.eqb_spec l "") as [->|_].
  - now rewrite deserialize_empty.
  - destruct (deserialize l); reflexivity.
Qed.

Lemma fold_load_step_filter (lines : list string) :
  forall m : gmap string User,
    fold_left load_step (List.filter (fun l => returns (deserialize l)) lines) m =
    fold_left load_step lines m.
Proof.
  induction lines as [|l ls IH]; intros m; [reflexivity|].
  cbn [List.filter fold_left].
  destruct (returns (deserialize l)) eqn:E.
  - cbn [fold_left]. apply IH.
  - rewrite (load_step_failing m l E). apply IH.
Qed.

Lemma decoded_users_length (lines : list string) :
  List.length (decoded_users lines) =
  List.length (List.filter (fun l => returns (deserialize l)) lines).
Proof.
  induction lines as [|l ls IH]; [reflexivity|].
  rewrite decoded_users_cons, length_app, IH. cbn [List.filter].
  destruct (deserialize l); reflexivity.
Qed.

Lemma Forall_filter_lines (P : string -> Prop) (f : string -> bool) (lines : list string) :
  Forall P lines -> Forall P (List.filter f lines).
Proof.
  induction 1 as [|l ls Hl _ IH]; [constructor|].
  cbn [List.filter]. destruct (f l); [now constructor | exact IH].
Qed.

(** C7.  [load] goes through the file line by line, whatever the number
    and the places of the lines that fail to deserialize: such a line
    leaves the map as it was and the loop carries on with the next line,
    so the store is the one loaded from the file without these lines, and
    it is built from the records of the other lines, in their order.  When
    these are records of distinct users the store holds exactly those
    accounts, as many as there are lines that deserialize: four of them
    for one malformed line among five. *)
Theorem load_skips_malformed_line :
  forall lines : list string,
    Forall (fun l => has_char "010" l = false) lines ->
    let good := List.filter (fun l => returns (deserialize l)) lines in
    load_file (join_lines lines) = fold_left load_step lines ∅ /\
    (forall (m : gmap string User) (bad : string),
       returns (deserialize bad) = false -> load_step m bad = m) /\
    load_file (join_lines lines) = load_file (join_lines good) /\
    load_file (join_lines lines) = fold_left put_user (decoded_users lines) ∅ /\
    List.length (decoded_users lines) = List.length good /\
    (List.NoDup (List.map username (decoded_users lines)) ->
     holds_exactly (load_file (join_lines lines)) (decoded_users lines) /\
     size (load_file (join_lines lines)) = List.length good).
Proof.
  intros lines Hnl good.
  assert (Hnl' : Forall (fun l => has_char "010" l = false) good)
    by (now apply Forall_filter_lines).
  rewrite (load_file_lines _ Hnl), (load_file_lines _ Hnl').
  split; [reflexivity|]. split; [exact load_step_failing|].
  split; [unfold good; now rewrite fold_load_step_filter|].
  split; [apply fold_load_step_decoded|].
  split; [apply decoded_users_length|].
  intros Hnd. rewrite fold_load_step_decoded.
  pose proof (fold_put_holds_exactly (decoded_users lines) Hnd) as Hex.
  split; [exact Hex|].
  destruct Hex as (_ & _ & ->). apply decoded_users_length.
Qed.

(** C7 on a file of five lines, the third one malformed, and on a file
    with two malformed lines in a row. *)
Lemma load_skips_malformed_line_witness :
  let file := join_lines [serialize bob; serialize carol; bad_line;
                          serialize dave; serialize frank] in
  let file' := join_lines [serialize bob; bad_line; obfuscate "x|y";
                           serialize dave; serialize frank] in
  returns (deserialize bad_line) = false /\
  returns (deserialize (obfuscate "x|y")) = false /\
  holds_exactly (load_file file) [bob; carol; dave; frank] /\
  size (load_file file) = 4%nat /\
  holds_exactly (load_file file') [bob; dave; frank] /\
  size (load_file file') = 3%nat.
Proof.
  intros file file'.
  split; [vm_compute; reflexivity|]. split; [vm_compute; reflexivity|].
  destruct (load_skips_malformed_line
              [serialize bob; serialize carol; bad_line; serialize dave; serialize frank])
    as (_ & _ & _ & _ & _ & H).
  { repeat (constructor; [vm_compute; reflexivity|]). constructor. }
  destruct (load_skips_malformed_line
              [serialize bob; bad_line; obfuscate "x|y"; serialize dave; serialize frank])
    as (_ & _ & _ & _ & _ & H').
  { repeat (constructor; [vm_compute; reflexivity|]). constructor. }
  assert (Hdec : decoded_users [serialize bob; serialize carol; bad_line;
                                serialize dave; serialize frank] =
                 [bob; carol; dave; frank]) by (vm_compute; reflexivity).
  assert (Hdec' : decoded_users [serialize bob; bad_line; obfuscate "x|y";
                                 serialize dave; serialize frank] =
                  [bob; dave; frank]) by (vm_compute; reflexivity).
  rewrite Hdec in H. rewrite Hdec' in H'.
  destruct H as [Hex Hsize].
  { repeat (constructor; [cbn; intuition discriminate|]). constructor. }
  destruct H' as [Hex' Hsize'].
  { repeat (constructor; [cbn; intuition discriminate|]). constructor. }
  split; [exact Hex|]. split; [exact (proj2 (proj2 Hex))|].
  split; [exact Hex'|]. exact (proj2 (proj2 Hex')).
Defined.

(** The lines of the theorem hold no newline byte.  A serialized record
    can hold one: in any record of a user whose name has an [i] in third
    place the third byte is ['i' XOR 'c'], the newline, and [load] then
    reads what [save] wrote as two lines and drops the record. *)
Remark record_with_newline_is_lost :
  String.get 2 (serialize alice) = Some "010"%char /\
  load_file (file_image {[ "alice" := alice ]}) = ∅.
Proof. split; vm_compute; reflexivity. Qed.

(** * Further properties of the store, the codec and the callers *)

(** * The store operations *)

Lemma addUser_spec (u : User) m d c o :
  addUser u (mk_World m d c o) =
  match m !! username u with
  | Some _ => (false, mk_World m d c o)
  | None =>
      (true, mk_World (<[username u := u]> m)
                      (Some (file_image (<[username u := u]> m))) c o)
  end.
Proof.
  unfold addUser, bind, exists_, store, save, ret. simpl.
  destruct (m !! username u) as [u0|] eqn:E.
  - rewrite bool_decide_eq_true_2 by eauto. reflexivity.
  - rewrite bool_decide_eq_false_2 by (intros [x Hx]; discriminate).
    reflexivity.
Qed.

Lemma keyed_insert (m : gmap string User) (u : User) :
  keyed_by_username m -> keyed_by_username (<[username u := u]> m).
Proof.
  intros Hm k x Hk.
  destruct (decide (k = username u)) as [->|Hne].
  - rewrite lookup_insert_eq in Hk. now inversion Hk.
  - rewrite lookup_insert_ne in Hk by congruence. now apply Hm.
Qed.

Lemma keyed_load_loop (fuel : nat) :
  forall (ifs : istream) (line : string) (m : gmap string User),
    keyed_by_username m -> keyed_by_username (load_loop fuel ifs line m).
Proof.
  induction fuel as [|fuel IH]; intros ifs line m Hm; [exact Hm|].
  cbn [load_loop].
  destruct (getline ifs line "010") as [ifs' line'].
  destruct (failbit ifs'); [exact Hm|].
  destruct (String.eqb line' ""); [now apply IH|].
  destruct (deserialize line') as [u|e]; apply IH; [now apply keyed_insert|exact Hm].
Qed.

Lemma keyed_updated (u : User) (m : gmap string User) (d : option string) :
  keyed_by_username m -> keyed_by_username (fst (updated u m d)).
Proof.
  intros Hm. unfold updated. destruct (m !! username u); [|exact Hm].
  now apply keyed_insert.
Qed.

(** [authenticate] and [changePin] reach the map through [updateUser] only. *)
Lemma authenticate_users (P : gmap string User -> Prop) (user : User) (w : World) :
  (forall u m d, P m -> P (fst (updated u m d))) ->
  P (users w) -> P (users (snd (authenticate user w))).
Proof.
  intros Hupd Hw.
  destruct (locked user) eqn:Hl.
  { rewrite (authenticate_locked user w Hl). exact Hw. }
  destruct (String.eqb_spec (next_token w) (pin user)) as [Ht|Ht].
  - rewrite (authenticate_correct user w Hl Ht). cbn [snd users]. now apply Hupd.
  - rewrite (authenticate_wrong user w Hl Ht). cbn [snd users]. now apply Hupd.
Qed.

Lemma changePin_users (P : gmap string User -> Prop) (user : User) (w : World) :
  (forall u m d, P m -> P (fst (updated u m d))) ->
  P (users w) -> P (users (snd (changePin user w))).
Proof.
  intros Hupd Hw. destruct w as [m d c o]. cbn [users] in Hw.
  unfold changePin. rewrite bind_print. unfold bind at 1.
  pose proof (authenticate_users P user
                (mk_World m d c (o ++ [nl ++ "--- Change PIN ---" ++ nl])) Hupd Hw) as Ha.
  destruct (authenticate user _) as [[ok u1] w1]. cbn [snd] in Ha.
  destruct ok; cbn [negb]; [|exact Ha].
  destruct w1 as [m1 d1 c1 o1]. cbn [users] in Ha.
  rewrite !bind_print, bind_read_token.
  destruct (negb _); [rewrite bind_print; exact Ha|].
  destruct (_ || _); [rewrite bind_print; exact Ha|].
  rewrite bind_updateUser, bind_print. cbn [ret snd users]. now apply Hupd.
Qed.

(** X3.  Every record of the store sits under its own username: the map
    that [load] builds has this property whatever the file holds, and
    [addUser], [updateUser], [authenticate] and [changePin] keep it. *)
Theorem store_keyed_by_username :
  forall w : World,
    keyed_by_username (users w) ->
    keyed_by_username (users (snd (load w))) /\
    (forall u : User, keyed_by_username (users (snd (addUser u w)))) /\
    (forall u : User, keyed_by_username (users (snd (updateUser u w)))) /\
    (forall u : User, keyed_by_username (users (snd (authenticate u w)))) /\
    (forall u : User, keyed_by_username (users (snd (changePin u w)))).
Proof.
  intros w Hw.
  assert (Hempty : keyed_by_username ∅).
  { intros k u Hk. rewrite lookup_empty in Hk. discriminate. }
  split; [|split; [|split; [|split]]].
  - unfold load. destruct (disk w) as [bytes|]; cbn [snd users]; [|exact Hempty].
    unfold load_file. now apply keyed_load_loop.
  - intros u. destruct w as [m d c o]. rewrite addUser_spec.
    cbn [users] in Hw. destruct (m !! username u); cbn [snd users]; [exact Hw|].
    now apply keyed_insert.
  - intros u. rewrite updateUser_spec. cbn [snd users]. now apply keyed_updated.
  - intros u. apply authenticate_users; [|exact Hw]. intros; now apply keyed_updated.
  - intros u. apply changePin_users; [|exact Hw]. intros; now apply keyed_updated.
Qed.

(** X3 on the store that holds [bob]. *)
Lemma store_keyed_by_username_witness :
  keyed_by_username (users (snd (changePin bob (bob_world ["4927"; "8361"])))).
Proof.
  refine (proj2 (proj2 (proj2 (proj2
            (store_keyed_by_username (bob_world ["4927"; "8361"]) _)))) bob).
  intros k u Hk. unfold bob_world in Hk. cbn [users] in Hk.
  apply lookup_singleton_Some in Hk. destruct Hk as [<- <-]. reflexivity.
Defined.

(** X1.  [addUser] never overwrites: on a username that is taken it
    returns false and changes nothing at all.  On a free one it returns
    true, [getUser] then gives the new record back, the store has grown by
    one and the file is the image of the new store.  In both cases the
    records under every other username are as before. *)
Theorem addUser_getUser :
  forall (u : User) (w : World),
    let added := fst (addUser u w) in
    let w' := snd (addUser u w) in
    added = negb (fst (exists_ (username u) w)) /\
    (forall name : string,
       name <> username u -> fst (getUser name w') = fst (getUser name w)) /\
    (if added
     then fst (getUser (username u) w') = Some u /\
          size (users w') = S (size (users w)) /\
          disk w' = Some (file_image (users w')) /\
          cin w' = cin w /\ cout w' = cout w
     else w' = w).
Proof.
  intros u [m d c o]; cbv zeta.
  rewrite addUser_spec. unfold exists_, getUser. cbn [fst snd users].
  destruct (m !! username u) as [u0|] eqn:E; cbn [fst snd users disk cin cout].
  - rewrite bool_decide_eq_true_2 by eauto. cbn [negb]. now repeat split.
  - rewrite bool_decide_eq_false_2 by (intros [x Hx]; discriminate). cbn [negb].
    split; [reflexivity|]. split.
    + intros name Hne. now rewrite lookup_insert_ne by congruence.
    + rewrite lookup_insert_eq, map_size_insert_None by exact E. now repeat split.
Qed.

(** X2.  [updateUser] never creates a user: on a username that is not in
    the store it returns false and changes nothing, the file included.  On
    a stored one it returns true, [getUser] then gives the new record, and
    the file is the image of the new store.  The number of users and the
    records under every other username are as before. *)
Theorem updateUser_getUser :
  forall (u : User) (w : World),
    let changed := fst (updateUser u w) in
    let w' := snd (updateUser u w) in
    changed = fst (exists_ (username u) w) /\
    size (users w') = size (users w) /\
    (forall name : string,
       name <> username u -> fst (getUser name w') = fst (getUser name w)) /\
    (if changed
     then fst (getUser (username u) w') = Some u /\
          disk w' = Some (file_image (users w')) /\
          cin w' = cin w /\ cout w' = cout w
     else w' = w).
Proof.
  intros u [m d c o]; cbv zeta.
  rewrite updateUser_spec. unfold exists_, getUser, updated. cbn [fst snd users disk cin cout].
  destruct (m !! username u) as [u0|] eqn:E; cbn [fst snd users disk cin cout].
  - rewrite bool_decide_eq_true_2 by eauto.
    split; [reflexivity|]. split; [|split].
    + rewrite map_size_insert_Some; eauto.
    + intros name Hne. now rewrite lookup_insert_ne by congruence.
    + rewrite lookup_insert_eq. now repeat split.
  - rewrite bool_decide_eq_false_2 by (intros [x Hx]; discriminate).
    now repeat split.
Qed.

(** * Saving and loading again *)

Lemma file_image_lines (m : gmap string User) :
  file_image m = join_lines (List.map (fun p => serialize (snd p)) (map_to_list m)).
Proof.
  unfold file_image, join_lines. induction (map_to_list m) as [|p l IH]; cbn; [reflexivity|].
  now rewrite IH.
Qed.

Lemma storable_round_trip (u : User) :
  storable u -> deserialize (serialize u) = Returned u.
Proof.
  intros (Hn & Hp & Hw & Hb & _).
  rewrite (deserialize_serialize_fields u Hn Hp Hw), Hb. cbn [bind_outcome].
  now destruct u.
Qed.

Lemma fmap_fst_map {A B : Type} (l : list (A * B)) : l.*1 = List.map fst l.
Proof. induction l as [|p l IH]; [reflexivity|]. cbn. now f_equal. Qed.

Lemma fold_put_stored (m : gmap string User) :
  keyed_by_username m ->
  fold_left put_user (List.map snd (map_to_list m)) ∅ = m.
Proof.
  intros Hkey.
  assert (Hin : forall u, In u (List.map snd (map_to_list m)) <-> m !! username u = Some u).
  { intros u. rewrite in_map_iff. split.
    - intros ([k x] & Hx & Hi). cbn in Hx. subst x.
      apply list_elem_of_In, elem_of_map_to_list in Hi.
      now rewrite (Hkey _ _ Hi).
    - intros Hu. exists (username u, u). split; [reflexivity|].
      now apply list_elem_of_In, elem_of_map_to_list. }
  assert (Hnames : List.map username (List.map snd (map_to_list m)) =
                   List.map fst (map_to_list m)).
  { rewrite List.map_map. apply List.map_ext_in. intros [k x] Hi. cbn.
    apply list_elem_of_In, elem_of_map_to_list in Hi. now apply Hkey. }
  assert (Hnd : List.NoDup (List.map username (List.map snd (map_to_list m)))).
  { rewrite Hnames. apply NoDup_ListNoDup.
    rewrite <- fmap_fst_map. apply NoDup_fst_map_to_list. }
  apply map_eq. intros name.
  destruct (m !! name) as [u|] eqn:E.
  - pose proof (Hkey _ _ E) as Hname. subst name.
    apply fold_put_lookup; [exact Hnd|]. now apply Hin.
  - rewrite fold_put_other; [apply lookup_empty|].
    rewrite in_map_iff. intros (u & Hname & Hi). apply Hin in Hi.
    rewrite Hname in Hi. congruence.
Qed.

Lemma storable_lines (l : list (string * User)) :
  (forall p, In p l -> storable (snd p)) ->
  Forall (fun line => has_char "010" line = false)
         (List.map (fun p => serialize (snd p)) l) /\
  Forall2 (fun line u => deserialize line = Returned u)
          (List.map (fun p => serialize (snd p)) l) (List.map snd l).
Proof.
  induction l as [|p l IH]; intros H; cbn [List.map]; [split; constructor|].
  destruct IH as [IH1 IH2]; [intros q Hq; apply H; now right|].
  pose proof (H p (or_introl eq_refl)) as Hp.
  split; constructor; trivial.
  - apply Hp.
  - now apply storable_round_trip.
Qed.

(** X4.  What [save] writes, [load] reads back: for a store in which
    every record sits under its own username and is storable, loading the
    file image gives the same store again. *)
Theorem load_file_image :
  forall m : gmap string User,
    (forall (k : string) (u : User), m !! k = Some u -> username u = k /\ storable u) ->
    load_file (file_image m) = m.
Proof.
  intros m Hm.
  assert (Hkey : keyed_by_username m) by (intros k u Hk; now apply (Hm k u)).
  destruct (storable_lines (map_to_list m)) as [Hnl Hgood].
  { intros [k u] Hi. apply list_elem_of_In, elem_of_map_to_list in Hi.
    now apply (Hm k u). }
  rewrite file_image_lines, (load_file_lines _ Hnl), (fold_load_step_good _ _ Hgood).
  now apply fold_put_stored.
Qed.

Lemma bob_storable : storable bob.
Proof. repeat split; vm_compute; solve [reflexivity | discriminate]. Qed.

Lemma dave_storable : storable dave.
Proof. repeat split; vm_compute; solve [reflexivity | discriminate]. Qed.

(** X4 on a store of two accounts, one of them locked. *)
Lemma load_file_image_witness :
  load_file (file_image (<["bob" := bob]> {["dave" := dave]})) =
  <["bob" := bob]> {["dave" := dave]}.
Proof.
  apply load_file_image. intros k u Hk.
  apply lookup_insert_Some in Hk. destruct Hk as [[<- <-]|[_ Hk]].
  - split; [reflexivity | exact bob_storable].
  - apply lookup_singleton_Some in Hk. destruct Hk as [<- <-].
    split; [reflexivity | exact dave_storable].
Defined.

(** * Edge cases of [load] *)

Lemma append_assoc_string (a b c : string) : (a ++ b) ++ c = a ++ (b ++ c).
Proof. induction a as [|x a IH]; [reflexivity|]. rewrite !append_cons. now rewrite IH. Qed.

(** The loop of [load] on a file whose last line has no newline. *)
Lemma load_loop_unterminated (lines : list string) (last : string) :
  Forall (fun l => has_char "010" l = false) lines ->
  has_char "010" last = false ->
  forall (fuel : nat) (line0 : string) (m : gmap string User),
    (S (List.length lines) < fuel)%nat ->
    load_loop fuel (open_stream (join_lines lines ++ last)) line0 m =
    load_step (fold_left load_step lines m) last.
Proof.
  intros Hlines Hlast.
  induction Hlines as [|l ls Hl Hls IH]; intros fuel line0 m Hfuel;
    (destruct fuel as [|fuel]; [simpl in Hfuel; lia|]).
  - destruct fuel as [|fuel]; [simpl in Hfuel; lia|].
    cbn [join_lines foldr fold_left]. rewrite append_nil_l.
    cbn [load_loop]. rewrite (getline_last "010" last line0 Hlast).
    cbn [failbit]. unfold load_step.
    destruct (String.eqb last ""); [reflexivity|].
    destruct (deserialize last); reflexivity.
  - cbn [load_loop]. rewrite join_lines_cons, append_assoc_string, append_cons.
    rewrite (getline_field "010" l (join_lines ls ++ last) line0 Hl).
    cbn [failbit open_stream fold_left].
    rewrite <- (IH fuel l (load_step m l)) by (simpl in Hfuel; lia).
    unfold load_step.
    destruct (String.eqb l ""); [reflexivity|].
    destruct (deserialize l); reflexivity.
Qed.

(** X5.  A file whose last line is not ended by a newline is loaded as if
    it were: the record of an unterminated last line is not lost. *)
Theorem load_unterminated_last_line :
  forall (lines : list string) (last : string),
    Forall (fun l => has_char "010" l = false) lines ->
    has_char "010" last = false ->
    load_file (join_lines lines ++ last) = load_file (join_lines (lines ++ [last])).
Proof.
  intros lines last Hlines Hlast.
  rewrite (load_file_lines (lines ++ [last])).
  2:{ apply Forall_app. split; [exact Hlines | now constructor]. }
  rewrite fold_left_app. cbn [fold_left].
  unfold load_file. apply load_loop_unterminated; [exact Hlines | exact Hlast |].
  rewrite length_app_string. pose proof (join_lines_length lines). lia.
Qed.

(** X5 on a file of two records, the second one cut before its newline;
    both accounts are loaded. *)
Lemma load_unterminated_last_line_witness :
  load_file (join_lines [serialize bob] ++ serialize dave) =
  load_file (join_lines ([serialize bob] ++ [serialize dave])) /\
  load_file (join_lines [serialize bob] ++ serialize dave) !! "dave" = Some dave.
Proof.
  split; [|vm_compute; reflexivity].
  apply load_unterminated_last_line.
  - repeat (constructor; [vm_compute; reflexivity|]). constructor.
  - vm_compute; reflexivity.
Defined.

Lemma fold_load_step_keeps (name : string) (u : User) (post : list string) :
  Forall (fun l => forall u', deserialize l = Returned u' -> username u' <> name) post ->
  forall m : gmap string User,
    m !! name = Some u -> fold_left load_step post m !! name = Some u.
Proof.
  induction 1 as [|l ls Hl _ IH]; intros m Hm; [exact Hm|].
  cbn [fold_left]. apply IH. unfold load_step.
  destruct (String.eqb l ""); [exact Hm|].
  destruct (deserialize l) as [u'|e] eqn:E; [|exact Hm].
  rewrite lookup_insert_ne; [exact Hm | now apply Hl].
Qed.

(** X6.  When several lines of the file carry the same username, the last
    of them is the one in the store: [load] overwrites the earlier
    records and keeps no trace of them. *)
Theorem load_last_record_wins :
  forall (pre post : list string) (line : string) (u : User),
    Forall (fun l => has_char "010" l = false) (pre ++ line :: post) ->
    deserialize line = Returned u ->
    Forall (fun l => forall u', deserialize l = Returned u' -> username u' <> username u)
           post ->
    load_file (join_lines (pre ++ line :: post)) !! username u = Some u.
Proof.
  intros pre post line u Hnl Hline Hpost.
  rewrite (load_file_lines _ Hnl), fold_left_app. cbn [fold_left].
  apply fold_load_step_keeps; [exact Hpost|].
  rewrite (load_step_good _ line u Hline). apply lookup_insert_eq.
Qed.

(** X6 on a file that holds two records of [frank], with [dave] after them. *)
Lemma load_last_record_wins_witness :
  load_file (join_lines ([serialize (mk_User "frank" "1357" balance_10 2 false)] ++
                         serialize frank :: [serialize dave])) !! "frank" = Some frank.
Proof.
  apply (load_last_record_wins
           [serialize (mk_User "frank" "1357" balance_10 2 false)]
           [serialize dave] (serialize frank) frank).
  - repeat (constructor; [vm_compute; reflexivity|]). constructor.
  - vm_compute; reflexivity.
  - constructor; [|constructor]. intros u' Hu'.
    vm_compute in Hu'. injection Hu' as <-. discriminate.
Defined.

(** * The record format *)

Lemma count_fields_app (a b : string) :
  count_fields (a ++ String "|" b) = (count_fields a + count_fields b)%nat.
Proof.
  induction a as [|c a IH]; [reflexivity|].
  rewrite append_cons. cbn [count_fields]. rewrite IH.
  destruct (Ascii.eqb c "|"); reflexivity.
Qed.

Lemma count_fields_plain (s : string) :
  has_char "|" s = false -> count_fields s = 1%nat.
Proof.
  induction s as [|c s IH]; [reflexivity|]. cbn [has_char count_fields].
  destruct (Ascii.eqb c "|"); [discriminate | exact IH].
Qed.

(** X7.  The line that [serialize] obfuscates has the three fields of the
    balance, the counter and the lock flag, and as many more as the
    username and the PIN make: five fields when these two hold no ['|'],
    more when they do; the number printers never emit the delimiter. *)
Theorem serialize_field_count :
  forall u : User,
    count_fields (deobfuscate (serialize u)) =
    (3 + count_fields (username u) + count_fields (pin u))%nat.
Proof.
  intros u. unfold deobfuscate, serialize, obfuscate.
  rewrite obfuscate_from_involutive. unfold record_line.
  rewrite !count_fields_app.
  rewrite (count_fields_plain _ (print_fixed2_no_delim (balance u))).
  rewrite (count_fields_plain _ (print_int_no_delim (wrongAttempts u))).
  destruct (locked u); cbn [count_fields Ascii.eqb]; cbn; lia.
Qed.

Lemma deserialize_five_or_more (f1 f2 f3 f4 f5 rest : string) :
  has_char "|" f1 = false -> has_char "|" f2 = false ->
  has_char "|" f3 = false -> has_char "|" f4 = false ->
  has_char "|" f5 = false ->
  let head := fun tail : string =>
    f1 ++ String "|" (f2 ++ String "|" (f3 ++ String "|" (f4 ++ String "|" tail))) in
  let result :=
    bind_outcome (stod f3) (fun b =>
    bind_outcome (stoi f4) (fun n =>
    Returned (mk_User f1 f2 b n (String.eqb f5 "1")))) in
  deserialize (obfuscate (head f5)) = result /\
  deserialize (obfuscate (head (f5 ++ String "|" rest))) = result.
Proof.
  intros H1 H2 H3 H4 H5; cbv zeta.
  unfold deserialize, deobfuscate, obfuscate. rewrite !obfuscate_from_involutive.
  rewrite !(getline_field "|" _ _ "" H1), !(getline_field "|" _ _ "" H2),
          !(getline_field "|" _ _ "" H3).
  destruct (stod f3) as [b|e]; [|split; reflexivity]. cbn [bind_outcome].
  rewrite !(getline_field "|" _ _ _ H4).
  destruct (stoi f4) as [n|e]; [|split; reflexivity]. cbn [bind_outcome].
  rewrite (getline_last "|" f5 _ H5), (getline_field "|" f5 rest _ H5).
  split; reflexivity.
Qed.

(** X8.  On a line of five fields or more, [deserialize] takes the first
    two as they are, converts the third with [stod] and the fourth with
    [stoi], sets [locked] only when the fifth is exactly "1", and ignores
    whatever follows the fifth. *)
Theorem deserialize_well_formed :
  forall f1 f2 f3 f4 f5 rest : string,
    has_char "|" f1 = false -> has_char "|" f2 = false ->
    has_char "|" f3 = false -> has_char "|" f4 = false ->
    has_char "|" f5 = false ->
    let head := fun tail : string =>
      f1 ++ String "|" (f2 ++ String "|" (f3 ++ String "|" (f4 ++ String "|" tail))) in
    let result :=
      bind_outcome (stod f3) (fun b =>
      bind_outcome (stoi f4) (fun n =>
      Returned (mk_User f1 f2 b n (String.eqb f5 "1")))) in
    deserialize (obfuscate (head f5)) = result /\
    deserialize (obfuscate (head (f5 ++ String "|" rest))) = result.
Proof. exact deserialize_five_or_more. Qed.

(** X8 on a line of seven fields whose lock field is "01". *)
Lemma deserialize_well_formed_witness :
  deserialize (obfuscate "bob|4927|10.00|2|01|x|y") =
  Returned (mk_User "bob" "4927" balance_10 2 false).
Proof.
  refine (eq_trans (proj2 (deserialize_well_formed
            "bob" "4927" "10.00" "2" "01" "x|y" _ _ _ _ _)) _);
    vm_compute; reflexivity.
Defined.

Lemma split_at_some (delim : ascii) (s b tail : string) :
  split_at delim s = Some (b, tail) ->
  s = b ++ String delim tail /\ has_char delim b = false.
Proof.
  revert b. induction s as [|c r IH]; intros b H; cbn [split_at] in H; [discriminate|].
  destruct (Ascii.eqb_spec c delim) as [->|Hne].
  - injection H as <- <-. split; reflexivity.
  - destruct (split_at delim r) as [[line rest']|] eqn:E; [|discriminate].
    injection H as <- <-. destruct (IH line eq_refl) as [-> Hb].
    split; [reflexivity|]. cbn [has_char].
    rewrite (proj2 (Ascii.eqb_neq c delim) Hne). exact Hb.
Qed.

Lemma split_at_no_delim (delim : ascii) (s : string) :
  split_at delim s = None -> has_char delim s = false.
Proof.
  induction s as [|c r IH]; intros H; cbn [split_at has_char] in *; [reflexivity|].
  destruct (Ascii.eqb c delim); [discriminate|].
  destruct (split_at delim r) as [[line rest']|]; [discriminate|]. now apply IH.
Qed.

Lemma append_longer (a r : string) (c : ascii) : a <> a ++ String c r.
Proof.
  intros H. apply (f_equal String.length) in H.
  rewrite length_app_string in H. cbn [String.length] in H. lia.
Qed.

(** What [deserialize] returns, if it does, on a line whose first field
    is [f1] and whose second field is [f2]. *)
Lemma deserialize_first_fields (f1 f2 tail : string) (u' : User) :
  has_char "|" f1 = false -> has_char "|" f2 = false ->
  deserialize (obfuscate (f1 ++ String "|" (f2 ++ String "|" tail))) = Returned u' ->
  username u' = f1 /\ pin u' = f2.
Proof.
  intros H1 H2. unfold deserialize, deobfuscate, obfuscate.
  rewrite obfuscate_from_involutive.
  rewrite (getline_field "|" _ _ "" H1), (getline_field "|" _ _ "" H2).
  destruct (getline (open_stream tail) "" "|") as [ss3 token3].
  destruct (stod token3) as [bal|e]; cbn [bind_outcome]; [|discriminate].
  destruct (getline ss3 token3 "|") as [ss4 token4].
  destruct (stoi token4) as [n|e]; cbn [bind_outcome]; [|discriminate].
  destruct (getline ss4 token4 "|") as [ss5 token5].
  intros H. injection H as <-. split; reflexivity.
Qed.

(** X9.  A username that holds the delimiter does not come back: whenever
    [deserialize] returns on the serialized record, the username is cut
    at its first ['|'] and the PIN is what follows, up to the next ['|']
    of the username if there is one.  With one ['|'] only, every field is
    shifted: the rest of the username is taken for the PIN, the PIN for
    the balance, the balance for the counter and the counter for the lock
    flag. *)
Theorem deserialize_username_with_delimiter :
  forall (u : User) (a rest : string),
    username u = a ++ String "|" rest ->
    has_char "|" a = false ->
    (forall u' : User,
       deserialize (serialize u) = Returned u' ->
       username u' = a /\
       pin u' = match split_at "|" rest with Some (b, _) => b | None => rest end /\
       u' <> u) /\
    (has_char "|" rest = false -> has_char "|" (pin u) = false ->
     deserialize (serialize u) =
     bind_outcome (stod (pin u)) (fun bal =>
     bind_outcome (stoi (print_fixed2 (balance u))) (fun n =>
     Returned (mk_User a rest bal n (String.eqb (print_int (wrongAttempts u)) "1"))))).
Proof.
  intros u a rest Hname Ha. split.
  - intros u' Hu'.
    assert (Hfields : username u' = a /\
              pin u' = match split_at "|" rest with Some (b, _) => b | None => rest end).
    { unfold serialize, record_line in Hu'.
      rewrite Hname, append_assoc_string, append_cons in Hu'.
      destruct (split_at "|" rest) as [[b tail]|] eqn:E.
      - destruct (split_at_some _ _ _ _ E) as [-> Hb].
        rewrite append_assoc_string, append_cons in Hu'.
        exact (deserialize_first_fields a b _ u' Ha Hb Hu').
      - exact (deserialize_first_fields a rest _ u' Ha (split_at_no_delim _ _ E) Hu'). }
    destruct Hfields as [Hn Hp]. split; [exact Hn|]. split; [exact Hp|].
    intros ->. rewrite Hname in Hn. symmetry in Hn. exact (append_longer _ _ _ Hn).
  - intros Hb Hp.
    unfold serialize, record_line. rewrite Hname, append_assoc_string, append_cons.
    apply (deserialize_five_or_more a rest (pin u) (print_fixed2 (balance u))
             (print_int (wrongAttempts u)) (if locked u then "1" else "0") Ha Hb Hp).
    + apply print_fixed2_no_delim.
    + apply print_int_no_delim.
Qed.

(** X9 on an account named [a|b], which comes back as user [a] with PIN
    [b], a balance of 4927.00 and 1000 wrong attempts, and on an account
    named [a|b|7], which comes back as user [a] with PIN [b] too. *)
Lemma deserialize_username_with_delimiter_witness :
  deserialize (serialize (mk_User "a|b" "4927" balance_1000 0 false)) =
    Returned (mk_User "a" "b" (S754_finite false 5417293790052352 (-40)) 1000 false) /\
  exists u' : User,
    deserialize (serialize (mk_User "a|b|7" "4927" balance_1000 0 false)) = Returned u' /\
    username u' = "a" /\ pin u' = "b" /\ wrongAttempts u' = 4927.
Proof.
  split.
  - refine (eq_trans (proj2 (deserialize_username_with_delimiter
              (mk_User "a|b" "4927" balance_1000 0 false) "a" "b" eq_refl eq_refl) _ _) _);
      vm_compute; reflexivity.
  - assert (E : deserialize (serialize (mk_User "a|b|7" "4927" balance_1000 0 false)) =
                Returned (mk_User "a" "b" (S754_finite false 7881299347898368 (-50)) 4927 false))
      by (vm_compute; reflexivity).
    eexists. split; [exact E|].
    destruct (proj1 (deserialize_username_with_delimiter
                (mk_User "a|b|7" "4927" balance_1000 0 false) "a" "b|7" eq_refl eq_refl)
                _ E) as (Hn & Hp & _).
    split; [exact Hn|]. split; [exact Hp | reflexivity].
Defined.

(** * More on the PIN generator *)

Lemma draw_digits_length {Rng : Type} (digitDist : Rng -> Z * Rng) (n : nat) :
  forall (rng : Rng) (pin0 : string),
    String.length (fst (draw_digits Rng digitDist n rng pin0)) =
    (String.length pin0 + n)%nat.
Proof.
  induction n as [|n IH]; intros rng pin0; cbn [draw_digits]; [cbn; lia|].
  destruct (digitDist rng) as [d rng1]. rewrite IH, length_snoc. lia.
Qed.

Lemma isSequential_short (pin : string) :
  (String.length pin <= 1)%nat -> isSequential pin = true.
Proof.
  destruct pin as [|c [|c' r]]; cbn; intros H; [reflexivity | reflexivity | lia].
Qed.

(** X10.  [generatePin] with a length of one or less never returns: a
    string of at most one character passes for a sequence, so every
    candidate is rejected, whatever the random source gives and however
    long the loop runs. *)
Theorem generatePin_short_length_never_returns :
  forall (Rng : Type) (digitDist : Rng -> Z * Rng) (fuel : nat) (length : Z) (rng : Rng),
    length <= 1 ->
    generatePin Rng digitDist fuel length rng = None.
Proof.
  intros Rng digitDist fuel length rng Hlen. revert rng.
  induction fuel as [|fuel IH]; intros rng; [reflexivity|].
  cbn [generatePin].
  pose proof (draw_digits_length digitDist (Z.to_nat length) rng "") as Hl.
  destruct (draw_digits Rng digitDist (Z.to_nat length) rng "") as [cand rng1].
  cbn [fst String.length] in Hl.
  rewrite isSequential_short by lia. apply IH.
Qed.

(** X10 for a one-digit PIN and a source that counts up. *)
Lemma generatePin_short_length_never_returns_witness :
  generatePin Z (fun s => (s mod 10, s + 1)) 1000 1 0 = None.
Proof. apply generatePin_short_length_never_returns. lia. Defined.

(** * What [authenticate] writes *)

(** X11.  [authenticate] writes through: called on an unlocked account of
    the store, it leaves the store holding the record it hands back and
    the file holding the image of that store, on the correct PIN and on a
    wrong one alike.  On a locked account, or one that is not in the
    store, the store and the file stay as they were.  The records of the
    other users are never touched. *)
Theorem authenticate_writes_through :
  forall (user : User) (w : World),
    let user' := snd (fst (authenticate user w)) in
    let w' := snd (authenticate user w) in
    (forall name : string,
       name <> username user -> users w' !! name = users w !! name) /\
    (if locked user || negb (fst (exists_ (username user) w))
     then users w' = users w /\ disk w' = disk w
     else users w' !! username user = Some user' /\
          username user' = username user /\
          disk w' = Some (file_image (users w'))).
Proof.
  intros user w; cbv zeta. unfold exists_. cbn [fst].
  assert (Hupd : forall u, username u = username user ->
            (forall name, name <> username user ->
               fst (updated u (users w) (disk w)) !! name = users w !! name) /\
            (if negb (bool_decide (is_Some (users w !! username user)))
             then fst (updated u (users w) (disk w)) = users w /\
                  snd (updated u (users w) (disk w)) = disk w
             else fst (updated u (users w) (disk w)) !! username user = Some u /\
                  username u = username user /\
                  snd (updated u (users w) (disk w)) =
                  Some (file_image (fst (updated u (users w) (disk w)))))).
  { intros u Hu. split.
    - intros name Hne. apply updated_other. congruence.
    - unfold updated. rewrite Hu.
      destruct (users w !! username user) as [u0|] eqn:E; cbn [fst snd].
      + rewrite bool_decide_eq_true_2 by eauto. cbn [negb].
        rewrite lookup_insert_eq. now repeat split.
      + rewrite bool_decide_eq_false_2 by (intros [x Hx]; discriminate).
        now split. }
  destruct (locked user) eqn:Hl.
  { rewrite (authenticate_locked user w Hl). cbn [orb fst snd users disk]. now repeat split. }
  cbn [orb].
  destruct (String.eqb_spec (next_token w) (pin user)) as [Ht|Ht].
  - rewrite (authenticate_correct user w Hl Ht). cbn [fst snd users disk].
    apply Hupd. reflexivity.
  - rewrite (authenticate_wrong user w Hl Ht). cbn [fst snd users disk].
    apply Hupd. apply failed_attempt_fields.
Qed.

(** * Account creation *)

Section AccountCreationFacts.

Variable Rng : Type.
Variable digitDist : Rng -> Z * Rng.

Lemma createAccount_taken (fuel : nat) (rng : Rng) m d c o :
  is_Some (m !! next_token (mk_World m d c o)) ->
  createAccount Rng digitDist fuel rng (mk_World m d c o) =
  Some (rng, mk_World m d (tl c)
               (o ++ [nl ++ "--- Create Account ---" ++ nl ++ "Username (no spaces): ";
                      "User already exists." ++ nl])).
Proof.
  intros Hs. unfold createAccount. rewrite bind_print.
  unfold read_token, next_token in *. cbn [cin users disk cout] in *.
  destruct c as [|t1 c]; cbn [tl];
    unfold exists_; cbn [users]; rewrite bool_decide_eq_true_2 by exact Hs;
    unfold print; cbn [snd users disk cin cout]; now rewrite <- app_assoc.
Qed.

Lemma createAccount_free (fuel : nat) (rng : Rng) m d c o :
  m !! next_token (mk_World m d c o) = None ->
  createAccount Rng digitDist fuel rng (mk_World m d c o) =
  let name := next_token (mk_World m d c o) in
  let length := if String.eqb (second_token (mk_World m d c o)) "6" then 6 else 4 in
  match generatePin Rng digitDist fuel length rng with
  | None => None
  | Some (pin, rng') =>
      let u := mk_User name pin balance_1000 0 false in
      Some (rng',
            mk_World (<[name := u]> m) (Some (file_image (<[name := u]> m))) (tl (tl c))
              (o ++ create_output name "Choose PIN length (4 or 6) [default 4]: " pin ++
               ["Account created and saved." ++ nl]))
  end.
Proof.
  intros Hn. cbv zeta. unfold createAccount. rewrite bind_print.
  unfold read_token, next_token, second_token in *. cbn [cin users disk cout] in *.
  destruct c as [|t1 [|t2 c]]; cbn [tl];
    unfold exists_; cbn [users];
    (rewrite bool_decide_eq_false_2 by (rewrite Hn; intros [x Hx]; discriminate));
    rewrite bind_print; cbn [cin users disk cout]; unfold DEFAULT_PIN_LENGTH;
    (destruct (generatePin Rng digitDist fuel _ rng) as [[pin rng']|]; [|reflexivity]);
    rewrite !bind_print, addUser_spec; cbn [username]; rewrite Hn;
    cbn [negb]; unfold print, create_output; cbn [snd users disk cin cout];
    rewrite <- !app_assoc; reflexivity.
Qed.

End AccountCreationFacts.

(** X12.  [createAccount] on a username that is taken leaves the account
    alone: the store, the file and the random engine are as before, no
    PIN is generated, and only the username has been read from the input. *)
Theorem createAccount_existing_user :
  forall (Rng : Type) (digitDist : Rng -> Z * Rng) (fuel : nat) (rng : Rng) (w : World),
    is_Some (users w !! next_token w) ->
    createAccount Rng digitDist fuel rng w =
    Some (rng, mk_World (users w) (disk w) (tl (cin w))
                 (cout w ++ [nl ++ "--- Create Account ---" ++ nl ++ "Username (no spaces): ";
                             "User already exists." ++ nl])).
Proof.
  intros Rng digitDist fuel rng [m d c o] Hs. cbn [users disk cin cout].
  now apply createAccount_taken.
Qed.

(** X12 for a second account named [bob]. *)
Lemma createAccount_existing_user_witness :
  createAccount (list Z) scripted_digits 0 [4; 9; 3; 0; 2; 7] (bob_world ["bob"; "6"]) =
  Some ([4; 9; 3; 0; 2; 7],
        mk_World {[ "bob" := bob ]} None ["6"]
          [nl ++ "--- Create Account ---" ++ nl ++ "Username (no spaces): ";
           "User already exists." ++ nl]).
Proof.
  refine (createAccount_existing_user (list Z) scripted_digits 0 [4; 9; 3; 0; 2; 7]
            (bob_world ["bob"; "6"]) _).
  vm_compute. eauto.
Defined.

(** X13.  [createAccount] on a free username returns when [generatePin]
    does, and then the store holds under that username an unlocked
    account with the generated PIN, a balance of 1000.00 and no wrong
    attempt; the file is the image of the new store and the report is
    "Account created and saved.".  The PIN has six digits when the second
    token read is exactly "6" and four on any other answer, and it passed
    the three checks of the generator. *)
Theorem createAccount_new_user :
  forall (Rng : Type) (digitDist : Rng -> Z * Rng),
    (forall rng : Rng, 0 <= fst (digitDist rng) <= 9) ->
    forall (fuel : nat) (rng : Rng) (w : World),
      users w !! next_token w = None ->
      let name := next_token w in
      let length := if String.eqb (second_token w) "6" then 6 else 4 in
      match generatePin Rng digitDist fuel length rng with
      | None => createAccount Rng digitDist fuel rng w = None
      | Some (pin, rng') =>
          let u := mk_User name pin balance_1000 0 false in
          createAccount Rng digitDist fuel rng w =
          Some (rng',
                mk_World (<[name := u]> (users w))
                  (Some (file_image (<[name := u]> (users w)))) (tl (tl (cin w)))
                  (cout w ++ create_output name "Choose PIN length (4 or 6) [default 4]: " pin
                   ++ ["Account created and saved." ++ nl])) /\
          String.length pin = Z.to_nat length /\
          all_digits pin = true /\
          isSequential pin = false /\
          hasTooManyRepeats pin = false /\
          pin ∉ banned
      end.
Proof.
  intros Rng digitDist Hrange fuel rng [m d c o] Hn; cbv zeta.
  cbn [users disk cin cout] in *.
  rewrite (createAccount_free Rng digitDist fuel rng m d c o Hn). cbv zeta.
  destruct (generatePin Rng digitDist fuel _ rng) as [[pin rng']|] eqn:E; [|reflexivity].
  split; [reflexivity|].
  exact (generatePin_sound Rng digitDist Hrange fuel _ rng rng' pin E).
Qed.

(** X13 for a new user [eve] who asks for six digits, the source giving
    123456 (rejected) and then 493027. *)
Lemma createAccount_new_user_witness :
  exists (rng' : list Z) (w' : World),
    createAccount (list Z) scripted_digits 5 [1; 2; 3; 4; 5; 6; 4; 9; 3; 0; 2; 7; 8]
      (bob_world ["eve"; "6"; "next"]) = Some (rng', w') /\
    rng' = [8] /\
    users w' !! "eve" = Some (mk_User "eve" "493027" balance_1000 0 false) /\
    users w' !! "bob" = Some bob /\
    cin w' = ["next"].
Proof.
  pose proof (createAccount_new_user (list Z) scripted_digits scripted_digits_range 5
                [1; 2; 3; 4; 5; 6; 4; 9; 3; 0; 2; 7; 8]
                (bob_world ["eve"; "6"; "next"]) eq_refl) as H.
  cbv zeta in H.
  change (generatePin (list Z) scripted_digits 5
            (if String.eqb (second_token (bob_world ["eve"; "6"; "next"])) "6" then 6 else 4)
            [1; 2; 3; 4; 5; 6; 4; 9; 3; 0; 2; 7; 8])
    with (Some ("493027", [8])) in H.
  destruct H as [H _].
  eexists _, _. split; [exact H|].
  split; [reflexivity|]. cbn [users cin]. split; [|split]; reflexivity.
Defined.

(** * Login *)

Section LoginFacts.

Variable atmSession : User -> ST unit.

Lemma bind_getUser {A : Type} (name : string) (k : option User -> ST A) (w : World) :
  bind (getUser name) k w = k (users w !! name) w.
Proof. reflexivity. Qed.

Lemma second_token_tl m d c o m' d' o' :
  next_token (mk_World m' d' (tl c) o') = second_token (mk_World m d c o).
Proof. unfold next_token, second_token. cbn [cin]. destruct c as [|t1 [|t2 r]]; reflexivity. Qed.

Lemma loginAndRun_unknown m d c o :
  m !! next_token (mk_World m d c o) = None ->
  loginAndRun atmSession (mk_World m d c o) =
  (tt, mk_World m d (tl c) (o ++ [login_prompt; "No such user." ++ nl])).
Proof.
  intros Hn. unfold loginAndRun. rewrite bind_print, bind_read_token, bind_getUser.
  unfold next_token in Hn |- *. cbn [users cin] in Hn |- *. rewrite Hn. unfold print. cbn [users disk cin cout].
  now rewrite <- app_assoc.
Qed.

Lemma loginAndRun_locked m d c o (u : User) :
  m !! next_token (mk_World m d c o) = Some u -> locked u = true ->
  loginAndRun atmSession (mk_World m d c o) =
  (tt, mk_World m d (tl c) (o ++ [login_prompt; "Account locked. Contact admin." ++ nl])).
Proof.
  intros Hu Hl. unfold loginAndRun. rewrite bind_print, bind_read_token, bind_getUser.
  unfold next_token in Hu |- *. cbn [users cin] in Hu |- *. rewrite Hu, Hl. unfold print. cbn [users disk cin cout].
  now rewrite <- app_assoc.
Qed.

Lemma loginAndRun_wrong m d c o (u : User) :
  m !! next_token (mk_World m d c o) = Some u -> locked u = false ->
  second_token (mk_World m d c o) <> pin u ->
  loginAndRun atmSession (mk_World m d c o) =
  (tt, mk_World (fst (updated (failed_attempt u) m d))
                (snd (updated (failed_attempt u) m d)) (tl (tl c))
                (o ++ login_prompt :: wrong_pin_output u)).
Proof.
  intros Hu Hl Hp. rewrite <- (second_token_tl m d c o m d
                   (o ++ [nl ++ "--- Login ---" ++ nl ++ "Username: "])) in Hp.
  unfold loginAndRun. rewrite bind_print, bind_read_token, bind_getUser.
  unfold next_token in Hu |- *. cbn [users cin] in Hu |- *. rewrite Hu, Hl. unfold bind at 1.
  rewrite (authenticate_wrong u _ Hl Hp).
  cbn [users disk cin cout ret]. now rewrite <- app_assoc.
Qed.

Lemma loginAndRun_correct m d c o (u : User) :
  m !! next_token (mk_World m d c o) = Some u -> locked u = false ->
  second_token (mk_World m d c o) = pin u ->
  loginAndRun atmSession (mk_World m d c o) =
  let w' := mk_World (fst (updated (set_wrongAttempts u 0) m d))
                     (snd (updated (set_wrongAttempts u 0) m d)) (tl (tl c))
                     (o ++ login_prompt :: correct_pin_output u) in
  atmSession (match users w' !! next_token (mk_World m d c o) with
              | Some x => x
              | None => set_wrongAttempts u 0
              end) w'.
Proof.
  intros Hu Hl Hp. rewrite <- (second_token_tl m d c o m d
                   (o ++ [nl ++ "--- Login ---" ++ nl ++ "Username: "])) in Hp.
  unfold loginAndRun. rewrite bind_print, bind_read_token, bind_getUser.
  unfold next_token in Hu |- *. cbn [users cin] in Hu |- *. rewrite Hu, Hl. unfold bind at 1.
  rewrite (authenticate_correct u _ Hl Hp).
  cbn [users disk cin cout]. rewrite bind_getUser. cbv zeta. cbn [users].
  now rewrite <- app_assoc.
Qed.

End LoginFacts.

Lemma updated_stored (x : User) (m : gmap string User) (d : option string) :
  is_Some (m !! username x) ->
  updated x m d = (<[username x := x]> m, Some (file_image (<[username x := x]> m))).
Proof. intros [u0 Hu]. unfold updated. now rewrite Hu. Qed.

(** X14.  [loginAndRun] on a username that is unknown or whose account
    is locked returns at once: no PIN is asked for and none is read, no
    session is started, and the store and the file are as before. *)
Theorem loginAndRun_refuses :
  forall (atmSession : User -> ST unit) (w : World),
    (forall u : User, users w !! next_token w = Some u -> locked u = true) ->
    loginAndRun atmSession w =
    (tt, mk_World (users w) (disk w) (tl (cin w))
           (cout w ++ [login_prompt;
                       match users w !! next_token w with
                       | Some _ => "Account locked. Contact admin." ++ nl
                       | None => "No such user." ++ nl
                       end])).
Proof.
  intros atmSession [m d c o] H. cbn [users disk cin cout] in *.
  destruct (m !! next_token (mk_World m d c o)) as [u|] eqn:E.
  - now apply (loginAndRun_locked atmSession m d c o u E), H.
  - now apply loginAndRun_unknown.
Qed.

(** X14 for the locked account of [dave] and his correct PIN. *)
Lemma loginAndRun_refuses_witness :
  loginAndRun (fun _ => print "session")
    (mk_World {[ "dave" := dave ]} None ["dave"; "7306"] []) =
  (tt, mk_World {[ "dave" := dave ]} None ["7306"]
         [login_prompt; "Account locked. Contact admin." ++ nl]).
Proof.
  refine (loginAndRun_refuses (fun _ => print "session")
            (mk_World {[ "dave" := dave ]} None ["dave"; "7306"] []) _).
  intros u Hu. change (({[ "dave" := dave ]} : gmap string User) !! "dave" = Some u) in Hu.
  apply lookup_singleton_Some in Hu. destruct Hu as [_ <-]. reflexivity.
Defined.

Lemma loginAndRun_wrong_stored (atmSession : User -> ST unit) m d c o (u : User) :
  m !! next_token (mk_World m d c o) = Some u ->
  username u = next_token (mk_World m d c o) ->
  locked u = false ->
  second_token (mk_World m d c o) <> pin u ->
  loginAndRun atmSession (mk_World m d c o) =
  (tt, mk_World (<[next_token (mk_World m d c o) := failed_attempt u]> m)
         (Some (file_image (<[next_token (mk_World m d c o) := failed_attempt u]> m)))
         (tl (tl c)) (o ++ login_prompt :: wrong_pin_output u)).
Proof.
  intros Hu Hname Hl Hp.
  rewrite (loginAndRun_wrong atmSession m d c o u Hu Hl Hp).
  assert (Hf : username (failed_attempt u) = next_token (mk_World m d c o))
    by (rewrite <- Hname; apply failed_attempt_fields).
  rewrite updated_stored by (rewrite Hf; eauto). cbn [fst snd].
  now rewrite Hf.
Qed.

(** X15.  A login with a wrong PIN starts no session and is recorded in
    the store and in the file: the record of the account now carries one
    more wrong attempt, and the lock once the counter reaches three. *)
Theorem loginAndRun_wrong_pin :
  forall (atmSession : User -> ST unit) (w : World) (u : User),
    users w !! next_token w = Some u ->
    username u = next_token w ->
    locked u = false ->
    second_token w <> pin u ->
    let m' := <[next_token w := failed_attempt u]> (users w) in
    loginAndRun atmSession w =
    (tt, mk_World m' (Some (file_image m')) (tl (tl (cin w)))
           (cout w ++ login_prompt :: wrong_pin_output u)).
Proof.
  intros atmSession [m d c o] u Hu Hname Hl Hp; cbv zeta. cbn [users disk cin cout] in *.
  now apply loginAndRun_wrong_stored.
Qed.

(** X16.  A login with the correct PIN starts the session on the record
    with its counter of wrong attempts back at zero, and this record is
    the one the store and the file hold when the session begins. *)
Theorem loginAndRun_correct_pin :
  forall (atmSession : User -> ST unit) (w : World) (u : User),
    users w !! next_token w = Some u ->
    username u = next_token w ->
    locked u = false ->
    second_token w = pin u ->
    let u0 := set_wrongAttempts u 0 in
    let m' := <[next_token w := u0]> (users w) in
    loginAndRun atmSession w =
    atmSession u0
      (mk_World m' (Some (file_image m')) (tl (tl (cin w)))
         (cout w ++ login_prompt :: correct_pin_output u)).
Proof.
  intros atmSession [m d c o] u Hu Hname Hl Hp; cbv zeta. cbn [users disk cin cout] in *.
  rewrite (loginAndRun_correct atmSession m d c o u Hu Hl Hp). cbv zeta.
  rewrite updated_stored by (cbn [username set_wrongAttempts]; rewrite Hname; eauto).
  cbn [fst snd users username set_wrongAttempts]. rewrite Hname, lookup_insert_eq.
  reflexivity.
Qed.

(** X15 for [carol], who has two wrong attempts on record: the third
    one locks the stored account. *)
Lemma loginAndRun_wrong_pin_witness :
  users (snd (loginAndRun (fun _ => print "session")
                (mk_World {[ "carol" := carol ]} None ["carol"; "0000"] [])))
    !! "carol" = Some (mk_User "carol" "5839" balance_1000 3 true).
Proof.
  pose proof (loginAndRun_wrong_pin (fun _ => print "session")
                (mk_World {[ "carol" := carol ]} None ["carol"; "0000"] []) carol
                eq_refl eq_refl eq_refl) as H.
  cbv zeta in H. rewrite H.
  - cbn [snd users]. apply lookup_insert_eq.
  - vm_compute. discriminate.
Defined.

(** X16 for [bob], the session being one that prints the attempt counter
    it was started with. *)
Lemma loginAndRun_correct_pin_witness :
  let w' := snd (loginAndRun (fun u => print (print_int (wrongAttempts u)))
                   (mk_World {[ "bob" := set_wrongAttempts bob 2 ]} None ["bob"; "4927"] [])) in
  users w' !! "bob" = Some bob /\ last (cout w') = Some "0".
Proof.
  pose proof (loginAndRun_correct_pin (fun u => print (print_int (wrongAttempts u)))
                (mk_World {[ "bob" := set_wrongAttempts bob 2 ]} None ["bob"; "4927"] [])
                (set_wrongAttempts bob 2) eq_refl eq_refl eq_refl eq_refl) as H.
  cbv zeta in H. cbv zeta. rewrite H. unfold print. cbn [snd users cout].
  split; [apply lookup_insert_eq | apply last_snoc].
Defined.

Lemma failed_attempt_fresh (n p : string) (b : spec_float) :
  failed_attempt (mk_User n p b 0 false) = mk_User n p b 1 false /\
  failed_attempt (mk_User n p b 1 false) = mk_User n p b 2 false /\
  failed_attempt (mk_User n p b 2 false) = mk_User n p b 3 true.
Proof. repeat split. Qed.

(** X17.  Three logins in a row with a wrong PIN lock a fresh account
    in the store and in the file; from then on a login under that name is
    refused before the PIN is read, the correct one included, and starts
    no session. *)
Theorem three_failed_logins_lock_the_account :
  forall (atmSession : User -> ST unit) (m : gmap string User) (d : option string)
         (o rest : list string) (name p1 p2 p3 : string) (u : User),
    m !! name = Some u ->
    username u = name -> locked u = false -> wrongAttempts u = 0 ->
    p1 <> pin u -> p2 <> pin u -> p3 <> pin u ->
    let run := fun w : World => snd (loginAndRun atmSession w) in
    let w3 := run (run (run (mk_World m d (name :: p1 :: name :: p2 :: name :: p3 :: rest) o))) in
    users w3 = <[name := mk_User name (pin u) (balance u) 3 true]> m /\
    disk w3 = Some (file_image (users w3)) /\
    cin w3 = rest /\
    forall (more o' : list string),
      loginAndRun atmSession (mk_World (users w3) (disk w3) (name :: pin u :: more) o') =
      (tt, mk_World (users w3) (disk w3) (pin u :: more)
             (o' ++ [login_prompt; "Account locked. Contact admin." ++ nl])).
Proof.
  intros atmSession m d o rest name p1 p2 p3 [n p b wa l] Hu Hname Hl Hwa H1 H2 H3 run w3.
  cbn [username locked wrongAttempts pin balance] in *. subst n l wa.
  destruct (failed_attempt_fresh name p b) as (F1 & F2 & F3).
  assert (R1 : run (mk_World m d (name :: p1 :: name :: p2 :: name :: p3 :: rest) o) =
               mk_World (<[name := mk_User name p b 1 false]> m)
                        (Some (file_image (<[name := mk_User name p b 1 false]> m)))
                        (name :: p2 :: name :: p3 :: rest)
                        (o ++ login_prompt :: wrong_pin_output (mk_User name p b 0 false))).
  { unfold run.
    rewrite (loginAndRun_wrong_stored atmSession m d
               (name :: p1 :: name :: p2 :: name :: p3 :: rest) o
               (mk_User name p b 0 false) Hu eq_refl eq_refl H1), F1. reflexivity. }
  set (m1 := <[name := mk_User name p b 1 false]> m) in *.
  assert (R2 : forall o1, run (mk_World m1 (Some (file_image m1))
                                 (name :: p2 :: name :: p3 :: rest) o1) =
               mk_World (<[name := mk_User name p b 2 false]> m)
                        (Some (file_image (<[name := mk_User name p b 2 false]> m)))
                        (name :: p3 :: rest)
                        (o1 ++ login_prompt :: wrong_pin_output (mk_User name p b 1 false))).
  { intros o1. unfold run.
    rewrite (loginAndRun_wrong_stored atmSession m1 (Some (file_image m1)) (name :: p2 :: name :: p3 :: rest) o1
               (mk_User name p b 1 false) (lookup_insert_eq m name _) eq_refl eq_refl H2), F2.
    cbn [snd next_token users cin tl].
    unfold m1. now rewrite insert_insert_eq. }
  set (m2 := <[name := mk_User name p b 2 false]> m) in *.
  assert (R3 : forall o2, run (mk_World m2 (Some (file_image m2)) (name :: p3 :: rest) o2) =
               mk_World (<[name := mk_User name p b 3 true]> m)
                        (Some (file_image (<[name := mk_User name p b 3 true]> m)))
                        rest
                        (o2 ++ login_prompt :: wrong_pin_output (mk_User name p b 2 false))).
  { intros o2. unfold run.
    rewrite (loginAndRun_wrong_stored atmSession m2 (Some (file_image m2)) (name :: p3 :: rest) o2
               (mk_User name p b 2 false) (lookup_insert_eq m name _) eq_refl eq_refl H3), F3.
    cbn [snd next_token users cin tl].
    unfold m2. now rewrite insert_insert_eq. }
  unfold w3. rewrite R1, R2, R3. cbn [users disk cin].
  split; [reflexivity|]. split; [reflexivity|]. split; [reflexivity|].
  intros more o'.
  exact (loginAndRun_locked atmSession
           (<[name := mk_User name p b 3 true]> m)
           (Some (file_image (<[name := mk_User name p b 3 true]> m)))
           (name :: p :: more) o' (mk_User name p b 3 true)
           (lookup_insert_eq m name _) eq_refl).
Qed.

(** X17 for [bob]: three wrong PINs, then the right one. *)
Lemma three_failed_logins_lock_the_account_witness :
  exists w3 : World,
    users w3 !! "bob" = Some (mk_User "bob" "4927" balance_1000 3 true) /\
    loginAndRun (fun _ => print "session")
      (mk_World (users w3) (disk w3) ["bob"; "4927"] []) =
    (tt, mk_World (users w3) (disk w3) ["4927"]
           [login_prompt; "Account locked. Contact admin." ++ nl]).
Proof.
  assert (H1 : "1111" <> pin bob) by (vm_compute; discriminate).
  assert (H2 : "2222" <> pin bob) by (vm_compute; discriminate).
  assert (H3 : "3333" <> pin bob) by (vm_compute; discriminate).
  pose proof (three_failed_logins_lock_the_account (fun _ => print "session")
                {[ "bob" := bob ]} None [] [] "bob" "1111" "2222" "3333" bob
                (lookup_singleton_eq "bob" bob) eq_refl eq_refl eq_refl H1 H2 H3) as H.
  cbv zeta in H. destruct H as (Hm & Hd & Hc & Hrefuse).
  match type of Hc with cin ?W = _ => exists W end.
  split.
  - rewrite Hm. apply lookup_insert_eq.
  - exact (Hrefuse [] []).
Defined.

(** * The admin listing *)

Lemma admin_loop_lines (lines : list string) :
  Forall (fun l => has_char "010" l = false) lines ->
  forall (fuel : nat) (line0 : string) (out : list string),
    (List.length lines < fuel)%nat ->
    admin_loop fuel (open_stream (join_lines lines)) line0 out =
    (out ++ flat_map user_row (decoded_users lines))%list.
Proof.
  induction 1 as [|l ls Hl Hls IH]; intros fuel line0 out Hfuel;
    (destruct fuel as [|fuel]; [simpl in Hfuel; lia|]).
  - cbn. now rewrite app_nil_r.
  - cbn [admin_loop]. rewrite join_lines_cons.
    rewrite (getline_field "010" l (join_lines ls) line0 Hl).
    cbn [failbit open_stream]. rewrite decoded_users_cons.
    assert (Hf : (List.length ls < fuel)%nat) by (simpl in Hfuel; lia).
    destruct (String.eqb_spec l "") as [->|Hne].
    + rewrite deserialize_empty. now apply IH.
    + destruct (deserialize l) as [u|e]; rewrite (IH fuel l _ Hf); [|reflexivity].
      cbn [app flat_map]. now rewrite <- app_assoc.
Qed.

Lemma fold_load_step_keys (name : string) (lines : list string) :
  forall m : gmap string User,
    is_Some (fold_left load_step lines m !! name) <->
    In name (List.map username (decoded_users lines)) \/ is_Some (m !! name).
Proof.
  induction lines as [|l ls IH]; intros m; [cbn; tauto|].
  cbn [fold_left]. rewrite IH, decoded_users_cons, List.map_app, in_app_iff.
  unfold load_step.
  destruct (String.eqb_spec l "") as [->|Hne].
  - rewrite deserialize_empty. cbn. tauto.
  - destruct (deserialize l) as [u|e]; cbn [List.map In]; [|tauto].
    destruct (decide (name = username u)) as [->|Hn].
    + rewrite lookup_insert_eq. split; [tauto | eauto].
    + rewrite lookup_insert_ne by congruence. split; [tauto|].
      intros [[[E|[]]|H]|H]; [congruence | tauto | tauto].
Qed.

Lemma adminListUsers_lines (w : World) (lines : list string) :
  disk w = Some (join_lines lines) ->
  Forall (fun l => has_char "010" l = false) lines ->
  adminListUsers w =
  (tt, mk_World (users w) (disk w) (cin w)
         (cout w ++ admin_header ++ flat_map user_row (decoded_users lines))).
Proof.
  intros Hd Hnl. destruct w as [m d c o]. cbn [users disk cin cout] in *.
  unfold adminListUsers. rewrite !bind_print. cbn [disk users cin cout]. rewrite Hd.
  rewrite admin_loop_lines; [|exact Hnl|pose proof (join_lines_length lines); lia].
  unfold admin_header. now rewrite <- !app_assoc.
Qed.

(** X18.  [adminListUsers] prints, after its two header lines, one row
    per line of the file that deserializes, in the order of the file, and
    nothing for the others; it changes neither the store nor the file and
    reads no input.  The usernames it lists are those under which [load]
    puts a record in the store. *)
Theorem adminListUsers_rows :
  forall (w : World) (lines : list string),
    disk w = Some (join_lines lines) ->
    Forall (fun l => has_char "010" l = false) lines ->
    adminListUsers w =
    (tt, mk_World (users w) (disk w) (cin w)
           (cout w ++ admin_header ++ flat_map user_row (decoded_users lines))) /\
    (forall name : string,
       In name (List.map username (decoded_users lines)) <->
       is_Some (load_file (join_lines lines) !! name)).
Proof.
  intros w lines Hd Hnl. split; [now apply adminListUsers_lines|].
  intros name. rewrite (load_file_lines lines Hnl), fold_load_step_keys.
  rewrite lookup_empty. split; [tauto|]. intros [H|[x Hx]]; [exact H | discriminate].
Qed.

(** X18 on a file of three lines, the second one malformed. *)
Lemma adminListUsers_rows_witness :
  cout (snd (adminListUsers
               (mk_World ∅ (Some (join_lines [serialize bob; bad_line; serialize dave])) [] []))) =
  (admin_header ++
   ["bob"; (tab ++ "Rs ")%string; "1000.00"; tab; "No"; nl;
    "dave"; (tab ++ "Rs ")%string; "10.00"; tab; "Yes"; nl])%list.
Proof.
  destruct (adminListUsers_rows
              (mk_World ∅ (Some (join_lines [serialize bob; bad_line; serialize dave])) [] [])
              [serialize bob; bad_line; serialize dave] eq_refl) as [H _].
  - repeat (constructor; [vm_compute; reflexivity|]). constructor.
  - rewrite H. vm_compute. reflexivity.
Defined.

Lemma decoded_users_stored (l : list (string * User)) :
  (forall p, In p l -> storable (snd p)) ->
  decoded_users (List.map (fun p => serialize (snd p)) l) = List.map snd l.
Proof.
  induction l as [|p l IH]; intros H; [reflexivity|].
  cbn [List.map]. rewrite decoded_users_cons.
  rewrite (storable_round_trip (snd p)) by (apply H; now left).
  rewrite IH by (intros q Hq; apply H; now right). reflexivity.
Qed.

(** X19.  Right after a save, when the file is the image of the store,
    [adminListUsers] prints one row for every record of the store and no
    other row, provided the records are storable. *)
Theorem adminListUsers_after_save :
  forall w : World,
    disk w = Some (file_image (users w)) ->
    (forall (k : string) (u : User), users w !! k = Some u -> storable u) ->
    adminListUsers w =
    (tt, mk_World (users w) (disk w) (cin w)
           (cout w ++ admin_header ++
            flat_map user_row (List.map snd (map_to_list (users w))))).
Proof.
  intros w Hd Hs.
  assert (Hl : forall p, In p (map_to_list (users w)) -> storable (snd p)).
  { intros [k u] Hi. apply list_elem_of_In, elem_of_map_to_list in Hi.
    now apply (Hs k u). }
  rewrite file_image_lines in Hd.
  rewrite (adminListUsers_lines w _ Hd (proj1 (storable_lines _ Hl))).
  now rewrite (decoded_users_stored _ Hl).
Qed.

(** X19 for the store that holds [dave], saved. *)
Lemma adminListUsers_after_save_witness :
  cout (snd (adminListUsers
               (mk_World {[ "dave" := dave ]} (Some (file_image {[ "dave" := dave ]})) [] []))) =
  (admin_header ++ ["dave"; (tab ++ "Rs ")%string; "10.00"; tab; "Yes"; nl])%list.
Proof.
  rewrite (adminListUsers_after_save
             (mk_World {[ "dave" := dave ]} (Some (file_image {[ "dave" := dave ]})) [] [])
             eq_refl).
  - vm_compute. reflexivity.
  - intros k u Hk. cbn [users] in Hk. apply lookup_singleton_Some in Hk.
    destruct Hk as [_ <-]. exact dave_storable.
Defined.

(** * A PIN change that fails *)

Lemma updated_same_pin (u : User) (m : gmap string User) (d : option string) :
  (forall x, m !! username u = Some x -> pin x = pin u) ->
  forall name : string, pin <$> (fst (updated u m d) !! name) = pin <$> (m !! name).
Proof.
  intros H name. unfold updated.
  destruct (m !! username u) as [x|] eqn:E; cbn [fst]; [|reflexivity].
  destruct (decide (name = username u)) as [->|Hne].
  - rewrite lookup_insert_eq, E. cbn. now rewrite (H x eq_refl).
  - now rewrite lookup_insert_ne by congruence.
Qed.

Lemma changePin_cases (user : User) m d c o :
  exists w' : World,
    snd (changePin user (mk_World m d c o)) = w' /\
    (pin_change_reported w' \/
     users w' = m \/
     users w' = fst (updated (failed_attempt user) m d) \/
     users w' = fst (updated (set_wrongAttempts user 0) m d)).
Proof.
  unfold changePin. rewrite bind_print. unfold bind at 1.
  destruct (locked user) eqn:Hl.
  { rewrite (authenticate_locked user _ Hl). cbn [negb ret snd users].
    eexists. split; [reflexivity|]. right. left. reflexivity. }
  destruct (String.eqb_spec
              (next_token (mk_World m d c (o ++ [nl ++ "--- Change PIN ---" ++ nl])))
              (pin user)) as [Ht|Ht].
  2:{ rewrite (authenticate_wrong user _ Hl Ht). cbn [negb ret snd users disk].
      eexists. split; [reflexivity|]. right. right. left. reflexivity. }
  rewrite (authenticate_correct user _ Hl Ht). cbn [negb users disk cin cout].
  rewrite !bind_print, bind_read_token.
  destruct (negb _).
  { rewrite bind_print. eexists. split; [reflexivity|]. right. right. right. reflexivity. }
  destruct (_ || _).
  { rewrite bind_print. eexists. split; [reflexivity|]. right. right. right. reflexivity. }
  rewrite bind_updateUser, bind_print. cbn [ret snd].
  eexists. split; [reflexivity|]. left. unfold pin_change_reported. cbn [cout].
  apply last_snoc.
Qed.

(** X20.  A PIN change that does not report success leaves every stored
    PIN as it was: whether the account is locked, the old PIN is wrong,
    or the new one has the wrong length or is weak, no record of the
    store gets another PIN. *)
Theorem changePin_failure_keeps_pins :
  forall (user : User) (w : World),
    (forall x : User, users w !! username user = Some x -> pin x = pin user) ->
    ~ pin_change_reported (snd (changePin user w)) ->
    forall name : string,
      pin <$> (users (snd (changePin user w)) !! name) = pin <$> (users w !! name).
Proof.
  intros user [m d c o] Hsync. cbn [users] in Hsync.
  destruct (changePin_cases user m d c o) as (w' & Hw & Hcases).
  rewrite Hw. intros Hno name. cbn [users].
  destruct Hcases as [H|[H|[H|H]]]; [contradiction | now rewrite H | rewrite H | rewrite H].
  - apply updated_same_pin.
    destruct (failed_attempt_fields user) as (-> & -> & _). exact Hsync.
  - apply updated_same_pin. exact Hsync.
Qed.

(** X20 for [bob], who gives his PIN and then a new one that is a sequence. *)
Lemma changePin_failure_keeps_pins_witness :
  pin <$> (users (snd (changePin bob (bob_world ["4927"; "2345"]))) !! "bob") = Some "4927".
Proof.
  refine (eq_trans (changePin_failure_keeps_pins bob (bob_world ["4927"; "2345"]) _ _ "bob") _).
  - intros x Hx. cbn [users bob_world] in Hx. apply lookup_singleton_Some in Hx.
    destruct Hx as [_ <-]. reflexivity.
  - unfold pin_change_reported. vm_compute. discriminate.
  - reflexivity.
Defined.

(** * From account creation to login *)

(** X21.  An account that [createAccount] has just made can log in: a
    login under the new username with the generated PIN, whatever
    happened to the input and the output in between, starts the session
    on the new record and leaves the store and the file as
    [createAccount] left them. *)
Theorem created_account_can_log_in :
  forall (Rng : Type) (digitDist : Rng -> Z * Rng) (fuel : nat) (rng : Rng) (w : World)
         (r : Rng * World) (atmSession : User -> ST unit),
    users w !! next_token w = None ->
    createAccount Rng digitDist fuel rng w = Some r ->
    let w1 := snd r in
    exists pin : string,
      let u := mk_User (next_token w) pin balance_1000 0 false in
      users w1 !! next_token w = Some u /\
      forall rest o : list string,
        loginAndRun atmSession
          (mk_World (users w1) (disk w1) (next_token w :: pin :: rest) o) =
        atmSession u
          (mk_World (users w1) (disk w1) rest (o ++ login_prompt :: correct_pin_output u)).
Proof.
  intros Rng digitDist fuel rng [m d c o] r atmSession Hn Hr; cbv zeta.
  cbn [users] in Hn.
  rewrite (createAccount_free Rng digitDist fuel rng m d c o Hn) in Hr. cbv zeta in Hr.
  destruct (generatePin Rng digitDist fuel _ rng) as [[pin rng']|]; [|discriminate].
  injection Hr as <-. cbn [snd users disk].
  set (name := next_token (mk_World m d c o)) in *.
  set (u := mk_User name pin balance_1000 0 false).
  exists pin. fold u. split; [apply lookup_insert_eq|].
  intros rest o1.
  rewrite (loginAndRun_correct atmSession (<[name := u]> m) _ (name :: pin :: rest) o1 u
             (lookup_insert_eq m name u) eq_refl eq_refl).
  cbv zeta. change (set_wrongAttempts u 0) with u.
  rewrite updated_stored by (cbn [username u]; rewrite lookup_insert_eq; eauto).
  cbn [fst snd users username u next_token cin tl].
  now rewrite insert_insert_eq, lookup_insert_eq.
Qed.

(** X21 for [eve], created beside [bob] with a six-digit PIN. *)
Lemma created_account_can_log_in_witness :
  exists (w1 : World) (pin : string),
    users w1 !! "bob" = Some bob /\
    loginAndRun (fun u => print (username u))
      (mk_World (users w1) (disk w1) ["eve"; pin] []) =
    (tt, mk_World (users w1) (disk w1) []
           ((login_prompt :: correct_pin_output (mk_User "eve" pin balance_1000 0 false))
            ++ ["eve"])).
Proof.
  destruct (created_account_can_log_in (list Z) scripted_digits 5
              [1; 2; 3; 4; 5; 6; 4; 9; 3; 0; 2; 7; 8] (bob_world ["eve"; "6"; "next"])
              (match createAccount (list Z) scripted_digits 5
                       [1; 2; 3; 4; 5; 6; 4; 9; 3; 0; 2; 7; 8]
                       (bob_world ["eve"; "6"; "next"]) with
               | Some r => r
               | None => ([], bob_world [])
               end)
              (fun u => print (username u)) eq_refl)
    as (pin & Hu & Hlogin).
  - vm_compute. reflexivity.
  - cbv zeta in Hlogin.
    eexists _, pin. split; [|exact (Hlogin [] [])].
    vm_compute. reflexivity.
Defined.
